(** * Mesh coordination core: hub, vault, signed envelopes, gossip

    A shallow embedding of the coordination code of the AILinux backend
    and the properties its specification states about it.

    - [Hub]       app/mcp/mesh_hub.py           (class MeshHub)
    - [Vault]     app/services/federation_vault.py, app/mcp/federation_tools.py
    - [Envelope]  app/services/server_federation.py (signed requests)
    - [Gossip]    app/mcp/mesh_node.py          (MeshNode._handle_gossip)
    - [Registry]  app/api/federation.py         (class NodeRegistry)
    - [Federation] app/services/server_federation.py (health checks, node
                  selection), app/routes/federation.py (heartbeat route)
    - [Peers]     app/mcp/mesh_node.py          (broadcast, tool calls, tool list)

    Python dictionaries whose iteration order is never observed are finite
    maps ([gmap]); objects that are shared and mutated in place (the
    MeshNode records of the hub) live in a store and are named by
    reference.  Clock readings, random bytes and the success of a socket
    or file write are inputs of the operation that consumes them. *)

From Stdlib Require Import ZArith String List Lia Bool Ascii.
From stdpp Require Import base option list gmap fin_maps strings pretty.

Local Open Scope Z_scope.

(** ** JSON values, as [json.loads] delivers them

    Numbers are integers: nothing modelled here looks inside a number. *)

Module Json.

#[local] Unset Elimination Schemes.

Inductive json : Type :=
| JNull
| JBool (b : bool)
| JNum (n : Z)
| JStr (s : string)
| JList (l : list json)
| JDict (d : list (string * json)).

#[local] Set Elimination Schemes.

(** Python truthiness of a decoded JSON value ([if v:]). *)
Definition truthy (v : json) : bool :=
  match v with
  | JNull => false
  | JBool b => b
  | JNum n => negb (n =? 0)
  | JStr s => negb (String.eqb s "")
  | JList l => match l with [] => false | _ => true end
  | JDict d => match d with [] => false | _ => true end
  end.

(** [d.get(k)] on the items of a dict. *)
Fixpoint dict_get (k : string) (d : list (string * json)) : option json :=
  match d with
  | [] => None
  | (k', v) :: d' => if String.eqb k k' then Some v else dict_get k d'
  end.

(** Truthiness of a string ([if s:]) and of an optional string
    ([None] and [""] are both falsy). *)
Definition str_truthy (s : string) : bool := negb (String.eqb s "").

Definition opt_truthy (o : option string) : bool :=
  match o with
  | Some s => str_truthy s
  | None => false
  end.

End Json.

(** Python's [min] over a non-empty sequence of integers. *)
Definition py_min (x : Z) (xs : list Z) : Z := fold_left Z.min xs x.

(** ** The mesh hub (app/mcp/mesh_hub.py) *)

Module Hub.
Import Json.

(** *** Data structures *)

(** A registered mesh node (dataclass [MeshNode]).  [websocket] names the
    transport object; whether it is closed is a fact about the transport,
    kept in the hub state.  Times are clock readings in microseconds. *)
Record MeshNode : Type := mkMeshNode {
  session_id : string;
  machine_id : string;
  websocket : nat;
  tier : string;
  hostname : string;
  platform : string;
  user_id : string;
  tools : list string;
  capabilities : list string;
  connected_at : Z;
  last_ping : Z;
  request_count : Z
}.

Definition with_tools (ts : list string) (n : MeshNode) : MeshNode :=
  mkMeshNode (session_id n) (machine_id n) (websocket n) (tier n) (hostname n)
    (platform n) (user_id n) ts (capabilities n) (connected_at n)
    (last_ping n) (request_count n).

Definition with_last_ping (t : Z) (n : MeshNode) : MeshNode :=
  mkMeshNode (session_id n) (machine_id n) (websocket n) (tier n) (hostname n)
    (platform n) (user_id n) (tools n) (capabilities n) (connected_at n)
    t (request_count n).

(** [node.request_count += 1] *)
Definition count_request (n : MeshNode) : MeshNode :=
  mkMeshNode (session_id n) (machine_id n) (websocket n) (tier n) (hostname n)
    (platform n) (user_id n) (tools n) (capabilities n) (connected_at n)
    (last_ping n) (request_count n + 1).

(** The argument of the exception a provider's error is turned into:
    [error.get("message", str(error))]. *)
Inductive exc_arg : Type :=
| ArgValue (v : json)
| ArgStrOf (v : json).

(** How a routed call came to its end. *)
Inductive resolution : Type :=
| ByResult (v : json)
| ByError (e : exc_arg)
| ByTimeout
| BySendFailure.

(** The frame of one [route_tool_call]: suspended on its future with the
    [timeout] it was called with, or over. *)
Inductive call_state : Type :=
| Waiting (deadline : Z)
| Resolved (r : resolution).

(** Dataclass [PendingRequest]; [future] names the awaited future, which
    belongs to the call of the same id. *)
Record PendingRequest : Type := mkPendingRequest {
  request_id : string;
  source_node : string;
  target_node : string;
  future : string;
  created_at : Z;
  timeout : Z
}.

Record Stats : Type := mkStats {
  total_connections : Z;
  total_messages : Z;
  total_tool_calls : Z;
  started_at : string
}.

(** The fields of [MeshHub], the store of MeshNode objects ([heap]), the
    transports known to be closed and the frames of the routed calls. *)
Record HubState : Type := mkHub {
  heap : gmap nat MeshNode;
  nodes : gmap string nat;
  pending_requests : gmap string PendingRequest;
  _request_counter : Z;
  tool_providers : gmap string (list string);
  stats : Stats;
  closed : gset nat;
  calls : gmap string call_state
}.

Definition init (started : string) : HubState :=
  mkHub ∅ ∅ ∅ 0 ∅ (mkStats 0 0 0 started) ∅ ∅.

Definition set_heap (h : gmap nat MeshNode) (s : HubState) : HubState :=
  mkHub h (nodes s) (pending_requests s) (_request_counter s)
    (tool_providers s) (stats s) (closed s) (calls s).

Definition set_providers (tp : gmap string (list string)) (s : HubState) : HubState :=
  mkHub (heap s) (nodes s) (pending_requests s) (_request_counter s)
    tp (stats s) (closed s) (calls s).

Definition set_stats (st : Stats) (s : HubState) : HubState :=
  mkHub (heap s) (nodes s) (pending_requests s) (_request_counter s)
    (tool_providers s) st (closed s) (calls s).

Definition set_pending (p : gmap string PendingRequest) (c : gmap string call_state)
    (s : HubState) : HubState :=
  mkHub (heap s) (nodes s) p (_request_counter s)
    (tool_providers s) (stats s) (closed s) c.

(** [self.nodes[p]] (and [self.nodes.get(p)]): the object registered under [p]. *)
Definition node_of (s : HubState) (p : string) : option MeshNode :=
  match nodes s !! p with
  | Some r => heap s !! r
  | None => None
  end.

(** [p in self.nodes and not self.nodes[p].websocket.closed] *)
Definition is_connected (s : HubState) (p : string) : bool :=
  match node_of s p with
  | Some n => negb (bool_decide (websocket n ∈ closed s))
  | None => false
  end.

(** [self.nodes[p].request_count] *)
Definition count_of (s : HubState) (p : string) : Z :=
  match node_of s p with
  | Some n => request_count n
  | None => 0
  end.

(** *** Tool management *)

Definition connected_providers (s : HubState) (tool_name : string) : list string :=
  List.filter (is_connected s) (default [] (tool_providers s !! tool_name)).

(** [find_tool_provider]: the connected provider with the lowest request
    count, the first such in the provider list. *)
Definition find_tool_provider (s : HubState) (tool_name : string) : option string :=
  match connected_providers s tool_name with
  | [] => None
  | c0 :: rest =>
      let min_requests := py_min (count_of s c0) (map (count_of s) rest) in
      match find (λ p, count_of s p =? min_requests) (c0 :: rest) with
      | Some p => Some p
      | None => Some c0
      end
  end.

(** [get_aggregated_tools]: per tool with at least one provider, the number
    of providers and the first five of them (keyed by tool name). *)
Definition get_aggregated_tools (s : HubState) : gmap string (nat * list string) :=
  (λ l, (length l, take 5 l)) <$>
    filter (λ kv, snd kv ≠ []) (tool_providers s).

(** *** Node management *)

(** [self.tool_providers[tool]] on a [defaultdict(list)]: a missing key is
    created with an empty list by the access itself. *)
Definition providers_entry (tp : gmap string (list string)) (tool : string)
    : list string * gmap string (list string) :=
  match tp !! tool with
  | Some l => (l, tp)
  | None => ([], <[tool := []]> tp)
  end.

(** [if sid not in self.tool_providers[tool]: self.tool_providers[tool].append(sid)] *)
Definition add_provider (sid : string) (tp : gmap string (list string)) (tool : string)
    : gmap string (list string) :=
  let '(l, tp') := providers_entry tp tool in
  if bool_decide (sid ∈ l) then tp' else <[tool := l ++ [sid]]> tp'.

(** [list.remove(x)]: drops the first occurrence. *)
Fixpoint remove_first (x : string) (l : list string) : list string :=
  match l with
  | [] => []
  | y :: l' => if String.eqb x y then l' else y :: remove_first x l'
  end.

(** [if sid in self.tool_providers[tool]: self.tool_providers[tool].remove(sid)] *)
Definition remove_provider (sid : string) (tp : gmap string (list string)) (tool : string)
    : gmap string (list string) :=
  let '(l, tp') := providers_entry tp tool in
  if bool_decide (sid ∈ l) then <[tool := remove_first sid l]> tp' else tp'.

(** The [params] of a [node/register] message; an absent key is [None]. *)
Record RegisterParams : Type := mkRegisterParams {
  p_session_id : option string;
  p_machine_id : option string;
  p_tier : option string;
  p_hostname : option string;
  p_platform : option string;
  p_user_id : option string;
  p_tools : option (list string);
  p_capabilities : option (list string)
}.

(** [register_node(ws, params)].  [fresh_sid] is the generated
    [sess_<uuid>] used when the message names no session, [now] the clock
    reading of the dataclass defaults.  Returns the new state and the
    reference of the MeshNode object it created. *)
Definition register_node (s : HubState) (ws : nat) (params : RegisterParams)
    (fresh_sid : string) (now : Z) : HubState * nat :=
  let sid := default fresh_sid (p_session_id params) in
  let closed' :=
    match node_of s sid with
    | Some old_node => closed s ∪ {[websocket old_node]}
    | None => closed s
    end in
  let node :=
    mkMeshNode sid (default "" (p_machine_id params)) ws
      (default "guest" (p_tier params)) (default "" (p_hostname params))
      (default "" (p_platform params)) (default "" (p_user_id params))
      (default [] (p_tools params)) (default [] (p_capabilities params))
      now now 0 in
  let r := fresh (dom (heap s)) in
  let st := stats s in
  (mkHub (<[r := node]> (heap s)) (<[sid := r]> (nodes s)) (pending_requests s)
     (_request_counter s)
     (fold_left (add_provider sid) (tools node) (tool_providers s))
     (mkStats (total_connections st + 1) (total_messages st)
        (total_tool_calls st) (started_at st))
     closed' (calls s),
   r).

(** [unregister_node(session_id)] *)
Definition unregister_node (s : HubState) (sid : string) : HubState :=
  match nodes s !! sid, node_of s sid with
  | Some _, Some node =>
      mkHub (heap s) (delete sid (nodes s)) (pending_requests s)
        (_request_counter s)
        (fold_left (remove_provider sid) (tools node) (tool_providers s))
        (stats s) (closed s) (calls s)
  | _, _ => s
  end.

(** *** Message routing *)

Definition count_message (s : HubState) : HubState :=
  let st := stats s in
  set_stats (mkStats (total_connections st) (total_messages st + 1)
               (total_tool_calls st) (started_at st)) s.

(** [send_to_node(session_id, message)].  [io w] tells whether a frame
    written to transport [w] at this moment goes through; a failed write
    is logged and reported as [False]. *)
Definition send_to_node (s : HubState) (sid : string) (io : nat → bool)
    : HubState * bool :=
  match node_of s sid with
  | None => (s, false)
  | Some node =>
      if bool_decide (websocket node ∈ closed s) then (s, false)
      else if io (websocket node) then (count_message s, true)
      else (s, false)
  end.

(** [multicast(message, targets)] *)
Definition multicast (s : HubState) (targets : list string) (io : nat → bool)
    : HubState :=
  fold_left (λ s' sid, fst (send_to_node s' sid io)) targets s.

(** [broadcast(message, exclude)]: one [send_to_node] for every node that
    is not excluded and whose transport is open. *)
Definition broadcast (s : HubState) (exclude : gset string) (io : nat → bool)
    : HubState :=
  multicast s
    (List.filter (λ sid, negb (bool_decide (sid ∈ exclude)) && is_connected s sid)
       (fst <$> map_to_list (nodes s)))
    io.

(** *** Tool call routing *)

(** The dictionaries [route_tool_call] returns:
    [{"error": "No provider found for tool: <tool>"}],
    [{"error": "Failed to send to node: <provider>"}],
    [{"error": "Request timeout after <timeout>s"}],
    or the provider's result. *)
Inductive route_result : Type :=
| ErrNoProvider (tool_name : string)
| ErrFailedToSend (provider : string)
| ErrTimeout (timeout : Z)
| Result (v : json).

(** What a coroutine did when control came back to the event loop. *)
Inductive control (R : Type) : Type :=
| Return (r : R)
| Raise (exc : string)
| Await (rid : string).
Arguments Return {R} r.
Arguments Raise {R} exc.
Arguments Await {R} rid.

(** [f"hub_{self._request_counter}"] *)
Definition hub_id (k : Z) : string := "hub_" +:+ pretty k.
Arguments hub_id : simpl never.

(** The first step of [route_tool_call], "find target node": the named
    target if it is registered, else the least loaded provider. *)
Definition choose_provider (s : HubState) (tool_name : string)
    (target_session : option string) : option string :=
  if opt_truthy target_session then
    match target_session with
    | Some t => if bool_decide (is_Some (nodes s !! t)) then Some t else None
    | None => None
    end
  else find_tool_provider s tool_name.

(** The bookkeeping between the choice of the provider and the send: the
    provider's request count and the call statistics go up by one, a
    request id is drawn from the counter and the pending request is
    installed with a new future. *)
Definition install_request (s : HubState) (p : string) (r : nat) (node : MeshNode)
    (source_session : option string) (timeout now : Z) : HubState :=
  let st := stats s in
  let k := _request_counter s + 1 in
  let rid := hub_id k in
  let entry :=
    mkPendingRequest rid
      (if opt_truthy source_session then default "hub" source_session else "hub")
      p rid now timeout in
  mkHub (<[r := count_request node]> (heap s)) (nodes s)
    (<[rid := entry]> (pending_requests s)) k (tool_providers s)
    (mkStats (total_connections st) (total_messages st)
       (total_tool_calls st + 1) (started_at st))
    (closed s) (<[rid := Waiting timeout]> (calls s)).

(** The send failed: [self.pending_requests.pop(request_id, None)] and the
    call is over. *)
Definition abandon_request (s : HubState) (rid : string) : HubState :=
  set_pending (delete rid (pending_requests s))
    (<[rid := Resolved BySendFailure]> (calls s)) s.

(** [route_tool_call], up to the point where it waits for the response:
    it returns at once when there is no provider or the send fails, and
    otherwise waits on the future of the request it installed.  The write
    of the frame is one step with the bookkeeping before it. *)
Definition route_tool_call (s : HubState) (tool_name : string) (arguments : json)
    (source_session target_session : option string) (timeout : Z) (now : Z)
    (io : nat → bool) : HubState * control route_result :=
  match choose_provider s tool_name target_session with
  | None => (s, Return (ErrNoProvider tool_name))
  | Some p =>
      if negb (str_truthy p) then (s, Return (ErrNoProvider tool_name)) else
      match nodes s !! p with
      | None => (s, Raise "KeyError")
      | Some r =>
          match heap s !! r with
          | None => (s, Raise "KeyError")
          | Some node =>
              let s1 := install_request s p r node source_session timeout now in
              let rid := hub_id (_request_counter s1) in
              let '(s2, success) := send_to_node s1 p io in
              if success then (s2, Await rid)
              else (abandon_request s2 rid, Return (ErrFailedToSend p))
          end
      end
  end.

(** The deadline of a suspended [route_tool_call] passes: [wait_for]
    cancels the future, the entry is popped and the timeout error
    returned.  The timer of a call that is over never fires. *)
Definition route_timeout (s : HubState) (rid : string)
    : HubState * option route_result :=
  match calls s !! rid with
  | Some (Waiting deadline) =>
      (set_pending (delete rid (pending_requests s))
         (<[rid := Resolved ByTimeout]> (calls s)) s,
       Some (ErrTimeout deadline))
  | _ => (s, None)
  end.


(** The [id] of a frame, [data.get("id")]: any JSON value, [IdNull] also
    when the key is absent.  The handler does not look inside a number:
    every number can be hashed and none is a key of the table, whose keys
    are strings. *)
Inductive rpc_id : Type :=
| IdNull
| IdBool (b : bool)
| IdNum (n : Z)
| IdStr (k : string)
| IdList (l : list json)
| IdDict (d : list (string * json)).

(** The ids Python cannot hash: lists and dicts. *)
Definition unhashable (rid : rpc_id) : bool :=
  match rid with
  | IdList _ | IdDict _ => true
  | _ => false
  end.

(** [future.set_result] / [future.set_exception]: a future that is already
    done refuses. *)
Definition resolve_future (s : HubState) (fut : string) (r : resolution)
    : HubState * control unit :=
  match calls s !! fut with
  | Some (Waiting _) =>
      (set_pending (pending_requests s) (<[fut := Resolved r]> (calls s)) s,
       Return ())
  | _ => (s, Raise "InvalidStateError")
  end.

(** [handle_response(request_id, result, error)].  The keys of the table
    are strings, so only a string id can be found; [dict.pop] hashes the
    id it is given unless the table is empty, and raises [TypeError] for
    an id that cannot be hashed. *)
Definition handle_response (s : HubState) (rid : rpc_id) (result error : json)
    : HubState * control unit :=
  if unhashable rid && negb (bool_decide (size (pending_requests s) = 0%nat))
  then (s, Raise "TypeError") else
  let found :=
    match rid with
    | IdStr k => (λ e, (k, e)) <$> pending_requests s !! k
    | _ => None
    end in
  match found with
  | None => (s, Return ())
  | Some (k, pending) =>
      let s1 := set_pending (delete k (pending_requests s)) (calls s) s in
      if truthy error then
        match error with
        | JDict d =>
            resolve_future s1 (future pending)
              (ByError (match dict_get "message" d with
                        | Some m => ArgValue m
                        | None => ArgStrOf error
                        end))
        | _ => (s1, Raise "AttributeError")
        end
      else resolve_future s1 (future pending) (ByResult result)
  end.

(** *** The message handler *)

(** The [params] object of a request, by the keys the hub reads. *)
Record Params : Type := mkParams {
  p_name : option string;
  p_arguments : option json;
  p_target_node : option string;
  p_message : option json;
  p_advertised : option (list string)
}.

(** A decoded frame.  [m_result] and [m_error] are [Some] when the key is
    present in the object. *)
Record Message : Type := mkMessage {
  m_method : option string;
  m_id : rpc_id;
  m_params : Params;
  m_result : option json;
  m_error : option json
}.

(** [await ws.send_json(...)] on the connection's own transport: raises
    when the transport is closed or the write fails. *)
Definition reply (s : HubState) (ws : nat) (io : nat → bool) : HubState * control unit :=
  if negb (bool_decide (ws ∈ closed s)) && io ws then (s, Return ())
  else (s, Raise "ConnectionResetError").

(** [_handle_message(ws, data, node)], up to its first suspension.  [node]
    is the handler's own reference to the MeshNode it registered, if any. *)
Definition _handle_message (s : HubState) (ws : nat) (data : Message)
    (node : option nat) (now : Z) (io : nat → bool) : HubState * control unit :=
  let method := default "" (m_method data) in
  let params := m_params data in
  if bool_decide (is_Some (m_result data) ∨ is_Some (m_error data)) then
    handle_response s (m_id data) (default JNull (m_result data))
      (default JNull (m_error data))
  else if String.eqb method "node/register" then (s, Return ())
  else if String.eqb method "ping" then
    reply
      (match node with
       | Some r => set_heap (alter (with_last_ping now) r (heap s)) s
       | None => s
       end) ws io
  else if String.eqb method "mesh/nodes" then reply s ws io
  else if String.eqb method "mesh/tools" then reply s ws io
  else if String.eqb method "tools/call" then
    let '(s', c) :=
      route_tool_call s (default "" (p_name params))
        (default (JDict []) (p_arguments params))
        (match node with
         | Some r => session_id <$> heap s !! r
         | None => None
         end)
        (p_target_node params) 120 now io in
    match c with
    | Return _ => reply s' ws io
    | Raise e => (s', Raise e)
    | Await rid => (s', Await rid)
    end
  else if String.eqb method "mesh/broadcast" then
    reply
      (broadcast s
         (match node with
          | Some r => match heap s !! r with
                      | Some n => {[session_id n]}
                      | None => ∅
                      end
          | None => ∅
          end) io) ws io
  else if String.eqb method "mesh/stats" then reply s ws io
  else if String.eqb method "tools/list" then
    match node with
    | Some r =>
        match heap s !! r with
        | Some n =>
            let advertised := default [] (p_advertised params) in
            (mkHub (<[r := with_tools advertised n]> (heap s)) (nodes s)
               (pending_requests s) (_request_counter s)
               (fold_left (add_provider (session_id n)) advertised
                  (tool_providers s))
               (stats s) (closed s) (calls s),
             Return ())
        | None => (s, Return ())
        end
    | None => (s, Return ())
    end
  else (s, Return ()).

(** *** Runs of the hub *)

(** What can happen to the hub: a call of one of its methods, the
    deadline of a routed call, or a transport closing. *)
Inductive event : Type :=
| EvRegister (ws : nat) (params : RegisterParams) (fresh_sid : string) (now : Z)
| EvUnregister (sid : string)
| EvMessage (ws : nat) (data : Message) (node : option nat) (now : Z)
    (io : nat → bool)
| EvRoute (tool_name : string) (arguments : json)
    (source_session target_session : option string) (timeout now : Z)
    (io : nat → bool)
| EvResponse (rid : rpc_id) (result error : json)
| EvTimeout (rid : string)
| EvSend (sid : string) (io : nat → bool)
| EvBroadcast (exclude : gset string) (io : nat → bool)
| EvMulticast (targets : list string) (io : nat → bool)
| EvClosed (ws : nat).

Definition step (e : event) (s : HubState) : HubState :=
  match e with
  | EvRegister ws params fresh_sid now => fst (register_node s ws params fresh_sid now)
  | EvUnregister sid => unregister_node s sid
  | EvMessage ws data node now io => fst (_handle_message s ws data node now io)
  | EvRoute tool_name arguments src tgt timeout now io =>
      fst (route_tool_call s tool_name arguments src tgt timeout now io)
  | EvResponse rid result error => fst (handle_response s rid result error)
  | EvTimeout rid => fst (route_timeout s rid)
  | EvSend sid io => fst (send_to_node s sid io)
  | EvBroadcast exclude io => broadcast s exclude io
  | EvMulticast targets io => multicast s targets io
  | EvClosed ws =>
      mkHub (heap s) (nodes s) (pending_requests s) (_request_counter s)
        (tool_providers s) (stats s) (closed s ∪ {[ws]}) (calls s)
  end.

Definition run (es : list event) (s : HubState) : HubState :=
  fold_left (λ s' e, step e s') es s.

Inductive reachable : HubState → Prop :=
| reachable_init started : reachable (init started)
| reachable_step s e : reachable s → reachable (step e s).

(** Well-formed hub states: registered names refer to live objects, every
    table entry belongs to a suspended call and awaits that call's future,
    and every request id was issued by the counter. *)
Record wf (s : HubState) : Prop := mk_wf {
  wf_nodes : ∀ p r, nodes s !! p = Some r → is_Some (heap s !! r);
  wf_pending : ∀ rid e, pending_requests s !! rid = Some e →
                 future e = rid ∧ calls s !! rid = Some (Waiting (timeout e));
  wf_ids : ∀ rid, is_Some (calls s !! rid) →
             ∃ k, 0 < k ≤ _request_counter s ∧ rid = hub_id k;
  wf_counter : 0 ≤ _request_counter s
}.

(** *** Vocabulary of the properties *)

(** [s'] differs from [s] in the statistics at most. *)
Definition stats_only (s s' : HubState) : Prop :=
  ∃ st, s' = set_stats st s.

(** The three ways [route_tool_call] can go in a well-formed state: no
    provider, a send that fails after the request was installed, or a
    suspension on the installed request. *)
Inductive routed (s : HubState) (tool_name : string) (src tgt : option string)
    (timeout now : Z) (io : nat → bool) : HubState * control route_result → Prop :=
| routed_no_provider :
    (choose_provider s tool_name tgt = None ∨
     choose_provider s tool_name tgt = Some "") →
    routed s tool_name src tgt timeout now io (s, Return (ErrNoProvider tool_name))
| routed_send_failed p r node :
    choose_provider s tool_name tgt = Some p → p ≠ "" →
    nodes s !! p = Some r → heap s !! r = Some node →
    (websocket node ∈ closed s ∨ io (websocket node) = false) →
    routed s tool_name src tgt timeout now io
      (abandon_request (install_request s p r node src timeout now)
         (hub_id (_request_counter s + 1)),
       Return (ErrFailedToSend p))
| routed_await p r node :
    choose_provider s tool_name tgt = Some p → p ≠ "" →
    nodes s !! p = Some r → heap s !! r = Some node →
    websocket node ∉ closed s → io (websocket node) = true →
    routed s tool_name src tgt timeout now io
      (count_message (install_request s p r node src timeout now),
       Await (hub_id (_request_counter s + 1))).

(** *** Inputs used in the examples *)

(** A [node/register] message that names its session and its tools. *)
Definition advertise (sid : string) (ts : list string) : RegisterParams :=
  mkRegisterParams (Some sid) None None None None None (Some ts) None.

Definition no_params : Params := mkParams None None None None None.

(** A request frame (no [result], no [error]). *)
Definition request (method : string) (params : Params) : Message :=
  mkMessage (Some method) IdNull params None None.

(** A [tools/list] frame advertising [ts]. *)
Definition tools_list (ts : list string) : Message :=
  request "tools/list" (mkParams None None None None (Some ts)).

(** Every write goes through / no write goes through. *)
Definition link_up : nat → bool := λ _, true.
Definition link_down : nat → bool := λ _, false.

(** A hub started at [t0] on which one peer, [P1], registered over
    transport 1 with the tools [echo] and [render]. *)
Definition hub_one : HubState :=
  step (EvRegister 1 (advertise "P1" ["echo"; "render"]) "sess_0" 0) (init "t0").

(** [hub_one] after a call of [echo] was routed to P1 and is waiting for
    its response. *)
Definition hub_calling : HubState :=
  step (EvRoute "echo" (JDict []) None None 120 7 link_up) hub_one.

(** The hub of the routing scenario: P1, P2 and P3 advertise [echo] and
    have the request counts 2, 2 and 5. *)
Definition hub_three : HubState :=
  let target p := EvRoute "echo" (JDict []) None (Some p) 120 0 link_down in
  run [EvRegister 1 (advertise "P1" ["echo"]) "sess_0" 0;
       EvRegister 2 (advertise "P2" ["echo"]) "sess_1" 0;
       EvRegister 3 (advertise "P3" ["echo"]) "sess_2" 0;
       target "P1"; target "P1"; target "P2"; target "P2";
       target "P3"; target "P3"; target "P3"; target "P3"; target "P3"]
    (init "t0").

(** *** The end of a connection *)

(** The [finally] clause of [handle_websocket]:
    [if node: await self.unregister_node(node.session_id)].  [node] is the
    handler's own reference to the record it registered, if it did. *)
Definition handle_websocket_finally (s : HubState) (node : option nat) : HubState :=
  match node with
  | Some r =>
      match heap s !! r with
      | Some n => unregister_node s (session_id n)
      | None => s
      end
  | None => s
  end.

(** Every list of the tool index names a session at most once. *)
Definition distinct_providers (tp : gmap string (list string)) : Prop :=
  ∀ T l, tp !! T = Some l → NoDup l.

End Hub.

(** ** The federation vault (app/services/federation_vault.py) and its
       tools (app/mcp/federation_tools.py) *)

Module Vault.
Import Json.

(** *** Python dictionaries in insertion order

    [_save] writes [self.nodes.values()] in the order of the dictionary, so
    the node table is kept as the list of its items. *)
Section pydict.
Context {V : Type}.

(** [d.get(k)] *)
Fixpoint dict_lookup (k : string) (d : list (string * V)) : option V :=
  match d with
  | [] => None
  | (k', v) :: d' => if String.eqb k k' then Some v else dict_lookup k d'
  end.

(** [d[k] = v]: an existing key keeps its place, a new key goes last. *)
Fixpoint dict_store (k : string) (v : V) (d : list (string * V))
    : list (string * V) :=
  match d with
  | [] => [(k, v)]
  | (k', v') :: d' =>
      if String.eqb k k' then (k, v) :: d' else (k', v') :: dict_store k v d'
  end.

(** [d.values()] *)
Definition dict_values (d : list (string * V)) : list V := map snd d.
End pydict.

(** *** [secrets.token_urlsafe]

    [token_urlsafe(n)] is the URL-safe base64 text, without padding, of
    [n] bytes from the operating system's random source.  The source is an
    input: [entropy i] is the i-th byte it hands out. *)

Definition b64_alphabet : string :=
  "ABCDEFGHIJKLMNOPQRSTUVWXYZabcdefghijklmnopqrstuvwxyz0123456789-_".

Definition b64_char (i : N) : ascii :=
  default "A"%char (String.get (N.to_nat i) b64_alphabet).

Fixpoint b64url (bs : list Byte.byte) : string :=
  match bs with
  | [] => EmptyString
  | [b1] =>
      let n := (Byte.to_N b1 * 65536)%N in
      String (b64_char (n / 262144))
        (String (b64_char ((n / 4096) mod 64)) EmptyString)
  | [b1; b2] =>
      let n := (Byte.to_N b1 * 65536 + Byte.to_N b2 * 256)%N in
      String (b64_char (n / 262144))
        (String (b64_char ((n / 4096) mod 64))
           (String (b64_char ((n / 64) mod 64)) EmptyString))
  | b1 :: b2 :: b3 :: rest =>
      let n := (Byte.to_N b1 * 65536 + Byte.to_N b2 * 256 + Byte.to_N b3)%N in
      String (b64_char (n / 262144))
        (String (b64_char ((n / 4096) mod 64))
           (String (b64_char ((n / 64) mod 64))
              (String (b64_char (n mod 64)) (b64url rest))))
  end.

(** Reading a token back: the place of a character in the alphabet, and
    the bytes that groups of such places stand for.  The vault never
    decodes a token; this is the inverse by which a token is seen to
    determine the bytes it was made from. *)
Fixpoint b64_index_from (i : N) (alphabet : string) (c : ascii) : option N :=
  match alphabet with
  | EmptyString => None
  | String a rest =>
      if Ascii.eqb a c then Some i else b64_index_from (N.succ i) rest c
  end.

Definition b64_index (c : ascii) : option N := b64_index_from 0 b64_alphabet c.

Fixpoint b64_indices (text : string) : option (list N) :=
  match text with
  | EmptyString => Some []
  | String c rest =>
      match b64_index c, b64_indices rest with
      | Some i, Some l => Some (i :: l)
      | _, _ => None
      end
  end.

Definition byte_of (n : N) : Byte.byte := default Byte.x00 (Byte.of_N n).

Fixpoint sextets_bytes (l : list N) : list Byte.byte :=
  match l with
  | s1 :: s2 :: s3 :: s4 :: rest =>
      let n := (s1 * 262144 + s2 * 4096 + s3 * 64 + s4)%N in
      byte_of (n / 65536) :: byte_of ((n / 256) mod 256) :: byte_of (n mod 256)
        :: sextets_bytes rest
  | [s1; s2; s3] =>
      let n := (s1 * 262144 + s2 * 4096 + s3 * 64)%N in
      [byte_of (n / 65536); byte_of ((n / 256) mod 256)]
  | [s1; s2] =>
      let n := (s1 * 262144 + s2 * 4096)%N in
      [byte_of (n / 65536)]
  | _ => []
  end.

Definition b64url_decode (text : string) : option (list Byte.byte) :=
  sextets_bytes <$> b64_indices text.

Definition token_bytes (entropy : nat → Byte.byte) (nbytes : nat) : list Byte.byte :=
  map entropy (seq 0 nbytes).

Definition token_urlsafe (entropy : nat → Byte.byte) (nbytes : nat) : string :=
  b64url (token_bytes entropy nbytes).

(** *** The vault *)

(** Dataclass [FederationNode].  Times are the ISO texts of
    [datetime.utcnow().isoformat()]. *)
Record FederationNode : Type := mkFederationNode {
  node_id : string;
  token_hash : string;
  role : string;
  allowed_ips : list string;
  created_at : string;
  last_seen : option string;
  active : bool
}.

Definition with_last_seen (t : string) (n : FederationNode) : FederationNode :=
  mkFederationNode (node_id n) (token_hash n) (role n) (allowed_ips n)
    (created_at n) (Some t) (active n).

Definition with_active (b : bool) (n : FederationNode) : FederationNode :=
  mkFederationNode (node_id n) (token_hash n) (role n) (allowed_ips n)
    (created_at n) (last_seen n) b.

Definition with_token_hash (h : string) (n : FederationNode) : FederationNode :=
  mkFederationNode (node_id n) h (role n) (allowed_ips n)
    (created_at n) (last_seen n) (active n).

(** The JSON document in [federation_tokens.json]. *)
Record VaultFile : Type := mkVaultFile {
  file_nodes : list FederationNode;
  updated_at : string
}.

(** [FederationVault]: the node table, the shared secret and the content
    of the tokens file. *)
Record FederationVault : Type := mkVault {
  nodes : list (string * FederationNode);
  _shared_secret : option string;
  tokens_file : option VaultFile
}.

Definition set_nodes (ns : list (string * FederationNode)) (v : FederationVault)
    : FederationVault :=
  mkVault ns (_shared_secret v) (tokens_file v).

(** [_save()].  [saved_at] is the clock reading of the save, [written]
    tells whether the write went through; a write that fails is logged
    and swallowed, and the file keeps its content. *)
Definition _save (v : FederationVault) (saved_at : string) (written : bool)
    : FederationVault :=
  if written then
    mkVault (nodes v) (_shared_secret v)
      (Some (mkVaultFile (dict_values (nodes v)) saved_at))
  else v.

(** Property [shared_secret]: [None] stands for the [ValueError] raised
    when no secret is configured. *)
Definition shared_secret (v : FederationVault) : option string :=
  if opt_truthy (_shared_secret v) then _shared_secret v else None.

(** [_load()], as [__init__] calls it on the empty table.  [file] is the
    document in the tokens file when the file exists and decodes into node
    records, [env_secret] the value of FEDERATION_SECRET and [key_file] the
    stripped text of the key file when that file exists. *)
Definition _load (file : option VaultFile) (env_secret key_file : option string)
    : FederationVault :=
  mkVault
    (match file with
     | Some f => fold_left (λ d n, dict_store (node_id n) n d) (file_nodes f) []
     | None => []
     end)
    (if opt_truthy env_secret then env_secret
     else match key_file with
          | Some k => Some k
          | None => env_secret
          end)
    file.

(** A node table in which every record sits under its own [node_id], once. *)
Definition keyed (d : list (string * FederationNode)) : Prop :=
  NoDup d.*1 ∧ ∀ k n, (k, n) ∈ d → node_id n = k.

Section vault_operations.
(** [hashlib.sha256(token.encode()).hexdigest()] *)
Variable sha256_hex : string → string.

(** [register_node(node_id, role, allowed_ips)] *)
Definition register_node (v : FederationVault) (id : string) (node_role : string)
    (ips : option (list string)) (entropy : nat → Byte.byte)
    (now saved_at : string) (written : bool) : FederationVault * string :=
  let token := token_urlsafe entropy 32 in
  let node :=
    mkFederationNode id (sha256_hex token) node_role (default [] ips)
      now None true in
  (_save (set_nodes (dict_store id node (nodes v)) v) saved_at written, token).

(** [verify_token(node_id, token, client_ip)].  [hmac.compare_digest]
    is equality of the two hex digests. *)
Definition verify_token (v : FederationVault) (id : string) (token : string)
    (client_ip : option string) (now saved_at : string) (written : bool)
    : FederationVault * bool :=
  match dict_lookup id (nodes v) with
  | None => (v, false)
  | Some node =>
      if negb (active node) then (v, false)
      else if (match allowed_ips node with [] => false | _ => true end)
              && opt_truthy client_ip
              && negb (bool_decide (default "" client_ip ∈ allowed_ips node))
      then (v, false)
      else if negb (String.eqb (sha256_hex token) (token_hash node))
      then (v, false)
      else
        (_save (set_nodes (dict_store id (with_last_seen now node) (nodes v)) v)
           saved_at written,
         true)
  end.

(** [revoke_node(node_id)] *)
Definition revoke_node (v : FederationVault) (id : string) (saved_at : string)
    (written : bool) : FederationVault * bool :=
  match dict_lookup id (nodes v) with
  | Some node =>
      (_save (set_nodes (dict_store id (with_active false node) (nodes v)) v)
         saved_at written,
       true)
  | None => (v, false)
  end.

(** [rotate_token(node_id)] *)
Definition rotate_token (v : FederationVault) (id : string)
    (entropy : nat → Byte.byte) (saved_at : string) (written : bool)
    : FederationVault * option string :=
  match dict_lookup id (nodes v) with
  | None => (v, None)
  | Some node =>
      let token := token_urlsafe entropy 32 in
      (_save (set_nodes
                (dict_store id (with_token_hash (sha256_hex token) node) (nodes v))
                v) saved_at written,
       Some token)
  end.

(** One row of [list_nodes()]: node id, role, active, last seen, allowed
    addresses. *)
Definition list_nodes (v : FederationVault)
    : list (string * string * bool * option string * list string) :=
  map (λ n, (node_id n, role n, active n, last_seen n, allowed_ips n))
    (dict_values (nodes v)).

(** [get_node(node_id)] *)
Definition get_node (v : FederationVault) (id : string) : option FederationNode :=
  dict_lookup id (nodes v).

(** *** The vault tools ([handle_federation_tool]) *)

(** The [args] of a tool call, by the keys the handler reads. *)
Record ToolArgs : Type := mkToolArgs {
  a_node_id : option string;
  a_role : option string;
  a_token : option string
}.

(** The dictionaries the handler answers with. *)
Inductive tool_reply : Type :=
| ReplyError (message : string)
| ReplyNodes (rows : list (string * string * bool * option string * list string))
    (count active_count : nat)
| ReplyRegistered (id node_role token : string)
| ReplyRevoked (id : option string)
| ReplyRotated (id : option string) (new_token : string)
| ReplyVerified (valid : bool) (id : option string).

(** [f"{node_id}"] of an optional string. *)
Definition show_id (id : option string) : string := default "None" id.

Definition handle_federation_tool (v : FederationVault) (name : string)
    (args : ToolArgs) (entropy : nat → Byte.byte) (now saved_at : string)
    (written : bool)
    : FederationVault * tool_reply :=
  if String.eqb name "federation_nodes" then
    let rows := list_nodes v in
    (v, ReplyNodes rows (length rows)
          (length (List.filter (λ row, snd (fst (fst row))) rows)))
  else if String.eqb name "federation_register" then
    match a_node_id args with
    | None => (v, ReplyError "node_id required")
    | Some id =>
        if negb (str_truthy id) then (v, ReplyError "node_id required")
        else
          match get_node v id with
          | Some _ => (v, ReplyError ("Node " +:+ id +:+ " already registered"))
          | None =>
              let node_role := default "node" (a_role args) in
              let '(v', token) :=
                register_node v id node_role None entropy now saved_at written in
              (v', ReplyRegistered id node_role token)
          end
    end
  else if String.eqb name "federation_revoke" then
    match a_node_id args with
    | Some id =>
        let '(v', ok) := revoke_node v id saved_at written in
        if ok then (v', ReplyRevoked (Some id))
        else (v', ReplyError ("Node " +:+ id +:+ " not found"))
    | None => (v, ReplyError "Node None not found")
    end
  else if String.eqb name "federation_rotate" then
    match a_node_id args with
    | Some id =>
        match rotate_token v id entropy saved_at written with
        | (v', Some token) =>
            if str_truthy token then (v', ReplyRotated (Some id) token)
            else (v', ReplyError ("Node " +:+ id +:+ " not found"))
        | (v', None) => (v', ReplyError ("Node " +:+ id +:+ " not found"))
        end
    | None => (v, ReplyError "Node None not found")
    end
  else if String.eqb name "federation_verify" then
    match a_node_id args, a_token args with
    | Some id, Some token =>
        let '(v', valid) := verify_token v id token None now saved_at written in
        (v', ReplyVerified valid (Some id))
    | Some id, None =>
        match dict_lookup id (nodes v) with
        | Some node =>
            if active node
            then (v, ReplyError "'NoneType' object has no attribute 'encode'")
            else (v, ReplyVerified false (Some id))
        | None => (v, ReplyVerified false (Some id))
        end
    | None, _ => (v, ReplyVerified false None)
    end
  else (v, ReplyError ("Unknown tool: " +:+ name)).
End vault_operations.

(** *** Inputs used in the examples *)

(** A stand-in for the SHA-256 digest; the theorems hold for every
    function in its place. *)
Definition sample_digest (text : string) : string := "sha256(" +:+ text +:+ ")".

(** A random source that counts. *)
Definition sample_entropy (i : nat) : Byte.byte :=
  default Byte.x00 (Byte.of_N (N.of_nat i mod 256)).

Definition empty_vault : FederationVault := mkVault [] (Some "psk") None.

(** A vault in which [nodeA] is registered for the token [T] and may only
    connect from 10.0.0.5. *)
Definition vault_pinned : FederationVault :=
  mkVault
    [("nodeA",
      mkFederationNode "nodeA" (sample_digest "T") "node" ["10.0.0.5"]
        "2026-01-01T00:00:00" None true)]
    (Some "psk") None.

(** A vault in which [nodeA] was registered for the token [T] and then
    revoked. *)
Definition vault_revoked : FederationVault :=
  mkVault
    [("nodeA",
      mkFederationNode "nodeA" (sample_digest "T") "node" []
        "2026-01-01T00:00:00" None false)]
    (Some "psk") None.

End Vault.

(** ** Signed requests (app/services/server_federation.py) *)

Module Envelope.
Import Json.

(** The signed envelope [{data, timestamp, signature}]; an absent key is
    [None].  The timestamp is the decimal text [create_signed_request]
    writes. *)
Record SignedRequest : Type := mkSignedRequest {
  data : option json;
  timestamp : option string;
  signature : option string
}.

Section signing.
(** [int(text)]: [None] stands for the [ValueError]. *)
Variable py_int : string → option Z.
(** [json.dumps(data, sort_keys=True)] *)
Variable json_dumps : json → string.
(** [hmac.new(key.encode(), message.encode(), hashlib.sha256).hexdigest()] *)
Variable hmac_sha256_hex : string → string → string.
(** The module constant [FEDERATION_PSK]. *)
Variable FEDERATION_PSK : string.

(** [secret or FEDERATION_PSK] *)
Definition effective_secret (secret : option string) : string :=
  if opt_truthy secret then default FEDERATION_PSK secret else FEDERATION_PSK.

(** The text that is signed: [f"{timestamp}:{json.dumps(data, sort_keys=True)}"]. *)
Definition signed_message (ts : string) (d : json) : string :=
  ts +:+ ":" +:+ json_dumps d.

(** [create_signed_request(data, secret)] at clock reading [now]
    ([int(time.time())]). *)
Definition create_signed_request (d : json) (secret : option string) (now : Z)
    : SignedRequest :=
  let ts := pretty now in
  mkSignedRequest (Some d) (Some ts)
    (Some (hmac_sha256_hex (effective_secret secret) (signed_message ts d))).

(** [verify_signed_request(request, secret, max_age)] at clock reading
    [now]: the unwrapped [data], or [None]. *)
Definition verify_signed_request (request : SignedRequest) (secret : option string)
    (max_age : Z) (now : Z) : option json :=
  let d := default (JDict []) (data request) in
  let ts := default "0" (timestamp request) in
  let sig := default "" (signature request) in
  match py_int ts with
  | None => None
  | Some t =>
      if Z.abs (now - t) >? max_age then None
      else if String.eqb sig
                (hmac_sha256_hex (effective_secret secret) (signed_message ts d))
      then Some d
      else None
  end.
End signing.

(** The default of [max_age]. *)
Definition default_max_age : Z := 300.

(** *** Inputs used in the examples *)

(** Decimal text to integer: an optional minus sign and digits. *)
Fixpoint digits_value (acc : Z) (text : string) : option Z :=
  match text with
  | EmptyString => Some acc
  | String c rest =>
      let n := Z.of_nat (nat_of_ascii c) in
      if (48 <=? n) && (n <=? 57) then digits_value (10 * acc + (n - 48)) rest
      else None
  end.

Definition sample_int (text : string) : option Z :=
  match text with
  | EmptyString => None
  | String "-"%char EmptyString => None
  | String "-"%char rest => Z.opp <$> digits_value 0 rest
  | _ => digits_value 0 text
  end.

(** Stand-ins for the serialiser and the keyed digest; the theorems hold
    for every function in their place. *)
Definition sample_dumps (d : json) : string :=
  match d with
  | JDict [] => "{}"
  | JStr text => text
  | _ => "<json>"
  end.

Definition sample_hmac (key message : string) : string :=
  "hmac(" +:+ key +:+ "," +:+ message +:+ ")".

(** An envelope signed at time 1000000 with the secret [psk]. *)
Definition sample_request : SignedRequest :=
  create_signed_request sample_dumps sample_hmac "psk" (JStr "hello") None 1000000.

End Envelope.

(** ** Gossip on a mesh node (app/mcp/mesh_node.py) *)

Module Gossip.
Import Json.

(** Dataclass [PeerInfo]: what is known of a peer that was only heard of. *)
Record PeerInfo : Type := mkPeerInfo {
  peer_id : string;
  address : string;
  tools : list string;
  last_seen : string
}.

(** One element of the [peers] list of a [peer/gossip] message; an absent
    key is [None]. *)
Record GossipRecord : Type := mkGossipRecord {
  g_peer_id : option string;
  g_address : option string;
  g_tools : option (list string);
  g_last_seen : option string
}.

(** The fields of [MeshNode] that gossip reads and writes.  Of [self.peers]
    gossip only asks whether an id is a key, so [peers] is the set of its
    keys. *)
Record NodeState : Type := mkNode {
  node_id : string;
  peers : gset string;
  _known_peers : gmap string PeerInfo
}.

(** The body of the loop of [_handle_gossip] for the record [p]; [now] is
    the clock reading [datetime.now().isoformat()] taken for it. *)
Definition learn (st : NodeState) (p : GossipRecord) (now : string)
    : NodeState * bool :=
  match g_peer_id p with
  | Some pid =>
      if str_truthy pid
         && negb (String.eqb pid (node_id st))
         && negb (bool_decide (pid ∈ peers st))
      then
        (mkNode (node_id st) (peers st)
           (<[pid := mkPeerInfo pid (default "" (g_address p))
                       (default [] (g_tools p)) (default now (g_last_seen p))]>
              (_known_peers st)),
         true)
      else (st, false)
  | None => (st, false)
  end.

(** [_handle_gossip(params, peer)]: the records of the message, each with
    the clock reading taken for it; answers [added] and [total_known]. *)
Fixpoint _handle_gossip_from (st : NodeState) (added : nat)
    (new_peers : list (GossipRecord * string)) : NodeState * (nat * nat) :=
  match new_peers with
  | [] => (st, (added, size (_known_peers st)))
  | (p, now) :: rest =>
      let '(st', learnt) := learn st p now in
      _handle_gossip_from st' (if learnt then S added else added) rest
  end.

Definition _handle_gossip (st : NodeState) (new_peers : list (GossipRecord * string))
    : NodeState * (nat * nat) :=
  _handle_gossip_from st 0%nat new_peers.

(** The later of two ISO times (they compare as texts). *)
Definition later (a b : string) : string :=
  if String.leb a b then b else a.

(** *** Inputs used in the examples *)




End Gossip.

(** ** The node registry of the HTTP federation API (app/api/federation.py) *)

Module Registry.
Import Json.

(** The dictionary kept per node. *)
Record NodeInfo : Type := mkNodeInfo {
  role : string;
  host : string;
  port : Z;
  models : list string;
  max_concurrent : Z;
  registered_at : Z;
  status : string;
  current_load : Z;
  last_heartbeat : option Z;
  metrics : json
}.

(** [NodeRegistry].  Times are clock readings in microseconds. *)
Record NodeRegistry : Type := mkRegistry {
  nodes : gmap string NodeInfo;
  health : gmap string Z;
  tokens : gmap string string
}.

(** Model [NodeHeartbeat]. *)
Record NodeHeartbeat : Type := mkHeartbeat {
  hb_node_id : string;
  hb_status : string;
  hb_current_load : Z;
  hb_metrics : json
}.

(** [heartbeat(hb)] *)
Definition heartbeat (reg : NodeRegistry) (hb : NodeHeartbeat) (now : Z)
    : NodeRegistry * bool :=
  match nodes reg !! hb_node_id hb with
  | None => (reg, false)
  | Some info =>
      (mkRegistry
         (<[hb_node_id hb :=
              mkNodeInfo (role info) (host info) (port info) (models info)
                (max_concurrent info) (registered_at info) (hb_status hb)
                (hb_current_load hb) (Some now) (hb_metrics hb)]> (nodes reg))
         (<[hb_node_id hb := now]> (health reg)) (tokens reg),
       true)
  end.

(** [get_status(node_id)]: the age of the last heartbeat decides.  A node
    without a health entry has the age of [datetime.min], which is beyond
    every threshold. *)
Definition get_status (reg : NodeRegistry) (id : string) (now : Z) : string :=
  match nodes reg !! id with
  | None => "unknown"
  | Some info =>
      match health reg !! id with
      | None => "offline"
      | Some last_seen =>
          let age := now - last_seen in
          if age >? 90 * 1000000 then "offline"
          else if age >? 60 * 1000000 then "degraded"
          else status info
      end
  end.

(** The filter of [get_candidates_for_model]: the nodes that may serve
    [model] (the scores and their order are floating point and left out). *)
Definition is_candidate (reg : NodeRegistry) (model : string) (now : Z)
    (id : string) : bool :=
  match nodes reg !! id with
  | None => false
  | Some info =>
      let st := get_status reg id now in
      (String.eqb st "healthy" || String.eqb st "degraded")
      && (bool_decide (model ∈ models info) || String.eqb (role info) "api_proxy")
  end.

(** Model [NodeRegistration]. *)
Record NodeRegistration : Type := mkRegistration {
  r_node_id : string;
  r_role : string;
  r_host : string;
  r_port : Z;
  r_models : list string;
  r_max_concurrent : Z
}.

(** [register(node)].  [registered] and [now] are the two clock readings
    it takes, [sha256_hex] the digest the token is stored under. *)
Definition register (sha256_hex : string → string) (reg : NodeRegistry)
    (node : NodeRegistration) (entropy : nat → Byte.byte) (registered now : Z)
    : NodeRegistry * string :=
  let token := Vault.token_urlsafe entropy 32 in
  (mkRegistry
     (<[r_node_id node :=
          mkNodeInfo (r_role node) (r_host node) (r_port node) (r_models node)
            (r_max_concurrent node) registered "healthy" 0 None (JDict [])]>
        (nodes reg))
     (<[r_node_id node := now]> (health reg))
     (<[r_node_id node := sha256_hex token]> (tokens reg)),
   token).

(** [unregister(node_id)] *)
Definition unregister (reg : NodeRegistry) (id : string) : NodeRegistry * bool :=
  match nodes reg !! id with
  | Some _ =>
      (mkRegistry (delete id (nodes reg)) (delete id (health reg))
         (delete id (tokens reg)),
       true)
  | None => (reg, false)
  end.

(** *** Inputs used in the examples *)

(** A worker that serves [llama3], and the registry in which it
    registered at time 0 (the digest is a stand-in). *)
Definition worker : NodeRegistration :=
  mkRegistration "w1" "ollama_worker" "10.0.0.7" 9000 ["llama3"] 10.

Definition registry_one : NodeRegistry :=
  fst (register Vault.sample_digest (mkRegistry ∅ ∅ ∅) worker Vault.sample_entropy 0 0).

End Registry.

(** ** Health of the federation servers (app/services/server_federation.py,
       app/routes/federation.py) *)

Module Federation.
Import Json.

(** The string enumerations [NodeRole] and [NodeStatus]. *)
Inductive NodeRole : Type := HUB | NODE | CONTRIBUTOR.

Inductive NodeStatus : Type := HEALTHY | DEGRADED | OFFLINE | UNKNOWN.

Definition status_eqb (a b : NodeStatus) : bool :=
  match a, b with
  | HEALTHY, HEALTHY | DEGRADED, DEGRADED | OFFLINE, OFFLINE | UNKNOWN, UNKNOWN => true
  | _, _ => false
  end.

(** Dataclass [FederationNode] of the server federation.  Times are clock
    readings; the float [avg_latency_ms], which none of the functions
    below reads or writes, is left out. *)
Record FederationNode : Type := mkFederationNode {
  node_id : string;
  role : NodeRole;
  base_url : string;
  secret_key : string;
  status : NodeStatus;
  last_heartbeat : option Z;
  consecutive_failures : Z;
  models : list string;
  max_concurrent : Z;
  current_load : Z;
  total_requests : Z;
  total_errors : Z
}.

(** [is_available()] *)
Definition is_available (n : FederationNode) : bool :=
  status_eqb (status n) HEALTHY && (current_load n <? max_concurrent n).

Definition FAILURE_THRESHOLD : Z := 3.

(** [_handle_node_failure(node, error)].  The flag tells whether
    [_trigger_failover] was called; the failover itself only writes to
    the log. *)
Definition _handle_node_failure (n : FederationNode) : FederationNode * bool :=
  let failures := consecutive_failures n + 1 in
  let errors := total_errors n + 1 in
  if FAILURE_THRESHOLD <=? failures then
    (mkFederationNode (node_id n) (role n) (base_url n) (secret_key n) OFFLINE
       (last_heartbeat n) failures (models n) (max_concurrent n) (current_load n)
       (total_requests n) errors,
     negb (status_eqb (status n) OFFLINE))
  else
    (mkFederationNode (node_id n) (role n) (base_url n) (secret_key n) DEGRADED
       (last_heartbeat n) failures (models n) (max_concurrent n) (current_load n)
       (total_requests n) errors,
     false).

(** What the body of a 200 answer gives: reading it raises (it is no JSON,
    or no container in which ["models"] can be looked up), it has no
    ["models"], or it lists the models. *)
Inductive body : Type :=
| Undecodable
| NoModels
| Models (ms : list string).

(** What the GET of [<base_url>/health] gives: it raises (no connection,
    timeout), or it is answered with a status code and a body. *)
Inductive response : Type :=
| NoResponse
| Answer (status_code : Z) (b : body).

(** [_check_node(node)] for the answer [resp] at clock reading [now].  A
    200 answer marks the node healthy before its body is read, and a body
    that cannot be read is handled as a failure after that. *)
Definition _check_node (n : FederationNode) (resp : response) (now : Z)
    : FederationNode * bool :=
  match resp with
  | NoResponse => _handle_node_failure n
  | Answer status_code b =>
      if status_code =? 200 then
        let n1 :=
          mkFederationNode (node_id n) (role n) (base_url n) (secret_key n) HEALTHY
            (Some now) 0 (models n) (max_concurrent n) (current_load n)
            (total_requests n) (total_errors n) in
        match b with
        | Undecodable => _handle_node_failure n1
        | NoModels => (n1, false)
        | Models ms =>
            (mkFederationNode (node_id n1) (role n1) (base_url n1) (secret_key n1)
               (status n1) (last_heartbeat n1) (consecutive_failures n1) ms
               (max_concurrent n1) (current_load n1) (total_requests n1)
               (total_errors n1),
             false)
        end
      else _handle_node_failure n
  end.

(** The answers [_check_node] hands to [_handle_node_failure] as they
    are: no answer, or a status code other than 200. *)
Definition failed (resp : response) : bool :=
  match resp with
  | NoResponse => true
  | Answer status_code _ => negb (status_code =? 200)
  end.

(** The checks one node gets from the heartbeat loop, one answer and one
    clock reading per round; the flags of the rounds are collected. *)
Fixpoint check_rounds (n : FederationNode) (rounds : list (response * Z))
    : FederationNode * list bool :=
  match rounds with
  | [] => (n, [])
  | (resp, now) :: rest =>
      let '(n1, failover) := _check_node n resp now in
      let '(n2, flags) := check_rounds n1 rest in
      (n2, failover :: flags)
  end.

(** [ServerFederation.nodes], in insertion order. *)
Definition NodeTable : Type := list (string * FederationNode).

(** [register_contributor(client_id, hardware, capabilities)];
    [max_concurrent] is [hardware.get("max_concurrent")] when the key is
    there. *)
Definition register_contributor (nodes : NodeTable) (client_id : string)
    (hw_max_concurrent : option Z) (capabilities : list string) (now : Z)
    : NodeTable * FederationNode :=
  let node :=
    mkFederationNode ("contributor-" +:+ client_id) CONTRIBUTOR "" "" HEALTHY
      (Some now) 0 capabilities (default 2 hw_max_concurrent) 0 0 0 in
  (Vault.dict_store (node_id node) node nodes, node).

(** The route [POST /federation/heartbeat]: a known node is stamped and
    marked healthy (with the string ["healthy"], which compares equal to
    [NodeStatus.HEALTHY]); its failure count is not touched. *)
Definition receive_heartbeat (nodes : NodeTable) (x_node_id : option string) (now : Z)
    : NodeTable * bool :=
  if opt_truthy x_node_id then
    let id := default "" x_node_id in
    match Vault.dict_lookup id nodes with
    | Some n =>
        (Vault.dict_store id
           (mkFederationNode (node_id n) (role n) (base_url n) (secret_key n)
              HEALTHY (Some now) (consecutive_failures n) (models n)
              (max_concurrent n) (current_load n) (total_requests n)
              (total_errors n)) nodes,
         true)
    | None => (nodes, false)
    end
  else (nodes, false).

(** [model in n.models or not n.models] *)
Definition supports (model : string) (n : FederationNode) : bool :=
  bool_decide (model ∈ models n) || match models n with [] => true | _ => false end.

(** What [get_available_node] does: it raises, returns [None] or returns
    a node. *)
Inductive selection : Type :=
| Raises
| NoNode
| Chosen (n : FederationNode).

Section selection.
(** The floats that serve as keys, the true division of two integers
    ([None] when it raises: a zero divisor, a quotient beyond the floats)
    and the comparison [<] of two keys. *)
Context {K : Type}.
Variable truediv : Z → Z → option K.
Variable key_lt : K → K → bool.

(** The nodes among which [get_available_node] chooses. *)
Definition candidates (nodes : NodeTable) (model : option string)
    : list FederationNode :=
  let available := List.filter is_available (Vault.dict_values nodes) in
  if opt_truthy model then List.filter (supports (default "" model)) available
  else available.

(** [min(available, key=...)] after its first element: the key of every
    element is computed in turn, and an element takes the place of the
    best so far when its key is smaller. *)
Fixpoint min_by_load (best : FederationNode) (best_key : K)
    (rest : list FederationNode) : selection :=
  match rest with
  | [] => Chosen best
  | n :: rest' =>
      match truediv (current_load n) (max_concurrent n) with
      | None => Raises
      | Some k =>
          if key_lt k best_key then min_by_load n k rest'
          else min_by_load best best_key rest'
      end
  end.

(** [get_available_node(model)] *)
Definition get_available_node (nodes : NodeTable) (model : option string)
    : selection :=
  match candidates nodes model with
  | [] => NoNode
  | n0 :: rest =>
      match truediv (current_load n0) (max_concurrent n0) with
      | None => Raises
      | Some k0 => min_by_load n0 k0 rest
      end
  end.
End selection.

(** *** Inputs used in the examples *)

(** A stand-in for the float keys: the exact quotient, as a numerator over
    a positive denominator, compared by cross multiplication. *)
Definition sample_truediv (a b : Z) : option (Z * positive) :=
  if b =? 0 then None
  else if b <? 0 then Some (- a, Z.to_pos (- b))
  else Some (a, Z.to_pos b).

Definition sample_key_lt (x y : Z * positive) : bool :=
  fst x * Z.pos (snd y) <? fst y * Z.pos (snd x).

(** A node of the configuration, as [_load_known_nodes] creates it. *)
Definition known_node (id : string) : FederationNode :=
  mkFederationNode id NODE "http://10.10.0.3:9100" "" UNKNOWN None 0 [] 10 0 0 0.

(** The healthy node [backup], loaded 3 of 10, and after it a contributor
    that has just registered with the model [llama3] and room for 2. *)
Definition two_nodes : NodeTable :=
  fst (register_contributor
         [("backup",
           mkFederationNode "backup" NODE "http://10.10.0.3:9100" "" HEALTHY
             (Some 0) 0 [] 10 3 0 0)]
         "c1" None ["llama3"] 5).

End Federation.

(** ** Peers of a mesh node (app/mcp/mesh_node.py) *)

Module Peers.
Import Json.

(** Dataclass [Peer], by the fields the handlers below read.  [websocket]
    is the connection this node opened to the peer, [server_ws] the one
    the peer opened to this node; either names a transport. *)
Record Peer : Type := mkPeer {
  peer_id : string;
  address : string;
  websocket : option nat;
  server_ws : option nat;
  tools : list string
}.

(** The fields of [MeshNode] that the handlers read ([self_tools] is
    [self.tools]), with the set of the transports that are closed. *)
Record NodeState : Type := mkNode {
  node_id : string;
  self_tools : list string;
  peers : list (string * Peer);
  closed : gset nat
}.

(** Property [ws]: [self.websocket or self.server_ws]. *)
Definition ws (p : Peer) : option nat :=
  match websocket p with
  | Some w => Some w
  | None => server_ws p
  end.

(** Property [is_connected] *)
Definition is_connected (st : NodeState) (p : Peer) : bool :=
  match ws p with
  | Some w => negb (bool_decide (w ∈ closed st))
  | None => false
  end.

(** [send_to_peer(peer_id, message)]: [io w] tells whether a frame
    written to transport [w] goes through; a write that fails is logged
    and answered with [False]. *)
Definition send_to_peer (st : NodeState) (pid : string) (io : nat → bool) : bool :=
  match Vault.dict_lookup pid (peers st) with
  | None => false
  | Some peer =>
      if negb (is_connected st peer) then false
      else match ws peer with
           | Some w => io w
           | None => false
           end
  end.

(** [_handle_peer_list]: the connected peers and their number. *)
Definition _handle_peer_list (st : NodeState)
    : list (string * string * list string) * nat :=
  let rows :=
    map (λ p, (peer_id p, address p, tools p))
      (List.filter (is_connected st) (Vault.dict_values (peers st))) in
  (rows, length rows).

(** The [params] of [mesh/broadcast]; an absent key is [None], [origin]
    is a string and [ttl] an integer when present. *)
Record BroadcastParams : Type := mkBroadcastParams {
  b_message : option json;
  b_origin : option string;
  b_ttl : option Z
}.

(** A [mesh/broadcast] frame written to the peer [f_to]. *)
Record Frame : Type := mkFrame {
  f_to : string;
  f_message : json;
  f_origin : string;
  f_ttl : Z
}.

(** [_handle_broadcast(params, peer)]: the answer [forwarded] and the
    frames that were written. *)
Definition _handle_broadcast (st : NodeState) (params : BroadcastParams)
    (peer : option Peer) (io : nat → bool) : nat * list Frame :=
  let message := default (JDict []) (b_message params) in
  let origin :=
    default (match peer with
             | Some p => peer_id p
             | None => node_id st
             end) (b_origin params) in
  let ttl := default 3 (b_ttl params) in
  if ttl <=? 0 then (0%nat, [])
  else
    let targets :=
      List.filter (λ p, is_connected st p && negb (String.eqb (peer_id p) origin))
        (Vault.dict_values (peers st)) in
    (length targets,
     map (λ p, mkFrame (peer_id p) message origin (ttl - 1))
       (List.filter (λ p, send_to_peer st (peer_id p) io) targets)).

(** [_handle_tool_call(params, peer)], up to the call of the peer it
    chose. *)
Inductive tool_call : Type :=
| LocalNotImplemented
| CallPeer (pid : string)
| NoProviderFor (tool_name : string).

Definition _handle_tool_call (st : NodeState) (name : option string) : tool_call :=
  let tool_name := default "" name in
  if bool_decide (tool_name ∈ self_tools st) then LocalNotImplemented
  else
    match find (λ p, is_connected st p && bool_decide (tool_name ∈ tools p))
            (Vault.dict_values (peers st)) with
    | Some p => CallPeer (peer_id p)
    | None => NoProviderFor tool_name
    end.

(** [all_tools[t].append(pid)], the list being created when [t] is new. *)
Definition add_tool_provider (pid : string) (all_tools : gmap string (list string))
    (t : string) : gmap string (list string) :=
  <[t := default [] (all_tools !! t) ++ [pid]]> all_tools.

(** [_handle_tools_list]: the tools of the mesh with their providers. *)
Definition _handle_tools_list (st : NodeState) : gmap string (list string) :=
  let own := fold_left (λ m t, <[t := [node_id st]]> m) (self_tools st) ∅ in
  fold_left
    (λ m p, if is_connected st p then fold_left (add_tool_provider (peer_id p)) (tools p) m
            else m)
    (Vault.dict_values (peers st)) own.

(** *** Inputs used in the examples *)

(** A node [me] that provides [echo], with the peers [a] (connected, over
    transport 1, providing [echo] and [render]), [b] (its transport 2 is
    closed) and [c] (connected over transport 3, providing [render]). *)
Definition three_peers : NodeState :=
  mkNode "me" ["echo"]
    [("a", mkPeer "a" "10.0.0.1:44434" (Some 1%nat) None ["echo"; "render"]);
     ("b", mkPeer "b" "10.0.0.2:44434" None (Some 2%nat) ["render"]);
     ("c", mkPeer "c" "10.0.0.3:44434" None (Some 3%nat) ["render"])]
    {[2%nat]}.

End Peers.

(** * Properties *)

Lemma str_truthy_spec p : Json.str_truthy p = true ↔ p ≠ "".
Proof.
  unfold Json.str_truthy. rewrite negb_true_iff. split.
  - intros H ->. by rewrite String.eqb_refl in H.
  - intros H. by apply String.eqb_neq.
Qed.

(** ** Generic list facts used by the selection proofs *)

Section first_minimum.
Context {A : Type} (f : A → Z).

Lemma py_min_le_acc x xs : py_min x xs ≤ x.
Proof.
  unfold py_min. revert x. induction xs as [|y ys IH]; intros x; simpl.
  - lia.
  - specialize (IH (Z.min x y)). lia.
Qed.

Lemma py_min_lower x xs y : y ∈ xs → py_min x xs ≤ y.
Proof.
  unfold py_min. revert x. induction xs as [|z zs IH]; intros x Hy; simpl.
  - by apply elem_of_nil in Hy.
  - apply elem_of_cons in Hy as [->|Hy].
    + pose proof (py_min_le_acc (Z.min x z) zs) as H. unfold py_min in H. lia.
    + by apply IH.
Qed.

Lemma py_min_attained x xs : py_min x xs = x ∨ py_min x xs ∈ xs.
Proof.
  unfold py_min. revert x. induction xs as [|z zs IH]; intros x; simpl.
  - by left.
  - destruct (IH (Z.min x z)) as [H|H].
    + rewrite H. destruct (Z.min_spec x z) as [[_ ->]|[_ ->]].
      * by left.
      * right. apply elem_of_cons. by left.
    + right. apply elem_of_cons. by right.
Qed.

(** The first element of [l] whose key equals [m]. *)
Lemma find_first_split (m : Z) (l : list A) (p : A) :
  find (λ q, f q =? m) l = Some p →
  f p = m ∧ ∃ l1 l2, l = l1 ++ p :: l2 ∧ ∀ q, q ∈ l1 → f q ≠ m.
Proof.
  induction l as [|a l IH]; simpl; [done|].
  destruct (f a =? m) eqn:E.
  - intros [= ->]. apply Z.eqb_eq in E. split; [done|].
    exists [], l. split; [done|]. intros q Hq. by apply elem_of_nil in Hq.
  - intros H. destruct (IH H) as (Hp & l1 & l2 & -> & Hl1).
    split; [done|]. exists (a :: l1), l2. split; [done|].
    intros q Hq. apply elem_of_cons in Hq as [->|Hq].
    + by apply Z.eqb_neq.
    + by apply Hl1.
Qed.

Lemma find_min_some (a : A) (l : list A) :
  is_Some (find (λ q, f q =? py_min (f a) (map f l)) (a :: l)).
Proof.
  destruct (py_min_attained (f a) (map f l)) as [H|H].
  - simpl. rewrite H, Z.eqb_refl. eauto.
  - apply list_elem_of_fmap in H as (q & Hq & Hin).
    remember (py_min (f a) (map f l)) as m eqn:Hm. clear Hm.
    simpl. destruct (f a =? m); [eauto|].
    induction l as [|b l IH]; [by apply elem_of_nil in Hin|].
    simpl. destruct (f b =? m) eqn:E; [eauto|].
    apply elem_of_cons in Hin as [->|Hin]; [|by apply IH].
    rewrite <- Hq, Z.eqb_refl in E. discriminate.
Qed.
End first_minimum.

(** A split of a filtered list comes from a split of the list. *)
Lemma filter_split {A : Type} (P : A → bool) (l : list A) (l1' l2' : list A) (p : A) :
  List.filter P l = l1' ++ p :: l2' →
  ∃ l1 l2, l = l1 ++ p :: l2 ∧ List.filter P l1 = l1' ∧ P p = true.
Proof.
  revert l1'. induction l as [|a l IH]; intros l1'; simpl.
  - intros H. by destruct l1'.
  - destruct (P a) eqn:E.
    + destruct l1' as [|b l1']; simpl.
      * intros [= -> _]. by exists [], l.
      * intros [= -> H]. destruct (IH _ H) as (l1 & l2 & -> & Hf & Hp).
        exists (b :: l1), l2. simpl. by rewrite E, Hf.
    + intros H. destruct (IH _ H) as (l1 & l2 & -> & Hf & Hp).
      exists (a :: l1), l2. simpl. by rewrite E.
Qed.

Module HubProps.
Import Json Hub.

Lemma is_connected_spec (s : HubState) (p : string) :
  is_connected s p = true ↔
  ∃ r n, nodes s !! p = Some r ∧ heap s !! r = Some n ∧ websocket n ∉ closed s.
Proof.
  unfold is_connected, node_of. split.
  - destruct (nodes s !! p) as [r|]; [|done].
    destruct (heap s !! r) as [n|] eqn:Hn; [|done].
    intros H. exists r, n. repeat split; [done|].
    apply negb_true_iff, bool_decide_eq_false in H. done.
  - intros (r & n & -> & -> & H).
    apply negb_true_iff, bool_decide_eq_false. done.
Qed.

(** C1. For every tool name, [find_tool_provider] returns a provider that
    is connected (registered, transport not closed), whose request count
    is the minimum over the connected providers of the tool and which is
    the earliest such provider in the tool's provider list; it returns
    nothing exactly when no provider of the tool is connected. *)
Theorem find_tool_provider_least_loaded (s : HubState) (tool_name : string) :
  match find_tool_provider s tool_name with
  | Some p =>
      (∃ r n, nodes s !! p = Some r ∧ heap s !! r = Some n ∧
              websocket n ∉ closed s) ∧
      (∀ q, q ∈ default [] (tool_providers s !! tool_name) →
            is_connected s q = true → count_of s p ≤ count_of s q) ∧
      (∃ l1 l2, default [] (tool_providers s !! tool_name) = l1 ++ p :: l2 ∧
         ∀ q, q ∈ l1 → is_connected s q = true → count_of s p < count_of s q)
  | None =>
      ∀ q, q ∈ default [] (tool_providers s !! tool_name) →
           is_connected s q = false
  end.
Proof.
  unfold find_tool_provider, connected_providers.
  set (providers := default [] (tool_providers s !! tool_name)).
  destruct (List.filter (is_connected s) providers) as [|c0 rest] eqn:Hconn.
  - intros q Hq. destruct (is_connected s q) eqn:E; [|done].
    assert (In q (List.filter (is_connected s) providers)) as Hin.
    { apply filter_In. split; [by apply list_elem_of_In|done]. }
    rewrite Hconn in Hin. destruct Hin.
  - set (m := py_min (count_of s c0) (map (count_of s) rest)).
    destruct (find_min_some (count_of s) c0 rest) as [p Hp].
    fold m in Hp. rewrite Hp.
    apply find_first_split in Hp as (Hm & l1' & l2' & Hsplit & Hl1').
    assert (∀ q, q ∈ providers → is_connected s q = true → m ≤ count_of s q) as Hlow.
    { intros q Hq Hc.
      assert (In q (c0 :: rest)) as [->|Hin].
      { rewrite <- Hconn. apply filter_In. split; [by apply list_elem_of_In|done]. }
      - apply py_min_le_acc.
      - apply py_min_lower, list_elem_of_fmap. exists q. split; [done|].
        by apply list_elem_of_In. }
    rewrite <- Hconn in Hsplit.
    apply filter_split in Hsplit as (l1 & l2 & Hprov & Hf & Hpc).
    split; [by apply is_connected_spec|]. split.
    + intros q Hq Hc. rewrite Hm. by apply Hlow.
    + exists l1, l2. split; [done|]. intros q Hq Hc.
      assert (count_of s q ≠ m) as Hne.
      { apply Hl1'. rewrite <- Hf. apply list_elem_of_In, filter_In.
        split; [by apply list_elem_of_In|done]. }
      assert (m ≤ count_of s q) as Hle.
      { apply Hlow; [|done]. rewrite Hprov. apply elem_of_app. by left. }
      lia.
Qed.

(** *** Frame facts: which fields an operation can touch *)

Lemma stats_only_refl s : stats_only s s.
Proof. exists (stats s). by destruct s. Qed.

Lemma stats_only_trans s1 s2 s3 :
  stats_only s1 s2 → stats_only s2 s3 → stats_only s1 s3.
Proof. intros [st1 ->] [st2 ->]. by exists st2. Qed.

Lemma send_to_node_stats_only s sid io :
  stats_only s (fst (send_to_node s sid io)).
Proof.
  unfold send_to_node. repeat case_match; simpl;
    try apply stats_only_refl. by eexists.
Qed.

Lemma multicast_stats_only s targets io : stats_only s (multicast s targets io).
Proof.
  unfold multicast. revert s. induction targets as [|t ts IH]; intros s; simpl.
  - apply stats_only_refl.
  - eapply stats_only_trans; [apply send_to_node_stats_only|apply IH].
Qed.

Lemma broadcast_stats_only s exclude io : stats_only s (broadcast s exclude io).
Proof. apply multicast_stats_only. Qed.

Lemma wf_stats_only s s' : stats_only s s' → wf s → wf s'.
Proof. intros [st ->] [H1 H2 H3 H4]. by split. Qed.

Lemma wf_init started : wf (init started).
Proof.
  split; simpl; [| | |done].
  - intros p r H. by rewrite lookup_empty in H.
  - intros rid e H. by rewrite lookup_empty in H.
  - intros rid [c H]. by rewrite lookup_empty in H.
Qed.

Lemma wf_register_node s ws params fresh_sid now :
  wf s → wf (fst (register_node s ws params fresh_sid now)).
Proof.
  intros [H1 H2 H3 H4]. split; simpl; [|done|done|done].
  intros p r. rewrite lookup_insert. case_decide.
  - intros [= <-]. rewrite lookup_insert_eq. eauto.
  - intros Hp. rewrite lookup_insert. case_decide; eauto.
Qed.

Lemma wf_unregister_node s sid : wf s → wf (unregister_node s sid).
Proof.
  intros [H1 H2 H3 H4]. unfold unregister_node.
  repeat case_match; split; simpl; try done.
  intros p r. rewrite lookup_delete. case_decide; [done|]. apply H1.
Qed.

Lemma hub_id_inj k1 k2 : hub_id k1 = hub_id k2 → k1 = k2.
Proof. unfold hub_id. simpl. intros [= H]. by apply (inj pretty). Qed.

(** The id the next routed call will get is not in use. *)
Lemma wf_next_id_fresh s :
  wf s → calls s !! hub_id (_request_counter s + 1) = None ∧
         pending_requests s !! hub_id (_request_counter s + 1) = None.
Proof.
  intros [H1 H2 H3 H4].
  assert (calls s !! hub_id (_request_counter s + 1) = None) as Hc.
  { destruct (calls s !! hub_id (_request_counter s + 1)) eqn:E; [|done].
    destruct (H3 _ (mk_is_Some _ _ E)) as (k & Hk & Heq).
    apply hub_id_inj in Heq. lia. }
  split; [done|].
  destruct (pending_requests s !! hub_id (_request_counter s + 1)) eqn:E; [|done].
  destruct (H2 _ _ E) as [_ Hw]. congruence.
Qed.

Lemma wf_install_request s p r node src deadline now :
  wf s → wf (install_request s p r node src deadline now).
Proof.
  intros [H1 H2 H3 H4]. split; simpl; [| | |lia].
  - intros q r' Hq. rewrite lookup_insert. case_decide; eauto.
  - intros rid e. rewrite !lookup_insert. case_decide.
    + by intros [= <-].
    + apply H2.
  - intros rid. rewrite lookup_insert. case_decide.
    + intros _. exists (_request_counter s + 1). split; [lia|done].
    + intros Hs. destruct (H3 _ Hs) as (k & Hk & ->). exists k. split; [lia|done].
Qed.

(** Taking an entry out of the table and closing its call. *)
Lemma wf_close_call s rid r :
  wf s → is_Some (calls s !! rid) →
  wf (set_pending (delete rid (pending_requests s))
        (<[rid := Resolved r]> (calls s)) s).
Proof.
  intros [H1 H2 H3 H4] Hc. split; simpl; [done| | |done].
  - intros rid' e. rewrite lookup_delete. case_decide; [done|].
    rewrite lookup_insert_ne by done. apply H2.
  - intros rid'. rewrite lookup_insert. case_decide as Heq.
    + subst rid'. intros _. by apply H3.
    + apply H3.
Qed.

Lemma wf_route_tool_call s tool_name arguments src tgt deadline now io :
  wf s → wf (fst (route_tool_call s tool_name arguments src tgt deadline now io)).
Proof.
  intros Hwf. unfold route_tool_call.
  destruct (choose_provider s tool_name tgt) as [p|]; [|done].
  destruct (negb (str_truthy p)); [done|].
  destruct (nodes s !! p) as [r|]; [|done].
  destruct (heap s !! r) as [node|]; [|done].
  set (s1 := install_request s p r node src deadline now).
  assert (wf s1) as Hwf1 by by apply wf_install_request.
  pose proof (send_to_node_stats_only s1 p io) as Hst.
  destruct (send_to_node s1 p io) as [s2 success]. simpl in Hst.
  assert (wf s2) as Hwf2 by by eapply wf_stats_only.
  destruct success; [done|]. simpl.
  apply wf_close_call; [done|].
  destruct Hst as [st ->]. simpl. rewrite lookup_insert_eq. eauto.
Qed.

Lemma wf_route_timeout s rid : wf s → wf (fst (route_timeout s rid)).
Proof.
  intros Hwf. unfold route_timeout.
  destruct (calls s !! rid) as [[|r]|] eqn:E; [|done|done].
  simpl. apply wf_close_call; [done|]. rewrite E. eauto.
Qed.

Lemma wf_handle_response s rid result error :
  wf s → wf (fst (handle_response s rid result error)).
Proof.
  intros Hwf. unfold handle_response.
  destruct rid as [|b|n|k|l|d]; simpl; try done; try by destruct (bool_decide _).
  destruct (pending_requests s !! k) as [e|] eqn:E; [|done]. simpl.
  destruct (wf_pending s Hwf _ _ E) as [Hf Hc].
  assert (∀ r, wf (fst (resolve_future
            (set_pending (delete k (pending_requests s)) (calls s) s)
            (future e) r))) as Hres.
  { intros r. unfold resolve_future. rewrite Hf. simpl. rewrite Hc. simpl.
    apply (wf_close_call s k r Hwf). rewrite Hc. eauto. }
  destruct (truthy error).
  - destruct error; try apply Hres; simpl.
    all: destruct Hwf as [H1 H2 H3 H4]; split; simpl; try done.
    all: intros rid' e'; rewrite lookup_delete; case_decide; [done|apply H2].
  - apply Hres.
Qed.

Lemma wf_reply s ws io : wf s → wf (fst (reply s ws io)).
Proof. unfold reply. by case_match. Qed.

Lemma wf_set_heap s h :
  (∀ r, is_Some (heap s !! r) → is_Some (h !! r)) → wf s → wf (set_heap h s).
Proof. intros Hh [H1 H2 H3 H4]. split; simpl; eauto. Qed.

Lemma wf_handle_message s ws data node now io :
  wf s → wf (fst (_handle_message s ws data node now io)).
Proof.
  intros Hwf. unfold _handle_message.
  case_bool_decide; [by apply wf_handle_response|].
  destruct (String.eqb _ "node/register"); [done|].
  destruct (String.eqb _ "ping").
  { apply wf_reply. destruct node as [r|]; [|done].
    apply wf_set_heap; [|done].
    intros r'. rewrite lookup_alter. case_decide; [|done].
    subst. intros [x ->]. simpl. eauto. }
  destruct (String.eqb _ "mesh/nodes"); [by apply wf_reply|].
  destruct (String.eqb _ "mesh/tools"); [by apply wf_reply|].
  destruct (String.eqb _ "tools/call").
  { match goal with
    | |- context [route_tool_call ?a ?b ?c ?d ?e ?f ?g ?h] =>
        pose proof (wf_route_tool_call a b c d e f g h Hwf) as Hr;
        destruct (route_tool_call a b c d e f g h) as [s' c']
    end.
    simpl in Hr. destruct c'; [by apply wf_reply|done|done]. }
  destruct (String.eqb _ "mesh/broadcast").
  { apply wf_reply. eapply wf_stats_only; [apply broadcast_stats_only|done]. }
  destruct (String.eqb _ "mesh/stats"); [by apply wf_reply|].
  destruct (String.eqb _ "tools/list"); [|done].
  destruct node as [r|]; [|done]. destruct (heap s !! r) eqn:E; [|done]. simpl.
  destruct Hwf as [H1 H2 H3 H4]; split; simpl; try done.
  intros q r' Hq. rewrite lookup_insert. case_decide; eauto.
Qed.

Lemma wf_step e s : wf s → wf (step e s).
Proof.
  intros Hwf. destruct e; simpl.
  - by apply wf_register_node.
  - by apply wf_unregister_node.
  - by apply wf_handle_message.
  - by apply wf_route_tool_call.
  - by apply wf_handle_response.
  - by apply wf_route_timeout.
  - eapply wf_stats_only; [apply send_to_node_stats_only|done].
  - eapply wf_stats_only; [apply broadcast_stats_only|done].
  - eapply wf_stats_only; [apply multicast_stats_only|done].
  - by destruct Hwf.
Qed.

Lemma reachable_wf s : reachable s → wf s.
Proof.
  induction 1 as [started|s e _ IH]; [apply wf_init|by apply wf_step].
Qed.

Lemma reachable_run es s : reachable s → reachable (run es s).
Proof.
  unfold run. revert s. induction es as [|e es IH]; intros s Hs; simpl; [done|].
  apply IH. by constructor.
Qed.

(** *** The shape of a routed call *)

Lemma find_tool_provider_connected s tool_name p :
  find_tool_provider s tool_name = Some p → is_connected s p = true.
Proof.
  unfold find_tool_provider, connected_providers.
  destruct (List.filter _ _) as [|c0 rest] eqn:Hconn; [done|].
  assert (∀ q, In q (c0 :: rest) → is_connected s q = true) as Hall.
  { intros q Hq. rewrite <- Hconn in Hq. by apply filter_In in Hq as [_ ?]. }
  destruct (find _ _) as [q|] eqn:Hfind.
  - intros [= <-]. apply find_some in Hfind as [Hin _]. by apply Hall.
  - intros [= <-]. apply Hall. by left.
Qed.

Lemma choose_provider_registered s tool_name tgt p :
  wf s → choose_provider s tool_name tgt = Some p →
  ∃ r node, nodes s !! p = Some r ∧ heap s !! r = Some node.
Proof.
  intros Hwf. unfold choose_provider. destruct (opt_truthy tgt).
  - destruct tgt as [t|]; [|done]. case_bool_decide as Ht; [|done].
    intros [= <-]. destruct Ht as [r Hr].
    destruct (wf_nodes s Hwf _ _ Hr) as [node Hn]. eauto.
  - intros H%find_tool_provider_connected.
    apply is_connected_spec in H as (r & n & ? & ? & _). eauto.
Qed.

Lemma route_tool_call_routed s tool_name arguments src tgt deadline now io :
  wf s →
  routed s tool_name src tgt deadline now io
    (route_tool_call s tool_name arguments src tgt deadline now io).
Proof.
  intros Hwf. unfold route_tool_call.
  destruct (choose_provider s tool_name tgt) as [p|] eqn:Hp;
    [|constructor; by left].
  destruct (str_truthy p) eqn:Ht; simpl.
  2:{ constructor. right. rewrite Hp. f_equal.
      unfold str_truthy in Ht. apply negb_false_iff in Ht.
      by apply String.eqb_eq in Ht. }
  apply str_truthy_spec in Ht.
  destruct (choose_provider_registered _ _ _ _ Hwf Hp) as (r & node & Hr & Hn).
  rewrite Hr, Hn. unfold send_to_node, node_of. simpl.
  rewrite Hr, lookup_insert_eq. simpl.
  case_bool_decide as Hc.
  - eapply routed_send_failed; eauto.
  - destruct (io (websocket node)) eqn:Hio.
    + eapply routed_await; eauto.
    + eapply routed_send_failed; eauto.
Qed.

(** *** A call that is over stays over *)

Lemma stats_only_fields s s' :
  stats_only s s' →
  heap s' = heap s ∧ nodes s' = nodes s ∧
  pending_requests s' = pending_requests s ∧ calls s' = calls s ∧
  tool_providers s' = tool_providers s ∧ closed s' = closed s ∧
  _request_counter s' = _request_counter s.
Proof. by intros [st ->]. Qed.









(** *** The pending-call table *)

Lemma route_tool_call_chosen s tool_name arguments src tgt deadline now io :
  wf s →
  let rid := hub_id (_request_counter s + 1) in
  let out := route_tool_call s tool_name arguments src tgt deadline now io in
  match choose_provider s tool_name tgt with
  | Some p =>
      if str_truthy p then
        ∃ r node, nodes s !! p = Some r ∧ heap s !! r = Some node ∧
          out = if snd (send_to_node s p io)
                then (count_message (install_request s p r node src deadline now),
                      Await rid)
                else (abandon_request (install_request s p r node src deadline now)
                        rid,
                      Return (ErrFailedToSend p))
      else out = (s, Return (ErrNoProvider tool_name))
  | None => out = (s, Return (ErrNoProvider tool_name))
  end.
Proof.
  intros Hwf rid out. subst rid out.
  destruct (route_tool_call_routed s tool_name arguments src tgt deadline now io Hwf)
    as [[Hp|Hp] | p r node Hp Hne Hr Hn Hfail | p r node Hp Hne Hr Hn Hopen Hio];
    rewrite Hp; [done|done| |].
  - apply str_truthy_spec in Hne. rewrite Hne. exists r, node.
    split; [done|]. split; [done|].
    unfold send_to_node, node_of. rewrite Hr, Hn.
    destruct Hfail as [Hc|Hio].
    + by rewrite bool_decide_eq_true_2.
    + case_bool_decide; [done|]. by rewrite Hio.
  - apply str_truthy_spec in Hne. rewrite Hne. exists r, node.
    split; [done|]. split; [done|].
    unfold send_to_node, node_of. rewrite Hr, Hn.
    by rewrite bool_decide_eq_false_2, Hio.
Qed.







(** *** Request counts *)

Lemma heap_route_tool_call s tool_name arguments src tgt deadline now io r n :
  heap s !! r = Some n →
  ∃ n', heap (fst (route_tool_call s tool_name arguments src tgt deadline now io)) !! r
          = Some n' ∧
        request_count n ≤ request_count n'.
Proof.
  intros H. unfold route_tool_call.
  destruct (choose_provider s tool_name tgt) as [p|]; [|by exists n].
  destruct (negb (str_truthy p)); [by exists n|].
  destruct (nodes s !! p) as [r0|]; [|by exists n].
  destruct (heap s !! r0) as [node|] eqn:E; [|by exists n].
  set (s1 := install_request s p r0 node src deadline now).
  pose proof (send_to_node_stats_only s1 p io) as Hst.
  destruct (send_to_node s1 p io) as [s2 success].
  apply stats_only_fields in Hst as (Hh & _).
  assert (∃ n', heap s2 !! r = Some n' ∧ request_count n ≤ request_count n') as Hs2.
  { simpl in Hh. rewrite Hh. rewrite lookup_insert. case_decide as Hr.
    - subst r0. exists (count_request node). split; [done|].
      assert (n = node) as -> by congruence. simpl. lia.
    - by exists n. }
  by destruct success.
Qed.

Lemma heap_handle_response s id result error :
  heap (fst (handle_response s id result error)) = heap s.
Proof.
  unfold handle_response, resolve_future.
  destruct id as [|b|n|k|l|d]; simpl; try done; try by destruct (bool_decide _).
  destruct (pending_requests s !! k) as [e|]; [|done]. simpl.
  repeat case_match; done.
Qed.

Lemma heap_route_timeout s rid : heap (fst (route_timeout s rid)) = heap s.
Proof. unfold route_timeout. by repeat case_match. Qed.

Lemma heap_handle_message s ws data node now io r n :
  heap s !! r = Some n →
  ∃ n', heap (fst (_handle_message s ws data node now io)) !! r = Some n' ∧
        request_count n ≤ request_count n'.
Proof.
  intros H. unfold _handle_message, reply.
  case_bool_decide; [rewrite heap_handle_response; by exists n|].
  destruct (String.eqb _ "node/register"); [by exists n|].
  destruct (String.eqb _ "ping").
  { destruct node as [r0|]; [|case_match; by exists n].
    assert (∃ n', alter (with_last_ping now) r0 (heap s) !! r = Some n' ∧
                  request_count n ≤ request_count n') as Hp.
    { rewrite lookup_alter. case_decide.
      - subst. rewrite H. simpl. eexists. split; [done|]. simpl. lia.
      - by exists n. }
    by case_match. }
  destruct (String.eqb _ "mesh/nodes"); [case_match; by exists n|].
  destruct (String.eqb _ "mesh/tools"); [case_match; by exists n|].
  destruct (String.eqb _ "tools/call").
  { match goal with
    | |- context [route_tool_call ?a ?b ?c ?d ?e ?f ?g ?h] =>
        pose proof (heap_route_tool_call a b c d e f g h r n H) as Hr;
        destruct (route_tool_call a b c d e f g h) as [s' c']
    end.
    simpl in Hr. destruct c'; [by case_match|done|done]. }
  destruct (String.eqb _ "mesh/broadcast").
  { match goal with
    | |- context [broadcast s ?b io] => generalize b; intros ex
    end.
    destruct (stats_only_fields _ _ (broadcast_stats_only s ex io)) as (Hh & _).
    case_match; simpl; rewrite Hh; by exists n. }
  destruct (String.eqb _ "mesh/stats"); [case_match; by exists n|].
  destruct (String.eqb _ "tools/list"); [|by exists n].
  destruct node as [r0|]; [|by exists n].
  destruct (heap s !! r0) as [n0|] eqn:E; [|by exists n]. simpl.
  rewrite lookup_insert. case_decide.
  - subst. eexists. split; [done|]. simpl.
    assert (n = n0) as -> by congruence. lia.
  - by exists n.
Qed.

Lemma heap_step e s r n :
  heap s !! r = Some n →
  ∃ n', heap (step e s) !! r = Some n' ∧ request_count n ≤ request_count n'.
Proof.
  intros H. destruct e; simpl.
  - exists n. split; [|lia]. rewrite lookup_insert_ne; [done|].
    intros <-. pose proof (is_fresh (dom (heap s))) as Hf.
    apply Hf, elem_of_dom. eauto.
  - exists n. split; [|lia]. unfold unregister_node. by repeat case_match.
  - by apply heap_handle_message.
  - by apply heap_route_tool_call.
  - rewrite heap_handle_response. exists n. split; [done|lia].
  - rewrite heap_route_timeout. exists n. split; [done|lia].
  - destruct (stats_only_fields _ _ (send_to_node_stats_only s sid io)) as (-> & _).
    exists n. split; [done|lia].
  - destruct (stats_only_fields _ _ (broadcast_stats_only s exclude io)) as (-> & _).
    exists n. split; [done|lia].
  - destruct (stats_only_fields _ _ (multicast_stats_only s targets io)) as (-> & _).
    exists n. split; [done|lia].
  - exists n. split; [done|lia].
Qed.

Lemma heap_run es s r n :
  heap s !! r = Some n →
  ∃ n', heap (run es s) !! r = Some n' ∧ request_count n ≤ request_count n'.
Proof.
  unfold run. revert s n. induction es as [|e es IH]; intros s n H; simpl.
  - exists n. split; [done|lia].
  - destruct (heap_step e s r n H) as (n1 & H1 & Hle1).
    destruct (IH _ _ H1) as (n2 & H2 & Hle2). exists n2. split; [done|lia].
Qed.

Lemma route_tool_call_counts s tool_name arguments src tgt deadline now io :
  wf s →
  let out := route_tool_call s tool_name arguments src tgt deadline now io in
  match choose_provider s tool_name tgt with
  | Some p =>
      if str_truthy p then
        ∃ r n, nodes s !! p = Some r ∧ heap s !! r = Some n ∧
               heap (fst out) = <[r := count_request n]> (heap s) ∧
               nodes (fst out) = nodes s ∧
               count_of (fst out) p = count_of s p + 1 ∧
               (snd out = Await (hub_id (_request_counter s + 1)) ∨
                snd out = Return (ErrFailedToSend p))
      else out = (s, Return (ErrNoProvider tool_name))
  | None => out = (s, Return (ErrNoProvider tool_name))
  end.
Proof.
  intros Hwf out.
  pose proof (route_tool_call_chosen s tool_name arguments src tgt deadline now io
                Hwf) as H.
  cbv zeta in H. fold out in H.
  destruct (choose_provider s tool_name tgt) as [p|]; [|done].
  destruct (str_truthy p); [|done].
  destruct H as (r & n & Hr & Hn & Hout). exists r, n.
  split; [done|]. split; [done|].
  assert (heap (fst out) = <[r := count_request n]> (heap s) ∧
          nodes (fst out) = nodes s) as [Hheap Hnodes].
  { rewrite Hout. by destruct (snd (send_to_node s p io)). }
  split; [done|]. split; [done|]. split.
  - unfold count_of, node_of. rewrite Hnodes, Hheap, Hr, Hn.
    by rewrite lookup_insert_eq.
  - rewrite Hout. destruct (snd (send_to_node s p io)); [by left|by right].
Qed.

(** P1 has been chosen twice on [hub_three].  It registers again under
    its session id, over a new connection: the request count of P1 is 0. *)
Lemma reconnect_resets_request_count :
  count_of hub_three "P1" = 2 ∧
  count_of (step (EvRegister 4 (advertise "P1" ["echo"]) "sess_3" 1) hub_three) "P1"
    = 0.
Proof. by vm_compute. Qed.

(** C10 (amended). In every state the hub can reach, a routed tool call
    for which a provider is chosen raises the request count of that
    provider by exactly one, in the step in which the provider is chosen
    and before any response can arrive: in the state in which the call
    suspends, and just as well when the send fails, the provider's record
    has its count raised by one and no other record has changed; a call
    for which no provider is chosen changes nothing.  Responses (results
    and errors alike) and deadlines leave all counts as they are, and no
    sequence of events ever lowers the request count of a MeshNode
    record.  The count belongs to the record, not to the session id: a
    registration puts a new record under the session id, whose count is
    0, whatever the count under that id was before. *)
Theorem request_count_counts_attempts (s : HubState) :
  reachable s →
  (∀ tool_name arguments src tgt deadline now io,
     let out := route_tool_call s tool_name arguments src tgt deadline now io in
     match choose_provider s tool_name tgt with
     | Some p =>
         if str_truthy p then
           ∃ r n, nodes s !! p = Some r ∧ heap s !! r = Some n ∧
                  heap (fst out) = <[r := count_request n]> (heap s) ∧
                  nodes (fst out) = nodes s ∧
                  count_of (fst out) p = count_of s p + 1 ∧
                  (snd out = Await (hub_id (_request_counter s + 1)) ∨
                   snd out = Return (ErrFailedToSend p))
         else out = (s, Return (ErrNoProvider tool_name))
     | None => out = (s, Return (ErrNoProvider tool_name))
     end) ∧
  (∀ id result error, heap (fst (handle_response s id result error)) = heap s) ∧
  (∀ rid, heap (fst (route_timeout s rid)) = heap s) ∧
  (∀ es r n,
     heap s !! r = Some n →
     ∃ n', heap (run es s) !! r = Some n' ∧ request_count n ≤ request_count n') ∧
  (∀ ws params fresh_sid now,
     count_of (fst (register_node s ws params fresh_sid now))
       (default fresh_sid (p_session_id params)) = 0).
Proof.
  intros Hwf%reachable_wf.
  split; [intros; by apply route_tool_call_counts|].
  split; [apply heap_handle_response|]. split; [apply heap_route_timeout|].
  split; [intros; by apply heap_run|].
  intros ws params fresh_sid now. unfold count_of, node_of. simpl.
  by rewrite !lookup_insert_eq.
Qed.

(** A peer that registers again under its session id gets a new record,
    whose request count starts at zero. *)
Lemma register_node_new_record s ws params fresh_sid now :
  let out := register_node s ws params fresh_sid now in
  heap s !! snd out = None ∧
  nodes (fst out) !! default fresh_sid (p_session_id params) = Some (snd out) ∧
  (∃ n, heap (fst out) !! snd out = Some n ∧ request_count n = 0 ∧ websocket n = ws).
Proof.
  simpl. split; [|split].
  - apply not_elem_of_dom, is_fresh.
  - by rewrite lookup_insert_eq.
  - rewrite lookup_insert_eq. eauto.
Qed.

(** The routing scenario of the specification: with request counts
    P1 = 2, P2 = 2, P3 = 5 the call goes to P1, the earlier of the two
    least loaded; the next call goes to P2. *)
Example routing_scenario :
  count_of hub_three "P1" = 2 ∧ count_of hub_three "P2" = 2 ∧
  count_of hub_three "P3" = 5 ∧
  find_tool_provider hub_three "echo" = Some "P1" ∧
  find_tool_provider
    (step (EvRoute "echo" (JDict []) None None 120 0 link_up) hub_three) "echo"
    = Some "P2".
Proof. vm_compute. done. Qed.

(** *** Named targets *)

(** On the hub where only P1 is registered, a call that names the target
    [ghost] fails with the very error a call gets that names no target
    and finds no provider: there is no separate error for a missing
    target. *)
Lemma missing_target_reports_no_provider :
  route_tool_call hub_one "paint" (JDict []) None (Some "ghost") 120 0 link_up
    = (hub_one, Return (ErrNoProvider "paint")) ∧
  route_tool_call hub_one "paint" (JDict []) None None 120 0 link_up
    = (hub_one, Return (ErrNoProvider "paint")).
Proof. by vm_compute. Qed.

Lemma route_tool_call_failure_leaves_table s tool_name arguments src tgt deadline now io :
  wf s →
  let out := route_tool_call s tool_name arguments src tgt deadline now io in
  match snd out with
  | Return _ => pending_requests (fst out) = pending_requests s
  | _ => True
  end.
Proof.
  intros Hwf out. subst out.
  destruct (wf_next_id_fresh s Hwf) as [_ Hfresh].
  destruct (route_tool_call_routed s tool_name arguments src tgt deadline now io Hwf);
    simpl; [done| |done].
  by apply delete_insert_id.
Qed.

(** C8 (amended). In every state the hub can reach, a call that names a
    target which is not registered fails with the same "no provider
    found for tool" error, and the same unchanged state, as a call that
    names no target when no connected peer provides the tool; a call
    whose named target is registered but has a closed transport fails
    with the different "failed to send to node" error; and whenever
    [route_tool_call] returns at once, the pending request table is what
    it was before the call. *)
Theorem named_target_failures (s : HubState) :
  reachable s →
  ∀ tool_name arguments src deadline now io,
    (∀ t, t ≠ "" → nodes s !! t = None →
       route_tool_call s tool_name arguments src (Some t) deadline now io
         = (s, Return (ErrNoProvider tool_name))) ∧
    (find_tool_provider s tool_name = None →
       route_tool_call s tool_name arguments src None deadline now io
         = (s, Return (ErrNoProvider tool_name))) ∧
    (∀ t r n, t ≠ "" → nodes s !! t = Some r → heap s !! r = Some n →
       websocket n ∈ closed s →
       snd (route_tool_call s tool_name arguments src (Some t) deadline now io)
         = Return (ErrFailedToSend t)) ∧
    (∀ tgt,
       match snd (route_tool_call s tool_name arguments src tgt deadline now io) with
       | Return _ =>
           pending_requests
             (fst (route_tool_call s tool_name arguments src tgt deadline now io))
             = pending_requests s
       | _ => True
       end).
Proof.
  intros Hwf%reachable_wf tool_name arguments src deadline now io.
  split; [|split; [|split]].
  - intros t Ht Hn. unfold route_tool_call, choose_provider. simpl.
    apply str_truthy_spec in Ht. rewrite Ht, Hn.
    destruct (bool_decide _) eqn:Hs; [|done].
    apply bool_decide_eq_true in Hs. by destruct Hs.
  - intros Hf. unfold route_tool_call, choose_provider. simpl. by rewrite Hf.
  - intros t r n Ht Hr Hn Hc. unfold route_tool_call, choose_provider. simpl.
    apply str_truthy_spec in Ht. rewrite Ht, Hr. simpl.
    rewrite Ht, Hr, Hn. simpl.
    unfold send_to_node, node_of. simpl. rewrite Hr, lookup_insert_eq. simpl.
    by case_bool_decide.
  - intros tgt. by apply route_tool_call_failure_leaves_table.
Qed.

(** *** Advertised tools *)

Lemma add_provider_lookup sid tp tool T :
  add_provider sid tp tool !! T =
    if decide (tool = T) then
      Some (let l := default [] (tp !! T) in
            if bool_decide (sid ∈ l) then l else l ++ [sid])
    else tp !! T.
Proof.
  unfold add_provider, providers_entry.
  case_decide as Heq.
  - subst T. destruct (tp !! tool) as [l|] eqn:E; simpl.
    + case_bool_decide; [done|]. by rewrite lookup_insert_eq.
    + by rewrite lookup_insert_eq.
  - destruct (tp !! tool) as [l|] eqn:E; simpl.
    + case_bool_decide; [done|]. by rewrite lookup_insert_ne.
    + rewrite !lookup_insert_ne by done. done.
Qed.

(** Advertising only ever appends: whoever provides a tool still does
    after any list of tools was advertised. *)
Lemma add_providers_keep sid ts tp T q :
  q ∈ default [] (tp !! T) →
  q ∈ default [] (fold_left (add_provider sid) ts tp !! T).
Proof.
  revert tp. induction ts as [|t ts IH]; intros tp Hq; simpl; [done|].
  apply IH. rewrite add_provider_lookup. case_decide; [|done]. simpl.
  case_bool_decide; [done|]. apply elem_of_app. by left.
Qed.

Lemma add_providers_added sid ts tp T :
  T ∈ ts → sid ∈ default [] (fold_left (add_provider sid) ts tp !! T).
Proof.
  revert tp. induction ts as [|t ts IH]; intros tp HT; simpl.
  - by apply elem_of_nil in HT.
  - apply elem_of_cons in HT as [->|HT]; [|by apply IH].
    apply add_providers_keep. rewrite add_provider_lookup, decide_True by done.
    simpl. case_bool_decide; [done|]. apply elem_of_app. right. by apply list_elem_of_singleton.
Qed.

(** What [tools/list] does for the handler's node: its tool list is
    replaced, it is listed for every advertised tool, and no provider of
    any tool is taken out of the index. *)
Lemma tools_list_effect s ws ts r n now io :
  heap s !! r = Some n →
  let s' := fst (_handle_message s ws (tools_list ts) (Some r) now io) in
  heap s' !! r = Some (with_tools ts n) ∧
  (∀ T, T ∈ ts → session_id n ∈ default [] (tool_providers s' !! T)) ∧
  (∀ T q, q ∈ default [] (tool_providers s !! T) →
          q ∈ default [] (tool_providers s' !! T)).
Proof.
  intros Hn. unfold _handle_message. simpl. rewrite Hn. simpl.
  split; [by rewrite lookup_insert_eq|]. split.
  - intros T HT. by apply add_providers_added.
  - intros T q Hq. by apply add_providers_keep.
Qed.

(** C6 (failing input). P1 registered with the tools [echo] and [render]
    and then advertises [echo] alone.  Its record now lists [echo] only,
    yet the tool index still names P1 as the provider of [render], the
    hub still routes [render] to P1, and the stale entry outlives the
    unregistration of P1, which cleans the index by the record's list. *)
Theorem tools_list_keeps_dropped_tool :
  let s := fst (_handle_message hub_one 1 (tools_list ["echo"]) (Some 0%nat) 5 link_up) in
  nodes hub_one !! "P1" = Some 0%nat ∧
  tools <$> node_of s "P1" = Some ["echo"] ∧
  tool_providers s !! "render" = Some ["P1"] ∧
  find_tool_provider s "render" = Some "P1" ∧
  tool_providers (unregister_node s "P1") !! "render" = Some ["P1"] ∧
  get_aggregated_tools (unregister_node s "P1") !! "render" = Some (1%nat, ["P1"]).
Proof. by vm_compute. Qed.

(** *** Pings and silence *)

Lemma find_ext_in {A : Type} (f g : A → bool) (l : list A) :
  (∀ a, f a = g a) → find f l = find g l.
Proof.
  intros H. induction l as [|a l IH]; simpl; [done|]. by rewrite H, IH.
Qed.

(** Selection reads the node table, the transports and the request
    counts of the records, and nothing else. *)
Lemma find_tool_provider_ext s s' tool_name :
  tool_providers s' = tool_providers s →
  (∀ p, is_connected s' p = is_connected s p) →
  (∀ p, count_of s' p = count_of s p) →
  find_tool_provider s' tool_name = find_tool_provider s tool_name.
Proof.
  intros Htp Hc Hn. unfold find_tool_provider, connected_providers.
  rewrite Htp. rewrite (filter_ext _ _ Hc).
  destruct (List.filter _ _) as [|c0 rest]; [done|].
  rewrite (map_ext _ _ Hn), (Hn c0).
  set (m := py_min _ _).
  by rewrite (find_ext_in (λ p, count_of s' p =? m) (λ p, count_of s p =? m))
    by (intros a; by rewrite Hn).
Qed.

Lemma node_of_touch s r t p :
  node_of (set_heap (alter (with_last_ping t) r (heap s)) s) p
    = with_last_ping t <$> node_of s p ∨
  node_of (set_heap (alter (with_last_ping t) r (heap s)) s) p = node_of s p.
Proof.
  unfold node_of. simpl. destruct (nodes s !! p) as [r'|]; [|by right].
  rewrite lookup_alter. case_decide; [subst; by left|by right].
Qed.

Lemma find_tool_provider_ignores_last_ping s r t tool_name :
  find_tool_provider (set_heap (alter (with_last_ping t) r (heap s)) s) tool_name
    = find_tool_provider s tool_name.
Proof.
  apply find_tool_provider_ext; [done| |].
  - intros p. unfold is_connected.
    destruct (node_of_touch s r t p) as [-> | ->]; [|done].
    by destruct (node_of s p).
  - intros p. unfold count_of.
    destruct (node_of_touch s r t p) as [-> | ->]; [|done].
    by destruct (node_of s p).
Qed.

(** P4 registered at time 0 with the tool [echo] and has been silent
    since.  At 91 s its last ping is more than 90 s old, and a call of
    [echo] is still routed to it. *)
Lemma silent_peer_still_selected :
  let s := fst (register_node (init "t0") 4 (advertise "P4" ["echo"]) "sess_0" 0) in
  let now := 91000000 in
  (last_ping <$> node_of s "P4") = Some 0 ∧ now - 0 > 90000000 ∧
  find_tool_provider s "echo" = Some "P4" ∧
  snd (route_tool_call s "echo" (JDict []) None None 120 now link_up)
    = Await "hub_1".
Proof. by vm_compute. Qed.

(** C7 (amended). On the hub a ping does one thing: it stores the time of
    the ping in the record of the handler's node.  No operation of the
    hub compares that time with the clock: provider selection gives the
    same answer whatever the last-ping times are, so a silent peer with
    an open transport stays eligible and a ping neither removes nor
    restores eligibility. *)
Theorem ping_only_refreshes_last_ping (s : HubState) (ws : nat) (node : option nat)
    (params : Params) (now : Z) (io : nat → bool) :
  let s' := fst (_handle_message s ws (request "ping" params) node now io) in
  s' = match node with
       | Some r => set_heap (alter (with_last_ping now) r (heap s)) s
       | None => s
       end ∧
  (∀ tool_name, find_tool_provider s' tool_name = find_tool_provider s tool_name) ∧
  (∀ r t tool_name,
     find_tool_provider (set_heap (alter (with_last_ping t) r (heap s)) s) tool_name
       = find_tool_provider s tool_name).
Proof.
  assert (fst (_handle_message s ws (request "ping" params) node now io)
          = match node with
            | Some r => set_heap (alter (with_last_ping now) r (heap s)) s
            | None => s
            end) as Heq.
  { unfold _handle_message, reply. simpl. by case_match. }
  simpl. rewrite Heq. split; [done|]. split.
  - intros tool_name. destruct node as [r|]; [|done].
    apply find_tool_provider_ignores_last_ping.
  - intros. apply find_tool_provider_ignores_last_ping.
Qed.

(** *** The theorems at work on the example hubs *)

Lemma reachable_hub_one : reachable hub_one.
Proof. unfold hub_one. apply reachable_step, reachable_init. Qed.

Lemma reachable_hub_calling : reachable hub_calling.
Proof. unfold hub_calling. apply reachable_step, reachable_hub_one. Qed.

Lemma reachable_hub_three : reachable hub_three.
Proof. unfold hub_three. apply reachable_run, reachable_init. Qed.

(** On the hub of the routing scenario the call of [echo] goes to P1,
    which is connected and no more loaded than any connected provider. *)
Lemma find_tool_provider_least_loaded_witness :
  find_tool_provider hub_three "echo" = Some "P1" ∧
  ∀ q, q ∈ default [] (tool_providers hub_three !! "echo") →
       is_connected hub_three q = true →
       count_of hub_three "P1" ≤ count_of hub_three q.
Proof.
  pose proof (find_tool_provider_least_loaded hub_three "echo") as H.
  assert (find_tool_provider hub_three "echo" = Some "P1") as E by by vm_compute.
  rewrite E in H. split; [exact E|]. exact (proj1 (proj2 H)).
Defined.


(** On [hub_one] a call that names the unregistered target [ghost]
    answers the "no provider" error and leaves the hub as it is. *)
Lemma named_target_failures_witness :
  reachable hub_one ∧ "ghost" ≠ "" ∧ nodes hub_one !! "ghost" = None ∧
  route_tool_call hub_one "paint" (JDict []) None (Some "ghost") 120 0 link_up
    = (hub_one, Return (ErrNoProvider "paint")).
Proof.
  assert ("ghost" ≠ "") as Hne by done.
  assert (nodes hub_one !! "ghost" = None) as Hn by by vm_compute.
  split; [exact reachable_hub_one|]. split; [exact Hne|]. split; [exact Hn|].
  exact (proj1 (named_target_failures hub_one reachable_hub_one
                  "paint" (JDict []) None 120 0 link_up) "ghost" Hne Hn).
Defined.

(** A ping of P1 on [hub_one] leaves the choice of the provider of
    [echo] as it was. *)
Lemma ping_only_refreshes_last_ping_witness :
  find_tool_provider
    (fst (_handle_message hub_one 1 (request "ping" no_params) (Some 0%nat) 99 link_up))
    "echo"
  = find_tool_provider hub_one "echo".
Proof.
  exact (proj1 (proj2 (ping_only_refreshes_last_ping hub_one 1 (Some 0%nat)
                         no_params 99 link_up)) "echo").
Defined.

(** The record of P1 on [hub_one] has served no request.  A call of
    [echo] whose send fails is counted all the same, and whatever happens
    next the count of the record is not below what it was. *)
Lemma request_count_counts_attempts_witness :
  reachable hub_one ∧
  count_of hub_one "P1" = 0 ∧
  (let out := route_tool_call hub_one "echo" (JDict []) None None 120 7 link_down in
   snd out = Return (ErrFailedToSend "P1") ∧ count_of (fst out) "P1" = 1) ∧
  ∃ n', heap (run [EvRoute "echo" (JDict []) None None 120 7 link_down;
                   EvTimeout "hub_1"] hub_one) !! 0%nat = Some n' ∧
        0 ≤ request_count n'.
Proof.
  split; [exact reachable_hub_one|]. split; [by vm_compute|].
  pose proof (request_count_counts_attempts hub_one reachable_hub_one)
    as (Hroute & _ & _ & Hmono & _).
  split.
  - specialize (Hroute "echo" (JDict []) None None 120 7 link_down).
    cbv zeta in Hroute |- *.
    assert (choose_provider hub_one "echo" None = Some "P1") as Hc by by vm_compute.
    rewrite Hc in Hroute. simpl in Hroute.
    destruct Hroute as (r & n & _ & _ & _ & _ & Hcount & _).
    split; [by vm_compute|]. rewrite Hcount. by vm_compute.
  - destruct (heap hub_one !! 0%nat) as [n|] eqn:E; [|by vm_compute in E].
    assert (request_count n = 0) as Hn.
    { assert (Some (request_count n) = Some 0) as [= ->]; [|done].
      change (request_count <$> Some n = Some 0). rewrite <- E. by vm_compute. }
    rewrite <- Hn. apply Hmono. done.
Defined.

End HubProps.

(** ** The federation vault *)

Module VaultProps.
Import Json Vault.

Lemma dict_lookup_store_eq {V : Type} (k : string) (v : V) (d : list (string * V)) :
  dict_lookup k (dict_store k v d) = Some v.
Proof.
  induction d as [|[k' v'] d IH]; simpl.
  - by rewrite String.eqb_refl.
  - destruct (String.eqb k k') eqn:E; simpl; by rewrite ?String.eqb_refl, ?E.
Qed.

Lemma dict_lookup_store_ne {V : Type} (k k' : string) (v : V) (d : list (string * V)) :
  k' ≠ k → dict_lookup k' (dict_store k v d) = dict_lookup k' d.
Proof.
  intros Hne. induction d as [|[k0 v0] d IH]; simpl.
  - by apply String.eqb_neq in Hne as ->.
  - destruct (String.eqb k k0) eqn:E; simpl.
    + apply String.eqb_eq in E as <-. by apply String.eqb_neq in Hne as ->.
    + by rewrite IH.
Qed.

(** The url-safe base64 text of the bytes 00 .. 1f, and of the two bytes
    fb ff, which need the two url-safe characters. *)
Example token_urlsafe_sample :
  token_urlsafe sample_entropy 32 = "AAECAwQFBgcICQoLDA0ODxAREhMUFRYXGBkaGxwdHh8" ∧
  b64url [Byte.xfb; Byte.xff] = "-_8" ∧
  b64url [Byte.x4d; Byte.x61; Byte.x6e] = "TWFu".
Proof. by vm_compute. Qed.

(** *** A token determines its bytes *)

Lemma b64_index_char (i : N) : (i < 64)%N → b64_index (b64_char i) = Some i.
Proof.
  intros Hi. rewrite <- (N2Nat.id i).
  assert (N.to_nat i < 64)%nat as Hn by lia. revert Hn.
  generalize (N.to_nat i). intros n Hn.
  do 64 (destruct n as [|n]; [by vm_compute|]). lia.
Qed.

Lemma byte_of_to_N (b : Byte.byte) : byte_of (Byte.to_N b) = b.
Proof. unfold byte_of. by rewrite Byte.of_to_N. Qed.

Lemma to_N_bound (b : Byte.byte) : (Byte.to_N b < 256)%N.
Proof. pose proof (Byte.to_N_bounded b). lia. Qed.

Lemma three_step_ind {A : Type} (P : list A → Prop) :
  P [] → (∀ a, P [a]) → (∀ a b, P [a; b]) →
  (∀ a b c l, P l → P (a :: b :: c :: l)) → ∀ l, P l.
Proof.
  intros H0 H1 H2 H3.
  assert (∀ l, P l ∧ (∀ a, P (a :: l)) ∧ (∀ a b, P (a :: b :: l))) as H.
  { induction l as [|c l (IH0 & IH1 & IH2)]; [by auto|].
    split; [apply IH1|]. split; [intros a; apply IH2|].
    intros a b. by apply H3. }
  intros l. apply H.
Qed.

Lemma byte_of_eq (n : N) (b : Byte.byte) : n = Byte.to_N b → byte_of n = b.
Proof. intros ->. apply byte_of_to_N. Qed.

Lemma b64url_decode_encode (bs : list Byte.byte) :
  b64url_decode (b64url bs) = Some bs.
Proof.
  unfold b64url_decode.
  induction bs as [|b1|b1 b2|b1 b2 b3 rest IH] using three_step_ind.
  - done.
  - pose proof (to_N_bound b1). cbn [b64url b64_indices].
    rewrite !b64_index_char by (zify; Z.to_euclidean_division_equations; lia).
    cbn [fmap option_fmap option_map sextets_bytes].
    do 2 f_equal. apply byte_of_eq.
    zify. Z.to_euclidean_division_equations. lia.
  - pose proof (to_N_bound b1). pose proof (to_N_bound b2).
    cbn [b64url b64_indices].
    rewrite !b64_index_char by (zify; Z.to_euclidean_division_equations; lia).
    cbn [fmap option_fmap option_map sextets_bytes].
    f_equal. f_equal; [|f_equal]; apply byte_of_eq;
      zify; Z.to_euclidean_division_equations; lia.
  - pose proof (to_N_bound b1). pose proof (to_N_bound b2).
    pose proof (to_N_bound b3).
    cbn [b64url b64_indices].
    rewrite !b64_index_char by (zify; Z.to_euclidean_division_equations; lia).
    destruct (b64_indices (b64url rest)) as [l|]; [|done].
    cbn [fmap option_fmap option_map sextets_bytes] in *.
    injection IH as ->.
    f_equal. f_equal; [|f_equal; [|f_equal]]; apply byte_of_eq;
      zify; Z.to_euclidean_division_equations; lia.
Qed.

(** Two tokens are equal only if they were made from the same bytes. *)
Lemma b64url_inj (bs1 bs2 : list Byte.byte) : b64url bs1 = b64url bs2 → bs1 = bs2.
Proof.
  intros H. assert (Some bs1 = Some bs2) as [= ->]; [|done].
  by rewrite <- !b64url_decode_encode, H.
Qed.

(** A token of 32 random bytes is 43 characters long. *)
Lemma token_urlsafe_32_length (entropy : nat → Byte.byte) :
  String.length (token_urlsafe entropy 32) = 43%nat ∧
  length (token_bytes entropy 32) = 32%nat.
Proof. split; reflexivity. Qed.

(** *** Verification *)

(** [nodeA] may only connect from 10.0.0.5, and yet a verification that
    passes no client address succeeds, as does one that passes the empty
    address; with an address that is not allowed it fails.  The callers
    in the repository never pass the address.  And when the write of the
    file fails, the verification still succeeds and nothing is on disk. *)
Lemma verify_token_without_address_passes :
  (allowed_ips <$> get_node vault_pinned "nodeA") = Some ["10.0.0.5"] ∧
  snd (verify_token sample_digest vault_pinned "nodeA" "T" None "t1" "t2" true) = true ∧
  snd (verify_token sample_digest vault_pinned "nodeA" "T" (Some "") "t1" "t2" true)
    = true ∧
  snd (verify_token sample_digest vault_pinned "nodeA" "T" (Some "10.9.9.9")
         "t1" "t2" true) = false ∧
  snd (verify_token sample_digest vault_pinned "nodeA" "T" (Some "10.0.0.5")
         "t1" "t2" false) = true ∧
  tokens_file (fst (verify_token sample_digest vault_pinned "nodeA" "T"
                      (Some "10.0.0.5") "t1" "t2" false)) = None.
Proof. by vm_compute. Qed.

(** C3 (amended). [verify_token] answers true exactly when the node is
    in the table, is active, its stored hash is the digest of the token
    and the address check passes: the allow list is empty, or no address
    (none, or the empty text) was passed, or the address is on the list.
    On true, the record's [last_seen] becomes the time of the call, all
    else in the table stays, and the table is saved (the file holds the
    new table when the write goes through).  On false the vault is
    unchanged. *)
Theorem verify_token_spec (sha256_hex : string → string) (v : FederationVault)
    (id token : string) (client_ip : option string) (now saved_at : string)
    (written : bool) :
  let out := verify_token sha256_hex v id token client_ip now saved_at written in
  (snd out = true ↔
     ∃ node, get_node v id = Some node ∧ active node = true ∧
             token_hash node = sha256_hex token ∧
             (allowed_ips node = [] ∨ opt_truthy client_ip = false ∨
              ∃ ip, client_ip = Some ip ∧ ip ∈ allowed_ips node)) ∧
  (snd out = true →
     ∃ node, get_node v id = Some node ∧
             nodes (fst out) = dict_store id (with_last_seen now node) (nodes v) ∧
             get_node (fst out) id = Some (with_last_seen now node) ∧
             (∀ id', id' ≠ id → get_node (fst out) id' = get_node v id') ∧
             tokens_file (fst out) =
               if written
               then Some (mkVaultFile (dict_values (nodes (fst out))) saved_at)
               else tokens_file v) ∧
  (snd out = false → fst out = v).
Proof.
  unfold verify_token, get_node.
  destruct (dict_lookup id (nodes v)) as [node|] eqn:Hn; simpl.
  { destruct (active node) eqn:Ha; simpl.
    2:{ split; [|done]. split; [done|]. intros (n & [= <-] & ? & _). congruence. }
    destruct (String.eqb (sha256_hex token) (token_hash node)) eqn:Hh.
    - apply String.eqb_eq in Hh.
      destruct (allowed_ips node) as [|ip0 ips] eqn:Hips; simpl.
      + split; [|split; [|done]].
        * split; [|done]. intros _. exists node. rewrite Hips. eauto.
        * intros _. exists node. split; [done|]. split; [by destruct written|].
          split; [destruct written; simpl; apply dict_lookup_store_eq|].
          split; [intros id' Hne; destruct written; simpl;
                  by apply dict_lookup_store_ne|].
          by destruct written.
      + destruct (opt_truthy client_ip) eqn:Ht; simpl.
        * case_bool_decide as Hin; simpl.
          -- split; [|split; [|done]].
             ++ split; [|done]. intros _. exists node. rewrite Hips.
                repeat split; try done. right. right.
                destruct client_ip as [ip|]; [|done]. eauto.
             ++ intros _. exists node. split; [done|]. split; [by destruct written|].
                split; [destruct written; simpl; apply dict_lookup_store_eq|].
                split; [intros id' Hne; destruct written; simpl;
                        by apply dict_lookup_store_ne|].
                by destruct written.
          -- split; [|done]. split; [done|].
             intros (n & [= <-] & _ & _ & [Hc|[Hc|(ip & -> & Hc)]]).
             ++ by rewrite Hips in Hc.
             ++ done.
             ++ rewrite Hips in Hc. done.
        * split; [|split; [|done]].
          -- split; [|done]. intros _. exists node. eauto 10.
          -- intros _. exists node. split; [done|]. split; [by destruct written|].
             split; [destruct written; simpl; apply dict_lookup_store_eq|].
             split; [intros id' Hne; destruct written; simpl;
                     by apply dict_lookup_store_ne|].
             by destruct written.
    - assert (token_hash node ≠ sha256_hex token) as Hne.
      { intros Heq. rewrite Heq, String.eqb_refl in Hh. done. }
      assert (∀ b : bool, (if b then (v, false) else (v, false)) = (v, false)) as Hb
        by by intros [].
      simpl. rewrite Hb. simpl. split; [|done]. split; [done|].
      intros (n & [= <-] & _ & ? & _). done. }
  split; [|done]. split; [done|]. by intros (n & ? & _).
Qed.

(** *** Registration *)

(** [register_node] itself looks for no existing record: it always stores
    the digest of a new token under the id and hands the token out. *)
Lemma register_node_stores_digest (sha256_hex : string → string)
    (v : FederationVault) (id node_role : string) (ips : option (list string))
    (entropy : nat → Byte.byte) (now saved_at : string) (written : bool) :
  let out := register_node sha256_hex v id node_role ips entropy now saved_at written in
  snd out = token_urlsafe entropy 32 ∧
  get_node (fst out) id =
    Some (mkFederationNode id (sha256_hex (snd out)) node_role (default [] ips)
            now None true) ∧
  (∀ id', id' ≠ id → get_node (fst out) id' = get_node v id').
Proof.
  unfold register_node, get_node. simpl. split; [done|]. split.
  - destruct written; simpl; apply dict_lookup_store_eq.
  - intros id' Hne. destruct written; simpl; by apply dict_lookup_store_ne.
Qed.

(** [nodeA] is registered and revoked.  Registering it again through the
    vault does not fail: it returns a token, and the record now carries
    the digest of that token and is active again. *)
Lemma register_node_overwrites :
  let out := register_node sample_digest vault_revoked "nodeA" "node" None
               sample_entropy "t1" "t2" true in
  (active <$> get_node vault_revoked "nodeA") = Some false ∧
  (token_hash <$> get_node vault_revoked "nodeA") = Some "sha256(T)" ∧
  snd out = "AAECAwQFBgcICQoLDA0ODxAREhMUFRYXGBkaGxwdHh8" ∧
  (active <$> get_node (fst out) "nodeA") = Some true ∧
  (token_hash <$> get_node (fst out) "nodeA")
    = Some "sha256(AAECAwQFBgcICQoLDA0ODxAREhMUFRYXGBkaGxwdHh8)".
Proof. by vm_compute. Qed.

(** C4 (amended). The check for an existing node is made by the
    [federation_register] tool, not by the vault's [register_node].
    Through the tool, registering an id that is in the vault answers the
    "already registered" error and leaves the vault as it is; registering
    an id that is not in the vault draws a token of 32 random bytes (256
    bits, 43 url-safe characters from which the bytes can be read back),
    stores a record with the digest of the token, active and without
    address restriction, leaves the other records alone, and answers the
    token. *)
Theorem federation_register_conflict (sha256_hex : string → string)
    (v : FederationVault) (args : ToolArgs) (id : string)
    (entropy : nat → Byte.byte) (now saved_at : string) (written : bool) :
  a_node_id args = Some id → id ≠ "" →
  let out := handle_federation_tool sha256_hex v "federation_register" args
               entropy now saved_at written in
  match get_node v id with
  | Some _ => out = (v, ReplyError ("Node " +:+ id +:+ " already registered"))
  | None =>
      let token := token_urlsafe entropy 32 in
      snd out = ReplyRegistered id (default "node" (a_role args)) token ∧
      String.length token = 43%nat ∧
      (8 * length (token_bytes entropy 32) = 256)%nat ∧
      b64url_decode token = Some (token_bytes entropy 32) ∧
      get_node (fst out) id =
        Some (mkFederationNode id (sha256_hex token) (default "node" (a_role args))
                [] now None true) ∧
      (∀ id', id' ≠ id → get_node (fst out) id' = get_node v id')
  end.
Proof.
  intros Hid Hne. unfold handle_federation_tool. simpl. rewrite Hid.
  apply str_truthy_spec in Hne. rewrite Hne. simpl.
  destruct (get_node v id) as [node|] eqn:Hn; [done|].
  pose proof (register_node_stores_digest sha256_hex v id
                (default "node" (a_role args)) None entropy now saved_at written)
    as (Htok & Hrec & Hothers).
  split; [done|]. split; [reflexivity|]. split; [reflexivity|].
  split; [apply b64url_decode_encode|]. split; [exact Hrec|exact Hothers].
Qed.

(** *** The theorems at work on the example vaults *)

(** On the vault that pins [nodeA] to 10.0.0.5, a verification from that
    address with the right token succeeds and stamps the record. *)
Lemma verify_token_spec_witness :
  snd (verify_token sample_digest vault_pinned "nodeA" "T" (Some "10.0.0.5")
         "t1" "t2" true) = true ∧
  ∃ node, get_node vault_pinned "nodeA" = Some node ∧
          get_node (fst (verify_token sample_digest vault_pinned "nodeA" "T"
                           (Some "10.0.0.5") "t1" "t2" true)) "nodeA"
            = Some (with_last_seen "t1" node).
Proof.
  pose proof (verify_token_spec sample_digest vault_pinned "nodeA" "T"
                (Some "10.0.0.5") "t1" "t2" true) as (_ & Hstamp & _).
  assert (snd (verify_token sample_digest vault_pinned "nodeA" "T"
                 (Some "10.0.0.5") "t1" "t2" true) = true) as Hv by by vm_compute.
  split; [exact Hv|].
  destruct (Hstamp Hv) as (node & Hn & _ & Hrec & _). by exists node.
Defined.

(** Registering [nodeA] through the tool on the vault that holds it is
    refused, and the vault stays as it is. *)
Lemma federation_register_conflict_witness :
  a_node_id (mkToolArgs (Some "nodeA") None None) = Some "nodeA" ∧ "nodeA" ≠ "" ∧
  handle_federation_tool sample_digest vault_revoked "federation_register"
    (mkToolArgs (Some "nodeA") None None) sample_entropy "t1" "t2" true
  = (vault_revoked, ReplyError "Node nodeA already registered").
Proof.
  assert ("nodeA" ≠ "") as Hne by done.
  split; [reflexivity|]. split; [exact Hne|].
  exact (federation_register_conflict sample_digest vault_revoked
           (mkToolArgs (Some "nodeA") None None) "nodeA" sample_entropy
           "t1" "t2" true eq_refl Hne).
Defined.

(** Registering [nodeB] through the tool on the same vault succeeds. *)
Example federation_register_new_node :
  snd (handle_federation_tool sample_digest vault_revoked "federation_register"
         (mkToolArgs (Some "nodeB") (Some "hub") None) sample_entropy "t1" "t2" true)
  = ReplyRegistered "nodeB" "hub" "AAECAwQFBgcICQoLDA0ODxAREhMUFRYXGBkaGxwdHh8".
Proof. by vm_compute. Qed.

(** *** Revocation and rotation *)

(** A revoked node fails every verification. *)
Lemma revoke_then_verify_fails (sha256_hex : string → string) (v : FederationVault)
    (id token : string) (client_ip : option string) (t1 t2 t3 : string)
    (w1 w2 : bool) :
  snd (revoke_node v id t1 w1) = true →
  snd (verify_token sha256_hex (fst (revoke_node v id t1 w1)) id token client_ip
         t2 t3 w2) = false.
Proof.
  unfold revoke_node, verify_token.
  destruct (dict_lookup id (nodes v)) as [node|] eqn:Hn; [|done]. intros _.
  assert (dict_lookup id
            (nodes (fst (_save (set_nodes
                                  (dict_store id (with_active false node) (nodes v)) v)
                           t1 w1, true)))
          = Some (with_active false node)) as ->; [|done].
  destruct w1; simpl; apply dict_lookup_store_eq.
Qed.

(** The first two scenarios of the specification, with the sample digest:
    register, verify, revoke, verify; and register, rotate, verify with
    the old and with the new token. *)
Example register_verify_revoke :
  let '(v1, token) :=
    register_node sample_digest empty_vault "nodeA" "node" None sample_entropy
      "t1" "t1" true in
  let '(v2, ok) := verify_token sample_digest v1 "nodeA" token (Some "10.0.0.5")
                     "t2" "t2" true in
  let '(v3, revoked) := revoke_node v2 "nodeA" "t3" true in
  ok = true ∧ (last_seen <$> get_node v2 "nodeA") = Some (Some "t2") ∧
  revoked = true ∧ (active <$> get_node v3 "nodeA") = Some false ∧
  snd (verify_token sample_digest v3 "nodeA" token None "t4" "t4" true) = false.
Proof. by vm_compute. Qed.

Example rotate_invalidates_old_token :
  let '(v1, t_old) :=
    register_node sample_digest empty_vault "nodeB" "node" None sample_entropy
      "t1" "t1" true in
  let '(v2, t_new) :=
    rotate_token sample_digest v1 "nodeB" (λ i, sample_entropy (S i)) "t2" true in
  t_new ≠ Some t_old ∧
  snd (verify_token sample_digest v2 "nodeB" t_old None "t3" "t3" true) = false ∧
  snd (verify_token sample_digest v2 "nodeB" (default "" t_new) None "t3" "t3" true)
    = true.
Proof. by vm_compute. Qed.

End VaultProps.

(** ** Signed requests *)

Module EnvelopeProps.
Import Json Envelope.

(** An envelope signed at 1000000 is accepted 300 s later and 300 s
    earlier, that is at exactly the default window, and refused at 301 s. *)
Lemma request_at_window_is_accepted :
  verify_signed_request sample_int sample_dumps sample_hmac "psk"
    sample_request None default_max_age (1000000 + 300) = Some (JStr "hello") ∧
  verify_signed_request sample_int sample_dumps sample_hmac "psk"
    sample_request None default_max_age (1000000 - 300) = Some (JStr "hello") ∧
  verify_signed_request sample_int sample_dumps sample_hmac "psk"
    sample_request None default_max_age (1000000 + 301) = None.
Proof. by vm_compute. Qed.

Section boundary.
Variable py_int : string → option Z.
Variable json_dumps : json → string.
Variable hmac_sha256_hex : string → string → string.
Variable psk : string.

Lemma verify_signed_request_valid request secret max_age now ts t d :
  timestamp request = Some ts → data request = Some d → py_int ts = Some t →
  signature request =
    Some (hmac_sha256_hex (effective_secret psk secret)
            (signed_message json_dumps ts d)) →
  verify_signed_request py_int json_dumps hmac_sha256_hex psk request secret
    max_age now
  = if Z.abs (now - t) >? max_age then None else Some d.
Proof.
  intros Hts Hd Ht Hsig. unfold verify_signed_request.
  rewrite Hts, Hd, Hsig. simpl. rewrite Ht.
  destruct (Z.abs (now - t) >? max_age); [done|]. by rewrite String.eqb_refl.
Qed.

(** C5 (amended). For an envelope whose signature is valid, verification
    accepts when the timestamp differs from the current time by exactly
    the window, as it does for window minus one second and for every
    smaller difference, and refuses when the difference is the window
    plus one second or more: the test is [abs(now - timestamp) > max_age]. *)
Theorem replay_window_boundary request secret max_age now ts t d :
  timestamp request = Some ts → data request = Some d → py_int ts = Some t →
  signature request =
    Some (hmac_sha256_hex (effective_secret psk secret)
            (signed_message json_dumps ts d)) →
  let verdict :=
    verify_signed_request py_int json_dumps hmac_sha256_hex psk request secret
      max_age now in
  (Z.abs (now - t) = max_age → verdict = Some d) ∧
  (Z.abs (now - t) = max_age - 1 → verdict = Some d) ∧
  (Z.abs (now - t) ≤ max_age → verdict = Some d) ∧
  (Z.abs (now - t) = max_age + 1 → verdict = None) ∧
  (Z.abs (now - t) > max_age → verdict = None).
Proof.
  intros Hts Hd Ht Hsig verdict. subst verdict.
  rewrite (verify_signed_request_valid _ _ _ _ _ _ _ Hts Hd Ht Hsig).
  repeat split; intros H; destruct (Z.gtb_spec (Z.abs (now - t)) max_age);
    done || lia.
Qed.

(** A signature that does not match, or a timestamp that is no integer,
    is refused whatever the time. *)
Lemma verify_signed_request_refuses request secret max_age now :
  (py_int (default "0" (timestamp request)) = None ∨
   default "" (signature request) ≠
     hmac_sha256_hex (effective_secret psk secret)
       (signed_message json_dumps (default "0" (timestamp request))
          (default (JDict []) (data request)))) →
  verify_signed_request py_int json_dumps hmac_sha256_hex psk request secret
    max_age now = None.
Proof.
  unfold verify_signed_request. intros [-> | Hne]; [done|].
  destruct (py_int _); [|done]. destruct (_ >? _); [done|].
  apply String.eqb_neq in Hne. by rewrite Hne.
Qed.

End boundary.

(** The sample envelope, signed at 1000000, read 300 s later. *)
Lemma replay_window_boundary_witness :
  timestamp sample_request = Some "1000000" ∧
  data sample_request = Some (JStr "hello") ∧
  sample_int "1000000" = Some 1000000 ∧
  Z.abs (1000300 - 1000000) = default_max_age ∧
  verify_signed_request sample_int sample_dumps sample_hmac "psk"
    sample_request None default_max_age 1000300 = Some (JStr "hello").
Proof.
  split; [by vm_compute|]. split; [by vm_compute|]. split; [by vm_compute|].
  split; [by vm_compute|].
  apply (replay_window_boundary sample_int sample_dumps sample_hmac "psk"
           sample_request None default_max_age 1000300 "1000000" 1000000
           (JStr "hello")); by vm_compute.
Defined.

End EnvelopeProps.

(** ** Gossip *)

Module GossipProps.
Import Json Gossip.









End GossipProps.

(** ** The node registry: heartbeat thresholds *)

Module RegistryProps.
Import Json Registry.

(** The status of a registered node by the age of its last heartbeat:
    offline beyond 90 s, degraded beyond 60 s, else what it reported. *)
Lemma get_status_by_age (reg : NodeRegistry) (id : string) (info : NodeInfo)
    (seen now : Z) :
  nodes reg !! id = Some info → health reg !! id = Some seen →
  get_status reg id now =
    if now - seen >? 90000000 then "offline"
    else if now - seen >? 60000000 then "degraded"
    else status info.
Proof. intros Hn Hh. unfold get_status. rewrite Hn, Hh. reflexivity. Qed.

(** A node whose heartbeat is more than 90 s old is no candidate. *)
Lemma offline_is_no_candidate (reg : NodeRegistry) (model id : string)
    (info : NodeInfo) (seen now : Z) :
  nodes reg !! id = Some info → health reg !! id = Some seen →
  now - seen > 90000000 → is_candidate reg model now id = false.
Proof.
  intros Hn Hh Hage. unfold is_candidate.
  rewrite Hn, (get_status_by_age reg id info seen now Hn Hh).
  destruct (Z.gtb_spec (now - seen) 90000000); [done|lia].
Qed.

(** A heartbeat brings the node back to the status it reports. *)
Lemma heartbeat_restores_status (reg : NodeRegistry) (hb : NodeHeartbeat)
    (info : NodeInfo) (now later : Z) :
  nodes reg !! hb_node_id hb = Some info →
  later - now ≤ 60000000 →
  snd (heartbeat reg hb now) = true ∧
  get_status (fst (heartbeat reg hb now)) (hb_node_id hb) later = hb_status hb.
Proof.
  intros Hn Hage. unfold heartbeat. rewrite Hn. simpl. split; [done|].
  erewrite get_status_by_age; simpl; [|apply lookup_insert_eq..].
  destruct (Z.gtb_spec (later - now) 90000000); [lia|].
  by destruct (Z.gtb_spec (later - now) 60000000); [lia|].
Qed.

End RegistryProps.

(** ** The mesh hub: registration, teardown and delivery *)

Module HubCoverage.
Import Json Hub HubProps.

(** *** What a routed call raises *)



(** *** Unregistration *)

Lemma unregister_node_lookup s sid :
  wf s → nodes (unregister_node s sid) !! sid = None.
Proof.
  intros Hwf. unfold unregister_node, node_of.
  destruct (nodes s !! sid) as [r|] eqn:Hr; [|done].
  destruct (wf_nodes s Hwf _ _ Hr) as [n Hn]. rewrite Hn. simpl.
  apply lookup_delete_eq.
Qed.

Lemma unregister_node_not_connected s sid :
  is_connected (unregister_node s sid) sid = false.
Proof.
  unfold unregister_node, node_of.
  destruct (nodes s !! sid) as [r|] eqn:Hr.
  - destruct (heap s !! r) as [n|] eqn:Hn.
    + unfold is_connected, node_of. simpl. by rewrite lookup_delete_eq.
    + unfold is_connected, node_of. by rewrite Hr, Hn.
  - unfold is_connected, node_of. by rewrite Hr.
Qed.

(** A session that was unregistered is not connected and is never chosen
    as the provider of any tool, whatever the tool index still says; in a
    state the hub can reach it is no key of [nodes] any more, and a call
    that names it as its target fails with the "no provider" error and
    changes nothing. *)
Theorem unregistered_session_never_selected (s : HubState) (sid : string) :
  reachable s →
  let s' := unregister_node s sid in
  nodes s' !! sid = None ∧
  is_connected s' sid = false ∧
  (∀ tool_name, find_tool_provider s' tool_name ≠ Some sid) ∧
  (sid ≠ "" →
   ∀ tool_name arguments src deadline now io,
     route_tool_call s' tool_name arguments src (Some sid) deadline now io
       = (s', Return (ErrNoProvider tool_name))).
Proof.
  intros Hr s'. pose proof (reachable_wf s Hr) as Hwf.
  assert (nodes s' !! sid = None) as Hnone by by apply unregister_node_lookup.
  split; [done|]. split; [apply unregister_node_not_connected|]. split.
  - intros tool_name Hfind. apply find_tool_provider_connected in Hfind.
    subst s'. by rewrite unregister_node_not_connected in Hfind.
  - intros Hne tool_name arguments src deadline now io.
    unfold route_tool_call, choose_provider. simpl.
    apply str_truthy_spec in Hne. rewrite Hne, Hnone.
    rewrite bool_decide_eq_false_2; [done|]. by intros [? ?].
Qed.

(** P1 provides [echo] on the hub where it registered, and no longer once
    it is unregistered. *)
Lemma unregistered_session_never_selected_witness :
  reachable hub_one ∧
  find_tool_provider hub_one "echo" = Some "P1" ∧
  find_tool_provider (unregister_node hub_one "P1") "echo" ≠ Some "P1".
Proof.
  split; [apply reachable_hub_one|]. split; [by vm_compute|].
  apply (unregistered_session_never_selected hub_one "P1" reachable_hub_one).
Defined.

(** *** Registration *)

Lemma find_tool_provider_is_some s tool_name p :
  p ∈ default [] (tool_providers s !! tool_name) → is_connected s p = true →
  is_Some (find_tool_provider s tool_name).
Proof.
  intros Hin Hc. unfold find_tool_provider, connected_providers.
  destruct (List.filter _ _) as [|c0 rest] eqn:Hf.
  - assert (In p (List.filter (is_connected s)
                    (default [] (tool_providers s !! tool_name)))) as H.
    { apply filter_In. split; [by apply list_elem_of_In|done]. }
    by rewrite Hf in H.
  - destruct (find _ _); eauto.
Qed.

(** After a registration whose transport is open, the session is
    connected and every tool it advertised has a provider: the hub finds
    one for each of them. *)
Theorem register_node_provides_tools (s : HubState) (ws : nat)
    (params : RegisterParams) (fresh_sid : string) (now : Z) :
  let sid := default fresh_sid (p_session_id params) in
  let s' := fst (register_node s ws params fresh_sid now) in
  ws ∉ closed s' →
  is_connected s' sid = true ∧
  (∀ T, T ∈ default [] (p_tools params) →
        sid ∈ default [] (tool_providers s' !! T) ∧
        is_Some (find_tool_provider s' T)).
Proof.
  intros sid s' Hopen.
  assert (is_connected s' sid = true) as Hc.
  { apply is_connected_spec. eexists _, _. subst s'. simpl.
    rewrite lookup_insert_eq. split; [done|].
    rewrite lookup_insert_eq. split; [done|]. exact Hopen. }
  split; [done|]. intros T HT.
  assert (sid ∈ default [] (tool_providers s' !! T)) as Hin.
  { subst s'. simpl. by apply add_providers_added. }
  split; [done|]. by eapply find_tool_provider_is_some.
Qed.

(** The registration that made [hub_one]. *)
Lemma register_node_provides_tools_witness :
  (1%nat ∉ closed hub_one) ∧
  is_connected hub_one "P1" = true ∧
  (∀ T, T ∈ ["echo"; "render"] →
        "P1" ∈ default [] (tool_providers hub_one !! T) ∧
        is_Some (find_tool_provider hub_one T)).
Proof.
  assert (1%nat ∉ closed hub_one) as Hopen.
  { change (closed hub_one) with (∅ : gset nat). apply not_elem_of_empty. }
  split; [exact Hopen|].
  exact (register_node_provides_tools (init "t0") 1
           (advertise "P1" ["echo"; "render"]) "sess_0" 0 Hopen).
Defined.

(** *** A reconnect and the cleanup of the connection it replaced *)

(** A peer registers again under the session id of the record [r1],
    which an earlier connection registered and still refers to.  The
    registration closes the old transport and puts a new record under
    the id.  When the handler of the old connection then runs its
    cleanup, it unregisters by session id and so takes out the new
    record: the id is no key of [nodes] any more and is never chosen as a
    provider, although the new transport was not closed by anyone. *)
Theorem stale_cleanup_unregisters_new_connection (s : HubState) (ws2 : nat)
    (params : RegisterParams) (fresh_sid : string) (now : Z) (r1 : nat)
    (n1 : MeshNode) :
  heap s !! r1 = Some n1 →
  nodes s !! session_id n1 = Some r1 →
  p_session_id params = Some (session_id n1) →
  let out := register_node s ws2 params fresh_sid now in
  let s3 := handle_websocket_finally (fst out) (Some r1) in
  snd out ≠ r1 ∧
  nodes (fst out) !! session_id n1 = Some (snd out) ∧
  websocket n1 ∈ closed (fst out) ∧
  nodes s3 !! session_id n1 = None ∧
  closed s3 = closed (fst out) ∧
  (∀ tool_name, find_tool_provider s3 tool_name ≠ Some (session_id n1)).
Proof.
  intros Hn1 Hreg Hsid out s3.
  assert (snd out ≠ r1) as Hfresh.
  { subst out. simpl. intros Heq.
    pose proof (is_fresh (dom (heap s))) as Hf. rewrite Heq in Hf.
    apply Hf, elem_of_dom. eauto. }
  assert (heap (fst out) !! r1 = Some n1) as Hold.
  { subst out. simpl. rewrite lookup_insert_ne; [done|]. exact Hfresh. }
  assert (nodes (fst out) !! session_id n1 = Some (snd out)) as Hnew.
  { subst out. simpl. rewrite Hsid. simpl. by rewrite lookup_insert_eq. }
  assert (is_Some (heap (fst out) !! snd out)) as [n2 Hn2].
  { subst out. simpl. rewrite lookup_insert_eq. eauto. }
  assert (s3 = mkHub (heap (fst out)) (delete (session_id n1) (nodes (fst out)))
                 (pending_requests (fst out)) (_request_counter (fst out))
                 (fold_left (remove_provider (session_id n1)) (tools n2)
                    (tool_providers (fst out)))
                 (stats (fst out)) (closed (fst out)) (calls (fst out))) as Hs3.
  { subst s3. unfold handle_websocket_finally. rewrite Hold.
    unfold unregister_node, node_of. by rewrite Hnew, Hn2. }
  split; [done|]. split; [done|]. split.
  { subst out. simpl. unfold node_of. rewrite Hsid. simpl.
    rewrite Hreg, Hn1. set_solver. }
  rewrite Hs3. simpl. split; [apply lookup_delete_eq|]. split; [done|].
  intros tool_name Hfind. apply find_tool_provider_connected in Hfind.
  unfold is_connected, node_of in Hfind. simpl in Hfind.
  by rewrite lookup_delete_eq in Hfind.
Qed.

(** P1 reconnects over transport 2 while the handler of its first
    connection still holds record 0; that handler's cleanup then takes P1
    out of the table. *)
Lemma stale_cleanup_unregisters_new_connection_witness :
  let out := register_node hub_one 2 (advertise "P1" ["echo"]) "sess_1" 9 in
  heap hub_one !! 0%nat
    = Some (mkMeshNode "P1" "" 1 "guest" "" "" "" ["echo"; "render"] [] 0 0 0) ∧
  nodes (fst out) !! "P1" = Some (snd out) ∧
  (2%nat ∉ closed (fst out)) ∧
  nodes (handle_websocket_finally (fst out) (Some 0%nat)) !! "P1" = None.
Proof.
  pose proof (stale_cleanup_unregisters_new_connection hub_one 2
                (advertise "P1" ["echo"]) "sess_1" 9 0%nat
                (mkMeshNode "P1" "" 1 "guest" "" "" "" ["echo"; "render"] [] 0 0 0)
                eq_refl eq_refl eq_refl) as (_ & Hnew & _ & Hgone & _).
  cbv zeta. split; [reflexivity|]. split; [exact Hnew|]. split; [|exact Hgone].
  vm_compute. intros H. discriminate H.
Defined.

(** *** Deliveries *)

Lemma send_to_node_set_stats st s sid io :
  snd (send_to_node (set_stats st s) sid io) = snd (send_to_node s sid io).
Proof. unfold send_to_node, node_of. simpl. by repeat case_match. Qed.

Lemma send_to_node_total s sid io :
  total_messages (stats (fst (send_to_node s sid io)))
    = total_messages (stats s) + (if snd (send_to_node s sid io) then 1 else 0).
Proof.
  unfold send_to_node. destruct (node_of s sid) as [n|]; simpl; [|lia].
  destruct (bool_decide (websocket n ∈ closed s)); simpl; [lia|].
  destruct (io (websocket n)); simpl; lia.
Qed.

Lemma send_to_node_connected s sid io :
  snd (send_to_node s sid io) = true → is_connected s sid = true.
Proof.
  unfold send_to_node, is_connected. destruct (node_of s sid) as [n|]; [|done].
  by case_bool_decide.
Qed.

Lemma multicast_total s targets io :
  total_messages (stats (multicast s targets io))
    = total_messages (stats s)
      + Z.of_nat (length (List.filter (λ sid, snd (send_to_node s sid io)) targets)).
Proof.
  unfold multicast. revert s. induction targets as [|t ts IH]; intros s; simpl.
  - lia.
  - rewrite IH, send_to_node_total.
    destruct (send_to_node_stats_only s t io) as [st ->].
    rewrite (List.filter_ext _ (λ sid, snd (send_to_node s sid io)))
      by (intros a; apply send_to_node_set_stats).
    destruct (snd (send_to_node s t io)); simpl length; lia.
Qed.

(** [multicast] and [broadcast] change the statistics only, and the
    message count goes up by one for every frame that was written: for
    [multicast] that is every listed target (as often as it is listed)
    that is registered with an open transport on which the write goes
    through; for [broadcast] every such session that is not excluded. *)
Theorem multicast_counts_deliveries (s : HubState) (io : nat → bool) :
  (∀ targets,
     stats_only s (multicast s targets io) ∧
     total_messages (stats (multicast s targets io))
       = total_messages (stats s)
         + Z.of_nat (length (List.filter (λ sid, snd (send_to_node s sid io))
                               targets))) ∧
  (∀ exclude,
     stats_only s (broadcast s exclude io) ∧
     total_messages (stats (broadcast s exclude io))
       = total_messages (stats s)
         + Z.of_nat (length (List.filter
                               (λ sid, negb (bool_decide (sid ∈ exclude))
                                       && snd (send_to_node s sid io))
                               (fst <$> map_to_list (nodes s))))).
Proof.
  split.
  - intros targets. split; [apply multicast_stats_only|apply multicast_total].
  - intros exclude. split; [apply broadcast_stats_only|].
    unfold broadcast. rewrite multicast_total. do 2 f_equal.
    induction (fst <$> map_to_list (nodes s)) as [|a l IH]; [done|].
    simpl. destruct (snd (send_to_node s a io)) eqn:Hs.
    + rewrite (send_to_node_connected s a io Hs), !andb_true_r.
      destruct (negb (bool_decide (a ∈ exclude))); simpl; rewrite ?Hs; simpl;
        by rewrite IH.
    + rewrite andb_false_r.
      destruct (negb (bool_decide (a ∈ exclude)) && is_connected s a); simpl;
        rewrite ?Hs; exact IH.
Qed.

(** *** Responses *)

(** In every state the hub can reach, a frame that carries a [result]
    and the id of a pending request resolves that request with the
    result and takes it out of the table, whichever connection the frame
    came in on: the transport, the sender's registration and the
    target of the request are not looked at. *)
Theorem response_accepted_from_any_connection (s : HubState) (rid : string)
    (e : PendingRequest) (ws : nat) (node : option nat) (now : Z)
    (io : nat → bool) (method : option string) (params : Params) (result : json) :
  reachable s →
  pending_requests s !! rid = Some e →
  let out :=
    _handle_message s ws (mkMessage method (IdStr rid) params (Some result) None)
      node now io in
  snd out = Return () ∧
  pending_requests (fst out) !! rid = None ∧
  calls (fst out) !! rid = Some (Resolved (ByResult result)) ∧
  heap (fst out) = heap s ∧ nodes (fst out) = nodes s.
Proof.
  intros Hr He out. pose proof (reachable_wf s Hr) as Hwf.
  destruct (wf_pending s Hwf _ _ He) as [Hf Hc].
  subst out. unfold _handle_message.
  rewrite bool_decide_eq_true_2 by (left; simpl; eauto).
  unfold handle_response. simpl. rewrite He. simpl.
  unfold resolve_future. rewrite Hf. simpl. rewrite Hc. simpl.
  by rewrite lookup_delete_eq, lookup_insert_eq.
Qed.

(** The call that is pending in [hub_calling] is answered over transport
    99, on which nobody registered. *)
Lemma response_accepted_from_any_connection_witness :
  reachable hub_calling ∧
  is_Some (pending_requests hub_calling !! hub_id 1) ∧
  let out :=
    _handle_message hub_calling 99
      (mkMessage None (IdStr (hub_id 1)) no_params (Some (JStr "done")) None)
      None 8 link_down in
  snd out = Return () ∧
  calls (fst out) !! hub_id 1 = Some (Resolved (ByResult (JStr "done"))).
Proof.
  split; [apply reachable_hub_calling|].
  destruct (pending_requests hub_calling !! hub_id 1) as [e|] eqn:He;
    [|by vm_compute in He].
  split; [eauto|].
  destruct (response_accepted_from_any_connection hub_calling (hub_id 1) e 99 None
              8 link_down None no_params (JStr "done") reachable_hub_calling He)
    as (H1 & _ & H2 & _).
  split; [exact H1|exact H2].
Defined.

(** *** The tool index names a session at most once per tool *)

Lemma remove_first_elem x l y : y ∈ remove_first x l → y ∈ l.
Proof.
  induction l as [|a l IH]; simpl; [done|].
  destruct (String.eqb x a); [intros ?; apply elem_of_cons; by right|].
  intros [->|H]%elem_of_cons; [by left|]. right. by apply IH.
Qed.

Lemma remove_first_NoDup x l : NoDup l → NoDup (remove_first x l).
Proof.
  induction 1 as [|a l Ha Hl IH]; simpl; [constructor|].
  destruct (String.eqb x a); [done|].
  constructor; [|done]. intros H. by apply Ha, (remove_first_elem x).
Qed.

Lemma remove_first_gone x l : NoDup l → x ∉ remove_first x l.
Proof.
  induction 1 as [|a l Ha Hl IH]; simpl; [by apply not_elem_of_nil|].
  destruct (String.eqb_spec x a) as [->|Hne]; [done|].
  by intros [?|?]%elem_of_cons.
Qed.

Lemma remove_provider_lookup sid tp tool T :
  remove_provider sid tp tool !! T =
    if decide (tool = T) then
      Some (let l := default [] (tp !! T) in
            if bool_decide (sid ∈ l) then remove_first sid l else l)
    else tp !! T.
Proof.
  unfold remove_provider, providers_entry.
  case_decide as Heq.
  - subst T. destruct (tp !! tool) as [l|] eqn:E; simpl.
    + case_bool_decide; [by rewrite lookup_insert_eq|done].
    + by rewrite lookup_insert_eq.
  - destruct (tp !! tool) as [l|] eqn:E; simpl.
    + case_bool_decide; [by rewrite lookup_insert_ne|done].
    + by rewrite lookup_insert_ne.
Qed.

Lemma distinct_add_provider sid tp tool :
  distinct_providers tp → distinct_providers (add_provider sid tp tool).
Proof.
  intros Hd T l. rewrite add_provider_lookup. case_decide; [|apply Hd].
  intros [= <-]. simpl.
  assert (NoDup (default [] (tp !! T))) as Hl.
  { destruct (tp !! T) as [l0|] eqn:E; simpl; [by eapply Hd|constructor]. }
  case_bool_decide as Hin; [done|].
  apply NoDup_app. split; [done|]. split.
  - intros x Hx Hx'. apply list_elem_of_singleton in Hx'. by subst.
  - apply NoDup_singleton.
Qed.

Lemma distinct_remove_provider sid tp tool :
  distinct_providers tp → distinct_providers (remove_provider sid tp tool).
Proof.
  intros Hd T l. rewrite remove_provider_lookup. case_decide; [|apply Hd].
  intros [= <-]. simpl.
  assert (NoDup (default [] (tp !! T))) as Hl.
  { destruct (tp !! T) as [l0|] eqn:E; simpl; [by eapply Hd|constructor]. }
  case_bool_decide; [by apply remove_first_NoDup|done].
Qed.

Lemma distinct_add_providers sid ts tp :
  distinct_providers tp → distinct_providers (fold_left (add_provider sid) ts tp).
Proof.
  revert tp. induction ts as [|t ts IH]; intros tp Hd; simpl; [done|].
  by apply IH, distinct_add_provider.
Qed.

Lemma distinct_remove_providers sid ts tp :
  distinct_providers tp → distinct_providers (fold_left (remove_provider sid) ts tp).
Proof.
  revert tp. induction ts as [|t ts IH]; intros tp Hd; simpl; [done|].
  by apply IH, distinct_remove_provider.
Qed.

Lemma tool_providers_route_tool_call s tool_name arguments src tgt deadline now io :
  tool_providers (fst (route_tool_call s tool_name arguments src tgt deadline now io))
    = tool_providers s.
Proof.
  unfold route_tool_call.
  destruct (choose_provider s tool_name tgt) as [p|]; [|done].
  destruct (negb (str_truthy p)); [done|].
  destruct (nodes s !! p) as [r|]; [|done].
  destruct (heap s !! r) as [node|]; [|done].
  match goal with
  | |- context [send_to_node ?s1 p io] =>
      destruct (stats_only_fields _ _ (send_to_node_stats_only s1 p io))
        as (_ & _ & _ & _ & Htp & _);
      destruct (send_to_node s1 p io) as [s2 success]
  end.
  simpl in Htp. destruct success; simpl; by rewrite Htp.
Qed.

Lemma tool_providers_handle_response s rid result error :
  tool_providers (fst (handle_response s rid result error)) = tool_providers s.
Proof.
  unfold handle_response, resolve_future.
  destruct rid as [|b|n|k|l|d]; simpl; try done; try by destruct (bool_decide _). simpl.
  destruct (pending_requests s !! k) as [e|]; [|done]. simpl.
  destruct (truthy error).
  - destruct error; try done. simpl. by case_match; [case_match|].
  - simpl. by case_match; [case_match|].
Qed.

Lemma distinct_handle_message s ws data node now io :
  distinct_providers (tool_providers s) →
  distinct_providers (tool_providers (fst (_handle_message s ws data node now io))).
Proof.
  intros Hd. unfold _handle_message, reply.
  case_bool_decide; [by rewrite tool_providers_handle_response|].
  destruct (String.eqb _ "node/register"); [done|].
  destruct (String.eqb _ "ping").
  { destruct node; by case_match. }
  destruct (String.eqb _ "mesh/nodes"); [by case_match|].
  destruct (String.eqb _ "mesh/tools"); [by case_match|].
  destruct (String.eqb _ "tools/call").
  { match goal with
    | |- context [route_tool_call ?a ?b ?c ?d ?e ?f ?g ?h] =>
        pose proof (tool_providers_route_tool_call a b c d e f g h) as Hr;
        destruct (route_tool_call a b c d e f g h) as [s' c']
    end.
    simpl in Hr. destruct c'; [case_match|..]; simpl; by rewrite Hr. }
  destruct (String.eqb _ "mesh/broadcast").
  { match goal with
    | |- context [broadcast s ?b io] => generalize b; intros ex
    end.
    destruct (stats_only_fields _ _ (broadcast_stats_only s ex io))
      as (_ & _ & _ & _ & Htp & _).
    case_match; simpl; by rewrite Htp. }
  destruct (String.eqb _ "mesh/stats"); [by case_match|].
  destruct (String.eqb _ "tools/list"); [|done].
  destruct node as [r0|]; [|done]. destruct (heap s !! r0); [|done].
  simpl. by apply distinct_add_providers.
Qed.

Lemma distinct_step e s :
  distinct_providers (tool_providers s) →
  distinct_providers (tool_providers (step e s)).
Proof.
  intros Hd. destruct e; simpl.
  - by apply distinct_add_providers.
  - unfold unregister_node. repeat case_match; simpl; try done.
    by apply distinct_remove_providers.
  - by apply distinct_handle_message.
  - by rewrite tool_providers_route_tool_call.
  - by rewrite tool_providers_handle_response.
  - unfold route_timeout. by repeat case_match.
  - by destruct (stats_only_fields _ _ (send_to_node_stats_only s sid io))
      as (_ & _ & _ & _ & -> & _).
  - by destruct (stats_only_fields _ _ (broadcast_stats_only s exclude io))
      as (_ & _ & _ & _ & -> & _).
  - by destruct (stats_only_fields _ _ (multicast_stats_only s targets io))
      as (_ & _ & _ & _ & -> & _).
  - done.
Qed.

Lemma reachable_distinct s : reachable s → distinct_providers (tool_providers s).
Proof.
  induction 1 as [started|s e _ IH].
  - intros T l H. simpl in H. by rewrite lookup_empty in H.
  - by apply distinct_step.
Qed.

Lemma remove_providers_other sid ts tp T :
  T ∉ ts → fold_left (remove_provider sid) ts tp !! T = tp !! T.
Proof.
  revert tp. induction ts as [|t ts IH]; intros tp HT; simpl; [done|].
  rewrite IH by (intros ?; apply HT; by right).
  rewrite remove_provider_lookup. case_decide; [|done].
  subst. exfalso. apply HT. by left.
Qed.

Lemma remove_providers_stay_gone sid ts tp T :
  sid ∉ default [] (tp !! T) →
  sid ∉ default [] (fold_left (remove_provider sid) ts tp !! T).
Proof.
  revert tp. induction ts as [|t ts IH]; intros tp Hn; simpl; [done|].
  apply IH. rewrite remove_provider_lookup. case_decide; [|done]. simpl.
  by rewrite bool_decide_eq_false_2.
Qed.

Lemma remove_providers_gone sid ts tp T :
  distinct_providers tp → T ∈ ts →
  sid ∉ default [] (fold_left (remove_provider sid) ts tp !! T).
Proof.
  revert tp. induction ts as [|t ts IH]; intros tp Hd HT; simpl.
  - by apply elem_of_nil in HT.
  - destruct (decide (t = T)) as [->|Hne].
    + apply remove_providers_stay_gone.
      rewrite remove_provider_lookup, decide_True by done. simpl.
      case_bool_decide as Hin; [|done].
      apply remove_first_gone.
      destruct (tp !! T) as [l|] eqn:E; simpl; [by eapply Hd|constructor].
    + apply IH; [by apply distinct_remove_provider|].
      apply elem_of_cons in HT as [?|?]; [congruence|done].
Qed.

(** In every state the hub can reach, no list of the tool index names a
    session twice.  So when a registered session is unregistered, the one
    [remove] per tool takes it out of the list of every tool its record
    names, and the lists of the other tools are what they were. *)
Theorem provider_lists_name_a_session_once (s : HubState) :
  reachable s →
  (∀ T l, tool_providers s !! T = Some l → NoDup l) ∧
  (∀ sid n, node_of s sid = Some n →
     (∀ T, T ∈ tools n →
           sid ∉ default [] (tool_providers (unregister_node s sid) !! T)) ∧
     (∀ T, T ∉ tools n →
           tool_providers (unregister_node s sid) !! T = tool_providers s !! T)).
Proof.
  intros Hr. pose proof (reachable_distinct s Hr) as Hd. split; [exact Hd|].
  intros sid n Hn.
  assert (unregister_node s sid
          = mkHub (heap s) (delete sid (nodes s)) (pending_requests s)
              (_request_counter s)
              (fold_left (remove_provider sid) (tools n) (tool_providers s))
              (stats s) (closed s) (calls s)) as ->.
  { unfold unregister_node. rewrite Hn. unfold node_of in Hn.
    by destruct (nodes s !! sid). }
  simpl. split.
  - intros T HT. by apply remove_providers_gone.
  - intros T HT. by apply remove_providers_other.
Qed.

(** The three providers of [echo] in [hub_three], and the list after P2
    left. *)
Lemma provider_lists_name_a_session_once_witness :
  reachable hub_three ∧
  tool_providers hub_three !! "echo" = Some ["P1"; "P2"; "P3"] ∧
  NoDup ["P1"; "P2"; "P3"] ∧
  tool_providers (unregister_node hub_three "P2") !! "echo" = Some ["P1"; "P3"].
Proof.
  split; [apply reachable_hub_three|]. split; [by vm_compute|].
  split; [|by vm_compute].
  apply (proj1 (provider_lists_name_a_session_once hub_three reachable_hub_three)
           "echo").
  by vm_compute.
Defined.

(** *** What is routed is listed *)

Lemma find_tool_provider_listed s tool_name p :
  find_tool_provider s tool_name = Some p →
  p ∈ default [] (tool_providers s !! tool_name).
Proof.
  unfold find_tool_provider, connected_providers.
  destruct (List.filter _ _) as [|c0 rest] eqn:Hconn; [done|].
  assert (∀ q, In q (c0 :: rest) → q ∈ default [] (tool_providers s !! tool_name))
    as Hall.
  { intros q Hq. rewrite <- Hconn in Hq. apply filter_In in Hq as [Hq _].
    by apply list_elem_of_In. }
  destruct (find _ _) as [q|] eqn:Hfind.
  - intros [= <-]. apply find_some in Hfind as [Hin _]. by apply Hall.
  - intros [= <-]. apply Hall. by left.
Qed.

(** Every tool for which the hub finds a provider is in the list
    [get_aggregated_tools] gives, with the number of its providers,
    connected or not, and the first five of them; the provider found is
    one of the tool's providers and is connected. *)
Theorem routable_tools_are_listed (s : HubState) (tool_name p : string) :
  find_tool_provider s tool_name = Some p →
  ∃ l, tool_providers s !! tool_name = Some l ∧ p ∈ l ∧
       is_connected s p = true ∧
       get_aggregated_tools s !! tool_name = Some (length l, take 5 l) ∧
       (0 < length l)%nat.
Proof.
  intros Hfind. pose proof (find_tool_provider_listed s tool_name p Hfind) as Hin.
  destruct (tool_providers s !! tool_name) as [l|] eqn:Hl;
    [|by apply elem_of_nil in Hin].
  simpl in Hin. exists l. split; [done|]. split; [done|].
  split; [by eapply find_tool_provider_connected|].
  assert (l ≠ []) as Hne by (intros ->; by apply elem_of_nil in Hin).
  split.
  - unfold get_aggregated_tools. rewrite lookup_fmap.
    by rewrite (map_lookup_filter_Some_2 _ (tool_providers s) tool_name l).
  - destruct l; [done|simpl; lia].
Qed.

(** [echo] on [hub_three]. *)
Lemma routable_tools_are_listed_witness :
  find_tool_provider hub_three "echo" = Some "P1" ∧
  get_aggregated_tools hub_three !! "echo" = Some (3%nat, ["P1"; "P2"; "P3"]).
Proof.
  assert (find_tool_provider hub_three "echo" = Some "P1") as Hfind by by vm_compute.
  split; [exact Hfind|].
  destruct (routable_tools_are_listed hub_three "echo" "P1" Hfind)
    as (l & Hl & _ & _ & Hagg & _).
  assert (l = ["P1"; "P2"; "P3"]) as ->; [|exact Hagg].
  assert (tool_providers hub_three !! "echo" = Some ["P1"; "P2"; "P3"]) as Hl'
    by by vm_compute.
  congruence.
Defined.

End HubCoverage.

(** ** The federation vault: round trips and what a failure leaves *)

Module VaultCoverage.
Import Json Vault VaultProps.

Lemma nodes_save v t w : nodes (_save v t w) = nodes v.
Proof. by destruct w. Qed.

Lemma dict_lookup_elem {V : Type} (k : string) (v : V) (d : list (string * V)) :
  dict_lookup k d = Some v → (k, v) ∈ d.
Proof.
  induction d as [|[k' v'] d IH]; simpl; [done|].
  destruct (String.eqb_spec k k') as [->|Hne].
  - intros [= ->]. by left.
  - intros H. right. by apply IH.
Qed.

(** *** Register, then verify *)

(** The token [register_node] returns verifies for the node it was
    issued to.  More exactly, right after the registration a
    verification for that node succeeds exactly when the digest of the
    presented token is the digest of the issued one and the address test
    passes: no address list was given, or no client address is supplied,
    or the client address is on the list. *)
Theorem register_then_verify (sha256_hex : string → string) (v : FederationVault)
    (id node_role : string) (ips : option (list string))
    (entropy : nat → Byte.byte) (t1 s1 : string) (w1 : bool) :
  let out := register_node sha256_hex v id node_role ips entropy t1 s1 w1 in
  (∀ t2 s2 w2,
     snd (verify_token sha256_hex (fst out) id (snd out) None t2 s2 w2) = true) ∧
  (∀ token client_ip t2 s2 w2,
     snd (verify_token sha256_hex (fst out) id token client_ip t2 s2 w2)
     = String.eqb (sha256_hex token) (sha256_hex (snd out))
       && negb (match default [] ips with [] => false | _ => true end
                && opt_truthy client_ip
                && negb (bool_decide (default "" client_ip ∈ default [] ips)))).
Proof.
  intros out.
  destruct (register_node_stores_digest sha256_hex v id node_role ips entropy
              t1 s1 w1) as (_ & Hnode & _).
  fold out in Hnode. unfold get_node in Hnode.
  assert (∀ token client_ip t2 s2 w2,
     snd (verify_token sha256_hex (fst out) id token client_ip t2 s2 w2)
     = String.eqb (sha256_hex token) (sha256_hex (snd out))
       && negb (match default [] ips with [] => false | _ => true end
                && opt_truthy client_ip
                && negb (bool_decide (default "" client_ip ∈ default [] ips))))
    as Hall.
  { intros token client_ip t2 s2 w2. unfold verify_token. rewrite Hnode. simpl.
    destruct (match default [] ips with [] => false | _ => true end
              && opt_truthy client_ip
              && negb (bool_decide (default "" client_ip ∈ default [] ips)));
      simpl; [by rewrite andb_false_r|].
    rewrite andb_true_r.
    by destruct (String.eqb (sha256_hex token) _). }
  split; [|exact Hall].
  intros t2 s2 w2. rewrite Hall, String.eqb_refl. simpl.
  by rewrite andb_false_r.
Qed.

(** *** Rotation *)

(** Rotating the token of a registered node returns a new token and
    stores its digest; everything else in the record, its [active] flag
    included, and every other record stay as they were.  Afterwards a
    verification for the node succeeds exactly when the node is active
    and the presented token has the digest of the new one: the old token
    is only accepted if its digest is the same, and rotation does not
    bring a revoked node back. *)
Theorem rotate_then_verify (sha256_hex : string → string) (v : FederationVault)
    (id : string) (node : FederationNode) (entropy : nat → Byte.byte)
    (t1 : string) (w1 : bool) :
  get_node v id = Some node →
  let out := rotate_token sha256_hex v id entropy t1 w1 in
  let token := token_urlsafe entropy 32 in
  snd out = Some token ∧
  get_node (fst out) id = Some (with_token_hash (sha256_hex token) node) ∧
  (∀ id', id' ≠ id → get_node (fst out) id' = get_node v id') ∧
  (∀ presented t2 s2 w2,
     snd (verify_token sha256_hex (fst out) id presented None t2 s2 w2)
     = active node && String.eqb (sha256_hex presented) (sha256_hex token)).
Proof.
  intros Hn out token. unfold get_node in *. subst out. unfold rotate_token.
  rewrite Hn. simpl. fold token.
  assert (dict_lookup id
            (nodes (_save (set_nodes
                             (dict_store id (with_token_hash (sha256_hex token) node)
                                (nodes v)) v) t1 w1))
          = Some (with_token_hash (sha256_hex token) node)) as Hnew.
  { rewrite nodes_save. apply dict_lookup_store_eq. }
  split; [done|]. split; [exact Hnew|]. split.
  - intros id' Hne. rewrite nodes_save. by apply dict_lookup_store_ne.
  - intros presented t2 s2 w2. unfold verify_token. rewrite Hnew. simpl.
    destruct (active node); simpl; [|done].
    rewrite andb_false_r.
    by destruct (String.eqb (sha256_hex presented) (sha256_hex token)).
Qed.

(** Rotating the token of the revoked [nodeA]: the new token does not
    verify. *)
Lemma rotate_then_verify_witness :
  let out := rotate_token sample_digest vault_revoked "nodeA" sample_entropy "t" true in
  is_Some (get_node vault_revoked "nodeA") ∧
  snd out = Some (token_urlsafe sample_entropy 32) ∧
  snd (verify_token sample_digest (fst out) "nodeA"
         (token_urlsafe sample_entropy 32) None "t2" "t2" true) = false.
Proof.
  cbv zeta. split; [by eexists|].
  destruct (rotate_then_verify sample_digest vault_revoked "nodeA"
              (mkFederationNode "nodeA" (sample_digest "T") "node" []
                 "2026-01-01T00:00:00" None false)
              sample_entropy "t" true eq_refl) as (H1 & _ & _ & H2).
  split; [exact H1|]. by rewrite H2.
Defined.

(** *** Revocation *)

Lemma revoke_then_verify_fails_witness :
  snd (revoke_node vault_pinned "nodeA" "t1" true) = true ∧
  snd (verify_token sample_digest (fst (revoke_node vault_pinned "nodeA" "t1" true))
         "nodeA" "T" (Some "10.0.0.5") "t2" "t2" true) = false.
Proof.
  split; [reflexivity|].
  exact (revoke_then_verify_fails sample_digest vault_pinned "nodeA" "T"
           (Some "10.0.0.5") "t1" "t2" "t2" true true eq_refl).
Defined.

(** *** The tools *)

(** Whenever a vault tool answers with an error, lists the nodes or
    reports a token as invalid, the vault is what it was before the
    call: nothing is stored and nothing is written to the file. *)
Theorem federation_tool_failure_leaves_vault (sha256_hex : string → string)
    (v : FederationVault) (name : string) (args : ToolArgs)
    (entropy : nat → Byte.byte) (now saved_at : string) (written : bool) :
  let out := handle_federation_tool sha256_hex v name args entropy now saved_at written in
  match snd out with
  | ReplyError _ | ReplyNodes _ _ _ | ReplyVerified false _ => fst out = v
  | _ => True
  end.
Proof.
  unfold handle_federation_tool.
  destruct (String.eqb name "federation_nodes"); [done|].
  destruct (String.eqb name "federation_register").
  { destruct (a_node_id args) as [id|]; [|done].
    destruct (negb (str_truthy id)); [done|].
    by destruct (get_node v id). }
  destruct (String.eqb name "federation_revoke").
  { destruct (a_node_id args) as [id|]; [|done].
    unfold revoke_node. by destruct (dict_lookup id (nodes v)). }
  destruct (String.eqb name "federation_rotate").
  { destruct (a_node_id args) as [id|]; [|done].
    unfold rotate_token. destruct (dict_lookup id (nodes v)); [|done].
    by simpl. }
  destruct (String.eqb name "federation_verify"); [|done].
  destruct (a_node_id args) as [id|]; [|done].
  destruct (a_token args) as [token|].
  - unfold verify_token. destruct (dict_lookup id (nodes v)) as [node|]; [|done].
    destruct (negb (active node)); [done|].
    rewrite andb_false_r. simpl.
    by destruct (negb (String.eqb (sha256_hex token) (token_hash node))).
  - destruct (dict_lookup id (nodes v)) as [node|]; [|done].
    by destruct (active node).
Qed.

(** *** The tokens file *)

Lemma dict_store_old {V : Type} (k : string) (v : V) (d : list (string * V)) :
  k ∈ d.*1 → (dict_store k v d).*1 = d.*1.
Proof.
  induction d as [|[k' v'] d IH]; simpl.
  - intros H. by apply elem_of_nil in H.
  - destruct (String.eqb_spec k k') as [->|Hne]; [done|].
    intros [?|H]%elem_of_cons; [done|]. simpl. f_equal. by apply IH.
Qed.

Lemma dict_store_new {V : Type} (k : string) (v : V) (d : list (string * V)) :
  k ∉ d.*1 → dict_store k v d = d ++ [(k, v)].
Proof.
  induction d as [|[k' v'] d IH]; simpl; [done|].
  intros Hk. destruct (String.eqb_spec k k') as [->|Hne].
  - exfalso. apply Hk. by left.
  - f_equal. apply IH. intros H. apply Hk. by right.
Qed.

Lemma dict_store_elem {V : Type} (k : string) (v : V) (d : list (string * V)) k' v' :
  (k', v') ∈ dict_store k v d → (k', v') = (k, v) ∨ (k', v') ∈ d.
Proof.
  induction d as [|[k0 v0] d IH]; simpl.
  - intros H%list_elem_of_singleton. by left.
  - destruct (String.eqb k k0).
    + intros [?|?]%elem_of_cons; [by left|]. right. by right.
    + intros [->|H]%elem_of_cons; [right; by left|].
      destruct (IH H); [by left|]. right. by right.
Qed.

Lemma keyed_nil : keyed [].
Proof.
  split; [constructor|]. intros k n H. by apply elem_of_nil in H.
Qed.

Lemma keyed_store d k n : keyed d → node_id n = k → keyed (dict_store k n d).
Proof.
  intros [Hnd Hk] Hid. split.
  - destruct (decide (k ∈ d.*1)) as [Hin|Hout].
    + by rewrite dict_store_old.
    + rewrite dict_store_new, fmap_app by done. simpl.
      apply NoDup_app. split; [done|]. split; [|apply NoDup_singleton].
      intros x Hx Hx'%list_elem_of_singleton. by subst.
  - intros k' n' [[= -> ->]|H]%dict_store_elem; [done|]. by apply Hk.
Qed.

Lemma keyed_lookup d k n : keyed d → dict_lookup k d = Some n → node_id n = k.
Proof. intros [_ Hk] H. by apply Hk, dict_lookup_elem. Qed.

Lemma keyed_load file env_secret key_file :
  keyed (nodes (_load file env_secret key_file)).
Proof.
  unfold _load. simpl. destruct file as [f|]; [|apply keyed_nil].
  generalize (file_nodes f). intros l.
  generalize keyed_nil. generalize (@nil (string * FederationNode)).
  induction l as [|n l IH]; intros d Hd; simpl; [done|].
  apply IH. by apply keyed_store.
Qed.

Lemma load_values d acc :
  keyed (acc ++ d) →
  fold_left (λ t n, dict_store (node_id n) n t) (dict_values d) acc = acc ++ d.
Proof.
  revert acc. induction d as [|[k n] d IH]; intros acc Hk; simpl.
  - by rewrite app_nil_r.
  - destruct Hk as [Hnd Hkey].
    assert (node_id n = k) as Hid.
    { apply Hkey, elem_of_app. right. by left. }
    assert (k ∉ acc.*1) as Hnew.
    { rewrite fmap_app in Hnd. apply NoDup_app in Hnd as (_ & Hdisj & _).
      intros Hin. apply (Hdisj _ Hin). by left. }
    rewrite Hid, dict_store_new by done.
    rewrite IH; rewrite <- app_assoc; [done|]. by split.
Qed.

(** The node table of every vault keeps each record under its own
    [node_id], once: the table [_load] builds from any tokens file is
    such, and registering, verifying, revoking, rotating and every vault
    tool keep it so. *)
Theorem vault_tables_stay_keyed (sha256_hex : string → string) :
  (∀ file env_secret key_file, keyed (nodes (_load file env_secret key_file))) ∧
  (∀ v, keyed (nodes v) →
     (∀ id node_role ips entropy now saved_at written,
        keyed (nodes (fst (register_node sha256_hex v id node_role ips entropy
                             now saved_at written)))) ∧
     (∀ id token client_ip now saved_at written,
        keyed (nodes (fst (verify_token sha256_hex v id token client_ip
                             now saved_at written)))) ∧
     (∀ id saved_at written,
        keyed (nodes (fst (revoke_node v id saved_at written)))) ∧
     (∀ id entropy saved_at written,
        keyed (nodes (fst (rotate_token sha256_hex v id entropy saved_at written)))) ∧
     (∀ name args entropy now saved_at written,
        keyed (nodes (fst (handle_federation_tool sha256_hex v name args entropy
                             now saved_at written))))).
Proof.
  split; [apply keyed_load|]. intros v Hk.
  assert (∀ id node_role ips entropy now saved_at written,
            keyed (nodes (fst (register_node sha256_hex v id node_role ips entropy
                                 now saved_at written)))) as Hreg.
  { intros. unfold register_node. simpl. rewrite nodes_save. simpl.
    by apply keyed_store. }
  assert (∀ id token client_ip now saved_at written,
            keyed (nodes (fst (verify_token sha256_hex v id token client_ip
                                 now saved_at written)))) as Hver.
  { intros. unfold verify_token.
    destruct (dict_lookup id (nodes v)) as [node|] eqn:Hn; [|done].
    destruct (negb (active node)); [done|].
    destruct (_ && _ && _); [done|].
    destruct (negb (String.eqb _ _)); [done|].
    simpl. rewrite nodes_save. simpl.
    apply keyed_store; [done|]. simpl. by eapply keyed_lookup. }
  assert (∀ id saved_at written,
            keyed (nodes (fst (revoke_node v id saved_at written)))) as Hrev.
  { intros. unfold revoke_node.
    destruct (dict_lookup id (nodes v)) as [node|] eqn:Hn; [|done].
    simpl. rewrite nodes_save. simpl.
    apply keyed_store; [done|]. simpl. by eapply keyed_lookup. }
  assert (∀ id entropy saved_at written,
            keyed (nodes (fst (rotate_token sha256_hex v id entropy saved_at
                                 written)))) as Hrot.
  { intros. unfold rotate_token.
    destruct (dict_lookup id (nodes v)) as [node|] eqn:Hn; [|done].
    simpl. rewrite nodes_save. simpl.
    apply keyed_store; [done|]. simpl. by eapply keyed_lookup. }
  split; [exact Hreg|]. split; [exact Hver|]. split; [exact Hrev|].
  split; [exact Hrot|].
  intros name args entropy now saved_at written. unfold handle_federation_tool.
  destruct (String.eqb name "federation_nodes"); [done|].
  destruct (String.eqb name "federation_register").
  { destruct (a_node_id args) as [id|]; [|done].
    destruct (negb (str_truthy id)); [done|].
    destruct (get_node v id); [done|].
    specialize (Hreg id (default "node" (a_role args)) None entropy now saved_at
                  written).
    by destruct (register_node sha256_hex v id _ None entropy now saved_at written). }
  destruct (String.eqb name "federation_revoke").
  { destruct (a_node_id args) as [id|]; [|done].
    specialize (Hrev id saved_at written).
    destruct (revoke_node v id saved_at written) as [v' ok]. by destruct ok. }
  destruct (String.eqb name "federation_rotate").
  { destruct (a_node_id args) as [id|]; [|done].
    specialize (Hrot id entropy saved_at written).
    destruct (rotate_token sha256_hex v id entropy saved_at written) as [v' [tok|]];
      [|done].
    by destruct (str_truthy tok). }
  destruct (String.eqb name "federation_verify"); [|done].
  destruct (a_node_id args) as [id|]; [|done].
  destruct (a_token args) as [token|].
  - specialize (Hver id token None now saved_at written).
    by destruct (verify_token sha256_hex v id token None now saved_at written).
  - destruct (dict_lookup id (nodes v)) as [node|]; [|done].
    by destruct (active node).
Qed.

(** What [_save] writes, [_load] reads back as the same node table, in
    the same order, provided every record sits under its own [node_id]
    once (as it does in every vault, see above). *)
Theorem save_then_load_restores_table (v : FederationVault) (saved_at : string)
    (env_secret key_file : option string) :
  keyed (nodes v) →
  nodes (_load (tokens_file (_save v saved_at true)) env_secret key_file) = nodes v.
Proof.
  intros Hk. unfold _load, _save. simpl.
  by rewrite (load_values (nodes v) []).
Qed.

(** [vault_pinned] written and read back. *)
Lemma save_then_load_restores_table_witness :
  keyed (nodes vault_pinned) ∧
  nodes (_load (tokens_file (_save vault_pinned "t" true)) (Some "psk") None)
    = nodes vault_pinned.
Proof.
  assert (keyed (nodes vault_pinned)) as Hk.
  { split.
    - apply NoDup_singleton.
    - intros k n H. apply list_elem_of_singleton in H.
      injection H as Hk Hn. by rewrite Hk, Hn. }
  split; [exact Hk|].
  exact (save_then_load_restores_table vault_pinned "t" (Some "psk") None Hk).
Defined.

End VaultCoverage.

(** ** Signed requests: round trip and incomplete envelopes *)

Module EnvelopeCoverage.
Import Json Envelope EnvelopeProps.

(** What [create_signed_request] makes at time [created],
    [verify_signed_request] unwraps to the same data at every time that
    is no more than [max_age] away from it, when both sides use the same
    effective secret (an absent or empty secret stands for the module's
    key); further away it is refused.  The decimal text of the stamp
    must read back as the number it was written from. *)
Theorem create_then_verify (py_int : string → option Z) (json_dumps : json → string)
    (hmac_sha256_hex : string → string → string) (psk : string) (d : json)
    (secret secret' : option string) (created now max_age : Z) :
  py_int (pretty created) = Some created →
  effective_secret psk secret' = effective_secret psk secret →
  let request :=
    create_signed_request json_dumps hmac_sha256_hex psk d secret created in
  let verdict :=
    verify_signed_request py_int json_dumps hmac_sha256_hex psk request secret'
      max_age now in
  (Z.abs (now - created) ≤ max_age → verdict = Some d) ∧
  (Z.abs (now - created) > max_age → verdict = None).
Proof.
  intros Hint Hsecret request verdict. subst verdict.
  rewrite (verify_signed_request_valid py_int json_dumps hmac_sha256_hex psk
             request secret' max_age now (pretty created) created d);
    [|done|done|done|by rewrite Hsecret].
  split; intros H; destruct (Z.gtb_spec (Z.abs (now - created)) max_age);
    done || lia.
Qed.

(** An envelope made with no secret at 1000000 and verified with the empty
    secret 200 s later. *)
Lemma create_then_verify_witness :
  sample_int (pretty 1000000) = Some 1000000 ∧
  verify_signed_request sample_int sample_dumps sample_hmac "psk"
    (create_signed_request sample_dumps sample_hmac "psk" (JStr "hello") None
       1000000)
    (Some "") default_max_age 1000200 = Some (JStr "hello").
Proof.
  assert (sample_int (pretty 1000000) = Some 1000000) as Hint by by vm_compute.
  split; [exact Hint|].
  apply (proj1 (create_then_verify sample_int sample_dumps sample_hmac "psk"
                  (JStr "hello") None (Some "") 1000000 1000200 default_max_age
                  Hint eq_refl)).
  by vm_compute.
Defined.

(** An envelope signed with another key than the one it is verified
    with is refused. *)
Lemma verify_signed_request_refuses_witness :
  verify_signed_request sample_int sample_dumps sample_hmac "psk"
    (create_signed_request sample_dumps sample_hmac "psk" (JStr "hello")
       (Some "other") 1000000)
    None default_max_age 1000000 = None.
Proof.
  apply (verify_signed_request_refuses sample_int sample_dumps sample_hmac "psk").
  right. by vm_compute.
Defined.

(** An envelope without a [timestamp] is read as stamped at time 0, and
    so refused at every time more than [max_age] from 0, whatever its
    signature; an envelope without a [signature] is refused unless the
    keyed digest of the message is the empty text. *)
Theorem incomplete_envelope_is_refused (py_int : string → option Z)
    (json_dumps : json → string) (hmac_sha256_hex : string → string → string)
    (psk : string) (request : SignedRequest) (secret : option string)
    (max_age now : Z) :
  py_int "0" = Some 0 →
  let verdict :=
    verify_signed_request py_int json_dumps hmac_sha256_hex psk request secret
      max_age now in
  (timestamp request = None → max_age < Z.abs now → verdict = None) ∧
  (signature request = None →
   hmac_sha256_hex (effective_secret psk secret)
     (signed_message json_dumps (default "0" (timestamp request))
        (default (JDict []) (data request))) ≠ "" →
   verdict = None).
Proof.
  intros Hzero verdict. subst verdict. split.
  - intros Hts Hage. unfold verify_signed_request. rewrite Hts. simpl.
    rewrite Hzero, Z.sub_0_r.
    by destruct (Z.gtb_spec (Z.abs now) max_age); [|lia].
  - intros Hsig Hne. apply verify_signed_request_refuses. right.
    rewrite Hsig. simpl. congruence.
Qed.

(** An envelope without timestamp, signed as if stamped at 0. *)
Lemma incomplete_envelope_is_refused_witness :
  sample_int "0" = Some 0 ∧
  verify_signed_request sample_int sample_dumps sample_hmac "psk"
    (mkSignedRequest (Some (JStr "hello")) None
       (Some (sample_hmac "psk" "0:hello")))
    None default_max_age 1000000 = None.
Proof.
  split; [reflexivity|].
  apply (proj1 (incomplete_envelope_is_refused sample_int sample_dumps sample_hmac
                  "psk"
                  (mkSignedRequest (Some (JStr "hello")) None
                     (Some (sample_hmac "psk" "0:hello")))
                  None default_max_age 1000000 eq_refl)); [reflexivity|].
  unfold default_max_age. lia.
Defined.

End EnvelopeCoverage.

(** ** The node registry: registration and removal *)

Module RegistryCoverage.
Import Json Registry RegistryProps.

(** A node that has just registered is healthy for the next 60 s, with
    load 0 and the digest of the token it was handed stored for it,
    whatever the registry held for its id before; in that time it is a
    candidate for exactly the models it listed, or for every model when
    it is an API proxy. *)
Theorem register_then_status (sha256_hex : string → string) (reg : NodeRegistry)
    (node : NodeRegistration) (entropy : nat → Byte.byte)
    (registered now later : Z) :
  later - now ≤ 60000000 →
  let out := register sha256_hex reg node entropy registered now in
  get_status (fst out) (r_node_id node) later = "healthy" ∧
  (current_load <$> nodes (fst out) !! r_node_id node) = Some 0 ∧
  tokens (fst out) !! r_node_id node = Some (sha256_hex (snd out)) ∧
  (∀ model,
     is_candidate (fst out) model later (r_node_id node)
     = bool_decide (model ∈ r_models node) || String.eqb (r_role node) "api_proxy").
Proof.
  intros Hage out.
  assert (get_status (fst out) (r_node_id node) later = "healthy") as Hst.
  { erewrite get_status_by_age; [|subst out; simpl; apply lookup_insert_eq..].
    simpl. destruct (Z.gtb_spec (later - now) 90000000); [lia|].
    by destruct (Z.gtb_spec (later - now) 60000000); [lia|]. }
  split; [exact Hst|].
  split; [subst out; simpl; by rewrite lookup_insert_eq|].
  split; [subst out; simpl; by rewrite lookup_insert_eq|].
  intros model. unfold is_candidate. rewrite Hst. subst out. simpl.
  by rewrite lookup_insert_eq.
Qed.

(** The worker of [registry_one], 59 s after it registered. *)
Lemma register_then_status_witness :
  (59000000 - 0 ≤ 60000000) ∧
  get_status registry_one "w1" 59000000 = "healthy" ∧
  is_candidate registry_one "llama3" 59000000 "w1" = true.
Proof.
  assert (59000000 - 0 ≤ 60000000) as Hage by lia.
  split; [exact Hage|].
  destruct (register_then_status Vault.sample_digest (mkRegistry ∅ ∅ ∅) worker
              Vault.sample_entropy 0 0 59000000 Hage) as (H1 & _ & _ & H2).
  split; [exact H1|]. etrans; [exact (H2 "llama3")|reflexivity].
Defined.

(** [unregister] answers whether the node was registered.  Afterwards
    the node is unknown: it has no entry, no heartbeat time and no token
    digest, its status is "unknown", it is a candidate for no model, and
    a heartbeat in its name is refused and changes nothing.  When the
    node was not registered the registry is left as it was. *)
Theorem unregister_forgets (reg : NodeRegistry) (id : string) :
  let out := unregister reg id in
  snd out = bool_decide (is_Some (nodes reg !! id)) ∧
  (snd out = true →
     nodes (fst out) !! id = None ∧ health (fst out) !! id = None ∧
     tokens (fst out) !! id = None ∧
     ∀ id', id' ≠ id →
       nodes (fst out) !! id' = nodes reg !! id' ∧
       health (fst out) !! id' = health reg !! id' ∧
       tokens (fst out) !! id' = tokens reg !! id') ∧
  (snd out = false → fst out = reg) ∧
  (∀ now, get_status (fst out) id now = "unknown") ∧
  (∀ model now, is_candidate (fst out) model now id = false) ∧
  (∀ hb now, hb_node_id hb = id → heartbeat (fst out) hb now = (fst out, false)).
Proof.
  intros out. subst out. unfold unregister.
  destruct (nodes reg !! id) as [info|] eqn:Hn; simpl.
  - split; [done|]. split.
    { intros _. rewrite !lookup_delete_eq. repeat split; try done;
        by rewrite lookup_delete_ne. }
    split; [done|]. split; [|split].
    + intros now. unfold get_status. simpl. by rewrite lookup_delete_eq.
    + intros model now. unfold is_candidate. simpl. by rewrite lookup_delete_eq.
    + intros hb now <-. unfold heartbeat. simpl. by rewrite lookup_delete_eq.
  - split; [done|]. split; [done|]. split; [done|]. split; [|split].
    + intros now. unfold get_status. by rewrite Hn.
    + intros model now. unfold is_candidate. by rewrite Hn.
    + intros hb now <-. unfold heartbeat. by rewrite Hn.
Qed.

(** *** The existing threshold lemmas at work *)

Lemma offline_is_no_candidate_witness :
  (90000001 - 0 > 90000000) ∧
  is_candidate registry_one "llama3" 90000000 "w1" = true ∧
  is_candidate registry_one "llama3" 90000001 "w1" = false.
Proof.
  assert (90000001 - 0 > 90000000) as Hage by lia.
  split; [exact Hage|]. split; [reflexivity|].
  refine (offline_is_no_candidate registry_one "llama3" "w1" _ 0 90000001 _ _ Hage).
  - unfold registry_one. simpl. apply lookup_insert_eq.
  - unfold registry_one. simpl. apply lookup_insert_eq.
Defined.

(** The worker of [registry_one], offline at 100 s, sends a heartbeat. *)
Lemma heartbeat_restores_status_witness :
  get_status registry_one "w1" 100000000 = "offline" ∧
  get_status (fst (heartbeat registry_one (mkHeartbeat "w1" "healthy" 3 (JDict []))
                     100000000)) "w1" 100000001 = "healthy".
Proof.
  split; [reflexivity|].
  refine (proj2 (heartbeat_restores_status registry_one
                   (mkHeartbeat "w1" "healthy" 3 (JDict [])) _ 100000000 100000001
                   _ _)).
  - unfold registry_one. simpl. apply lookup_insert_eq.
  - lia.
Defined.

End RegistryCoverage.

(** ** Health checks and node selection of the server federation *)

Module FederationProps.
Import Json Federation.

Lemma check_node_failed n resp now :
  failed resp = true → _check_node n resp now = _handle_node_failure n.
Proof.
  destruct resp as [|code b]; simpl; [done|].
  by destruct (code =? 200).
Qed.

(** Failures of a node that is already counted out: it stays OFFLINE and
    no failover is triggered again. *)
Lemma offline_rounds n rounds :
  status n = OFFLINE → 3 ≤ consecutive_failures n →
  forallb (λ r, failed (fst r)) rounds = true →
  status (fst (check_rounds n rounds)) = OFFLINE ∧
  consecutive_failures (fst (check_rounds n rounds))
    = consecutive_failures n + Z.of_nat (length rounds) ∧
  Forall (λ flag, flag = false) (snd (check_rounds n rounds)).
Proof.
  revert n. induction rounds as [|[resp now] rest IH]; intros n Hs Hc Hf.
  - simpl. split; [done|]. split; [lia|constructor].
  - simpl in Hf. apply andb_true_iff in Hf as [Hr Hrest].
    simpl. rewrite (check_node_failed n resp now Hr).
    unfold _handle_node_failure, FAILURE_THRESHOLD.
    destruct (Z.leb_spec 3 (consecutive_failures n + 1)); [|lia].
    rewrite Hs. simpl.
    match goal with
    | |- context [check_rounds ?m rest] =>
        destruct (IH m) as (H1 & H2 & H3); [done|simpl; lia|done|];
        destruct (check_rounds m rest) as [n2 flags]
    end.
    simpl in *. split; [done|]. split; [lia|]. by constructor.
Qed.

Lemma handle_node_failure_fields n :
  consecutive_failures (fst (_handle_node_failure n)) = consecutive_failures n + 1 ∧
  status (fst (_handle_node_failure n))
    = (if 3 <=? consecutive_failures n + 1 then OFFLINE else DEGRADED) ∧
  snd (_handle_node_failure n)
    = (3 <=? consecutive_failures n + 1) && negb (status_eqb (status n) OFFLINE).
Proof.
  unfold _handle_node_failure, FAILURE_THRESHOLD.
  by destruct (3 <=? consecutive_failures n + 1).
Qed.

(** A healthy node whose checks fail from now on (no answer, or a status
    other than 200): after the first and the second failure it is
    DEGRADED, from the third on it is OFFLINE; the failover is triggered
    by the third failure and by no other; the failure count is the
    number of failed checks, and the node is not available after any of
    them. *)
Theorem third_failure_takes_offline (n : FederationNode)
    (rounds : list (response * Z)) :
  status n = HEALTHY → consecutive_failures n = 0 →
  forallb (λ r, failed (fst r)) rounds = true →
  rounds ≠ [] →
  let out := check_rounds n rounds in
  consecutive_failures (fst out) = Z.of_nat (length rounds) ∧
  status (fst out) = (if (length rounds <? 3)%nat then DEGRADED else OFFLINE) ∧
  is_available (fst out) = false ∧
  (∀ i flag, snd out !! i = Some flag → flag = bool_decide (i = 2%nat)).
Proof.
  intros Hs Hc Hf Hne out. subst out.
  destruct rounds as [|[r1 t1] rest]; [done|]. clear Hne.
  simpl in Hf. apply andb_true_iff in Hf as [Hr1 Hf].
  simpl. rewrite (check_node_failed n r1 t1 Hr1).
  destruct (handle_node_failure_fields n) as (A1 & A2 & A3).
  destruct (_handle_node_failure n) as [n1 f1]. simpl in A1, A2, A3.
  rewrite Hc in A1, A2, A3. rewrite Hs in A3. simpl in A1, A2, A3. subst f1.
  destruct rest as [|[r2 t2] rest].
  { simpl. split; [done|]. split; [done|].
    split; [unfold is_available; by rewrite A2|].
    intros [|i] flag; simpl; [by intros [= <-]|done]. }
  simpl in Hf. apply andb_true_iff in Hf as [Hr2 Hf].
  simpl. rewrite (check_node_failed n1 r2 t2 Hr2).
  destruct (handle_node_failure_fields n1) as (B1 & B2 & B3).
  destruct (_handle_node_failure n1) as [n2 f2]. simpl in B1, B2, B3.
  rewrite A1 in B1, B2, B3. rewrite A2 in B3. simpl in B1, B2, B3. subst f2.
  destruct rest as [|[r3 t3] rest].
  { simpl. split; [done|]. split; [done|].
    split; [unfold is_available; by rewrite B2|].
    intros [|[|i]] flag; simpl; [by intros [= <-]|by intros [= <-]|done]. }
  simpl in Hf. apply andb_true_iff in Hf as [Hr3 Hf].
  simpl. rewrite (check_node_failed n2 r3 t3 Hr3).
  destruct (handle_node_failure_fields n2) as (C1 & C2 & C3).
  destruct (_handle_node_failure n2) as [n3 f3]. simpl in C1, C2, C3.
  rewrite B1 in C1, C2, C3. rewrite B2 in C3. simpl in C1, C2, C3. subst f3.
  destruct (offline_rounds n3 rest) as (H1 & H2 & H3); [done|lia|done|].
  destruct (check_rounds n3 rest) as [n4 flags]. simpl in H1, H2, H3. simpl.
  split; [lia|]. split; [done|]. split; [unfold is_available; by rewrite H1|].
  intros [|[|[|i]]] flag; simpl; try by intros [= <-].
  intros Hi. rewrite Forall_forall in H3.
  by rewrite (H3 flag) by (by eapply list_elem_of_lookup_2).
Qed.

(** A configured node after one good check and four failed ones. *)
Lemma third_failure_takes_offline_witness :
  let n := fst (_check_node (known_node "backup") (Answer 200 NoModels) 0) in
  let out :=
    check_rounds n [(NoResponse, 30); (Answer 503 NoModels, 60); (NoResponse, 90);
                    (NoResponse, 120)] in
  status n = HEALTHY ∧ status (fst out) = OFFLINE ∧
  snd out = [false; false; true; false].
Proof.
  cbv zeta.
  destruct (third_failure_takes_offline
              (fst (_check_node (known_node "backup") (Answer 200 NoModels) 0))
              [(NoResponse, 30); (Answer 503 NoModels, 60); (NoResponse, 90);
               (NoResponse, 120)] eq_refl eq_refl eq_refl)
    as (_ & H & _); [done|].
  split; [reflexivity|]. split; [exact H|reflexivity].
Defined.

Lemma check_rounds_cons n resp now rest :
  check_rounds n ((resp, now) :: rest)
  = (fst (check_rounds (fst (_check_node n resp now)) rest),
     snd (_check_node n resp now)
       :: snd (check_rounds (fst (_check_node n resp now)) rest)).
Proof.
  simpl. destruct (_check_node n resp now) as [n1 f1]. simpl.
  by destruct (check_rounds n1 rest).
Qed.

Lemma unreadable_body_step n t :
  status (fst (_check_node n (Answer 200 Undecodable) t)) = DEGRADED ∧
  consecutive_failures (fst (_check_node n (Answer 200 Undecodable) t)) = 1 ∧
  last_heartbeat (fst (_check_node n (Answer 200 Undecodable) t)) = Some t ∧
  total_errors (fst (_check_node n (Answer 200 Undecodable) t)) = total_errors n + 1 ∧
  snd (_check_node n (Answer 200 Undecodable) t) = false.
Proof. done. Qed.

(** A node that answers 200 with a body that cannot be read is marked
    healthy and its failure count is set to 0 before the body is read,
    and the failure is counted after that.  So whatever the node was
    before, it is DEGRADED with one failure after such a check, and after
    any number of such checks in a row: it never goes OFFLINE, no
    failover is triggered, and it is never available. *)
Theorem unreadable_body_never_offline (n : FederationNode) (t0 : Z) (times : list Z) :
  let out := check_rounds n (map (λ t, (Answer 200 Undecodable, t)) (t0 :: times)) in
  status (fst out) = DEGRADED ∧
  consecutive_failures (fst out) = 1 ∧
  is_available (fst out) = false ∧
  last_heartbeat (fst out) = Some (List.last times t0) ∧
  total_errors (fst out) = total_errors n + Z.of_nat (length (t0 :: times)) ∧
  Forall (λ flag, flag = false) (snd out).
Proof.
  cbv zeta. revert n t0. induction times as [|t1 times IH]; intros n t0.
  - destruct (unreadable_body_step n t0) as (H1 & H2 & H3 & H4 & H5).
    change (map (λ t, (Answer 200 Undecodable, t)) [t0])
      with [(Answer 200 Undecodable, t0)].
    rewrite check_rounds_cons. cbn [check_rounds fst snd List.last length].
    rewrite H1, H2, H3, H4, H5. unfold is_available. rewrite H1.
    repeat split; try done. by repeat constructor.
  - destruct (unreadable_body_step n t0) as (_ & _ & _ & H4 & H5).
    destruct (IH (fst (_check_node n (Answer 200 Undecodable) t0)) t1)
      as (I1 & I2 & I3 & I4 & I5 & I6).
    change (map (λ t, (Answer 200 Undecodable, t)) (t0 :: t1 :: times))
      with ((Answer 200 Undecodable, t0)
              :: map (λ t, (Answer 200 Undecodable, t)) (t1 :: times)).
    rewrite check_rounds_cons. cbn [fst snd].
    rewrite I1, I2, I3, I5, H4, H5.
    split; [done|]. split; [done|]. split; [done|].
    split; [|split; [cbn [length]; lia|by constructor]].
    rewrite I4. f_equal. clear. revert t0 t1.
    induction times as [|a l IHl]; intros t0 t1; [done|].
    change (List.last (t1 :: a :: l) t0) with (List.last (a :: l) t0).
    by rewrite <- (IHl t1 a), <- (IHl t0 a).
Qed.

(** The heartbeat route marks a known node healthy and stamps it, but
    leaves its failure count: a node with two failures that sends a
    heartbeat is healthy again, and the next failed check takes it
    straight to OFFLINE and triggers the failover.  A heartbeat in the
    name of an unknown node, or without a name, changes nothing. *)
Theorem heartbeat_keeps_failure_count (nodes : NodeTable) (id : string)
    (n : FederationNode) (now : Z) :
  id ≠ "" → Vault.dict_lookup id nodes = Some n →
  let out := receive_heartbeat nodes (Some id) now in
  snd out = true ∧
  (∃ n', Vault.dict_lookup id (fst out) = Some n' ∧
         status n' = HEALTHY ∧ last_heartbeat n' = Some now ∧
         consecutive_failures n' = consecutive_failures n ∧
         is_available n' = (current_load n <? max_concurrent n) ∧
         (2 ≤ consecutive_failures n →
          ∀ resp t, failed resp = true →
            status (fst (_check_node n' resp t)) = OFFLINE ∧
            snd (_check_node n' resp t) = true)) ∧
  (∀ id', id' ≠ id → Vault.dict_lookup id' (fst out) = Vault.dict_lookup id' nodes) ∧
  receive_heartbeat nodes None now = (nodes, false) ∧
  (∀ ghost, Vault.dict_lookup ghost nodes = None →
            receive_heartbeat nodes (Some ghost) now = (nodes, false)).
Proof.
  intros Hne Hn out. subst out. unfold receive_heartbeat at 1 2 3. simpl.
  apply str_truthy_spec in Hne. rewrite Hne, Hn. simpl.
  split; [done|]. split.
  - eexists. split; [apply VaultProps.dict_lookup_store_eq|]. simpl.
    split; [done|]. split; [done|]. split; [done|]. split; [done|].
    intros Hc resp t Hf. rewrite (check_node_failed _ resp t Hf).
    unfold _handle_node_failure, FAILURE_THRESHOLD. simpl.
    by destruct (Z.leb_spec 3 (consecutive_failures n + 1)); [|lia].
  - split; [intros id' Hid; by apply VaultProps.dict_lookup_store_ne|].
    split; [done|]. intros ghost Hg. unfold receive_heartbeat. simpl.
    rewrite Hg. by destruct (str_truthy ghost).
Qed.

(** A node with two failures sends a heartbeat. *)
Lemma heartbeat_keeps_failure_count_witness :
  let two_failures :=
    fst (check_rounds (fst (_check_node (known_node "backup") (Answer 200 NoModels) 0))
           [(NoResponse, 30); (NoResponse, 60)]) in
  let out := receive_heartbeat [("backup", two_failures)] (Some "backup") 70 in
  status two_failures = DEGRADED ∧ snd out = true ∧
  (status <$> Vault.dict_lookup "backup" (fst out)) = Some HEALTHY.
Proof.
  cbv zeta. split; [reflexivity|].
  destruct (heartbeat_keeps_failure_count
              [("backup",
                fst (check_rounds
                       (fst (_check_node (known_node "backup") (Answer 200 NoModels) 0))
                       [(NoResponse, 30); (NoResponse, 60)]))]
              "backup" _ 70 ltac:(discriminate) eq_refl) as (H & _).
  split; [exact H|reflexivity].
Defined.

(** *** Choosing a node *)

Section selection_props.
Context {K : Type} (truediv : Z → Z → option K) (key_lt : K → K → bool).

(** What is asked of the comparison of two keys: it is a strict order in
    which "not smaller" is transitive, as [<] is on the floats that a
    division gives. *)
Hypothesis key_lt_irrefl : ∀ k, key_lt k k = false.
Hypothesis key_lt_trans :
  ∀ a b c, key_lt a b = true → key_lt b c = true → key_lt a c = true.
Hypothesis key_lt_cotrans :
  ∀ a b c, key_lt a b = true → key_lt a c = true ∨ key_lt c b = true.

Lemma min_by_load_spec rest :
  ∀ l1 best best_key l2,
    truediv (current_load best) (max_concurrent best) = Some best_key →
    (∀ m, m ∈ l1 ++ best :: l2 →
          ∃ km, truediv (current_load m) (max_concurrent m) = Some km ∧
                key_lt km best_key = false) →
    (∀ m, m ∈ l1 →
          ∃ km, truediv (current_load m) (max_concurrent m) = Some km ∧
                key_lt best_key km = true) →
    match min_by_load truediv key_lt best best_key rest with
    | Chosen n =>
        ∃ l1' l2' k,
          l1 ++ best :: l2 ++ rest = l1' ++ n :: l2' ∧
          truediv (current_load n) (max_concurrent n) = Some k ∧
          (∀ m, m ∈ l1 ++ best :: l2 ++ rest →
                ∃ km, truediv (current_load m) (max_concurrent m) = Some km ∧
                      key_lt km k = false) ∧
          (∀ m, m ∈ l1' →
                ∃ km, truediv (current_load m) (max_concurrent m) = Some km ∧
                      key_lt k km = true)
    | Raises =>
        ∃ m, m ∈ rest ∧ truediv (current_load m) (max_concurrent m) = None
    | NoNode => False
    end.
Proof.
  induction rest as [|x rest IH]; intros l1 best best_key l2 Hbest Hmin Hfirst.
  - simpl. exists l1, l2, best_key. rewrite app_nil_r. eauto.
  - simpl. destruct (truediv (current_load x) (max_concurrent x)) as [kx|] eqn:Hx.
    2:{ exists x. split; [by left|done]. }
    destruct (key_lt kx best_key) eqn:Hlt.
    + specialize (IH (l1 ++ best :: l2) x kx [] Hx).
      replace ((l1 ++ best :: l2) ++ x :: [] ++ rest)
        with (l1 ++ best :: l2 ++ x :: rest) in IH
        by (by rewrite <- app_assoc).
      destruct (min_by_load truediv key_lt x kx rest) as [| |n].
      * destruct IH as (m & Hm & Hnone).
        -- intros m [Hm|Hm]%elem_of_app.
           ++ destruct (Hmin m Hm) as (km & Hkm & Hle). exists km. split; [done|].
              destruct (key_lt km kx) eqn:E; [|done].
              by rewrite (key_lt_trans _ _ _ E Hlt) in Hle.
           ++ apply list_elem_of_singleton in Hm as ->. eauto.
        -- intros m Hm. destruct (Hmin m Hm) as (km & Hkm & Hle).
           exists km. split; [done|].
           destruct (key_lt_cotrans _ _ km Hlt) as [?|E]; [done|congruence].
        -- exists m. split; [by right|done].
      * apply IH.
        -- intros m [Hm|Hm]%elem_of_app.
           ++ destruct (Hmin m Hm) as (km & Hkm & Hle). exists km. split; [done|].
              destruct (key_lt km kx) eqn:E; [|done].
              by rewrite (key_lt_trans _ _ _ E Hlt) in Hle.
           ++ apply list_elem_of_singleton in Hm as ->. eauto.
        -- intros m Hm. destruct (Hmin m Hm) as (km & Hkm & Hle).
           exists km. split; [done|].
           destruct (key_lt_cotrans _ _ km Hlt) as [?|E]; [done|congruence].
      * apply IH.
        -- intros m [Hm|Hm]%elem_of_app.
           ++ destruct (Hmin m Hm) as (km & Hkm & Hle). exists km. split; [done|].
              destruct (key_lt km kx) eqn:E; [|done].
              by rewrite (key_lt_trans _ _ _ E Hlt) in Hle.
           ++ apply list_elem_of_singleton in Hm as ->. eauto.
        -- intros m Hm. destruct (Hmin m Hm) as (km & Hkm & Hle).
           exists km. split; [done|].
           destruct (key_lt_cotrans _ _ km Hlt) as [?|E]; [done|congruence].
    + specialize (IH l1 best best_key (l2 ++ [x]) Hbest).
      replace (l1 ++ best :: (l2 ++ [x]) ++ rest)
        with (l1 ++ best :: l2 ++ x :: rest) in IH
        by (by rewrite <- app_assoc).
      assert (∀ m, m ∈ l1 ++ best :: l2 ++ [x] →
                ∃ km, truediv (current_load m) (max_concurrent m) = Some km ∧
                      key_lt km best_key = false) as Hmin'.
      { intros m Hm.
        replace (l1 ++ best :: l2 ++ [x]) with ((l1 ++ best :: l2) ++ [x]) in Hm
          by (by rewrite <- app_assoc).
        apply elem_of_app in Hm as [Hm|Hm]; [by apply Hmin|].
        apply list_elem_of_singleton in Hm as ->. eauto. }
      destruct (min_by_load truediv key_lt best best_key rest) as [| |n].
      * destruct (IH Hmin' Hfirst) as (m & Hm & Hnone).
        exists m. split; [by right|done].
      * by apply IH.
      * by apply IH.
Qed.

(** [get_available_node] chooses among the nodes of the table that are
    HEALTHY, below their capacity and, when a model is asked for, list
    the model or list no model at all.  It returns [None] exactly when
    there is no such node, and raises only when the load ratio of one of
    them cannot be computed.  The node it returns is one of them, no
    other has a smaller load ratio, and it is the first in the table
    among those with the smallest ratio. *)
Theorem get_available_node_least_loaded (nodes : NodeTable) (model : option string) :
  (∀ n, n ∈ candidates nodes model →
        n ∈ Vault.dict_values nodes ∧ status n = HEALTHY ∧
        current_load n < max_concurrent n ∧
        (opt_truthy model = true →
         default "" model ∈ models n ∨ models n = [])) ∧
  match get_available_node truediv key_lt nodes model with
  | NoNode => candidates nodes model = []
  | Raises =>
      ∃ m, m ∈ candidates nodes model ∧
           truediv (current_load m) (max_concurrent m) = None
  | Chosen n =>
      ∃ l1 l2 k,
        candidates nodes model = l1 ++ n :: l2 ∧
        truediv (current_load n) (max_concurrent n) = Some k ∧
        (∀ m, m ∈ candidates nodes model →
              ∃ km, truediv (current_load m) (max_concurrent m) = Some km ∧
                    key_lt km k = false) ∧
        (∀ m, m ∈ l1 →
              ∃ km, truediv (current_load m) (max_concurrent m) = Some km ∧
                    key_lt k km = true)
  end.
Proof.
  split.
  - intros n Hn.
    assert (n ∈ List.filter is_available (Vault.dict_values nodes) ∧
            (opt_truthy model = true → supports (default "" model) n = true))
      as [Hav Hsup].
    { unfold candidates in Hn. destruct (opt_truthy model); [|done].
      apply list_elem_of_In, filter_In in Hn as [Hn Hs].
      split; [by apply list_elem_of_In|done]. }
    apply list_elem_of_In, filter_In in Hav as [Hin Hav].
    unfold is_available in Hav. apply andb_true_iff in Hav as [Hst Hload].
    split; [by apply list_elem_of_In|].
    split; [by destruct (status n)|]. split; [by apply Z.ltb_lt|].
    intros Hm. specialize (Hsup Hm). unfold supports in Hsup.
    apply orb_true_iff in Hsup as [H|H].
    + left. by apply bool_decide_eq_true in H.
    + right. by destruct (models n).
  - unfold get_available_node.
    destruct (candidates nodes model) as [|n0 rest]; [done|].
    destruct (truediv (current_load n0) (max_concurrent n0)) as [k0|] eqn:H0.
    2:{ exists n0. split; [by left|done]. }
    pose proof (min_by_load_spec rest [] n0 k0 [] H0) as Hspec.
    destruct (min_by_load truediv key_lt n0 k0 rest) as [| |n].
    + destruct Hspec as (m & Hm & Hnone).
      * intros m Hm. apply list_elem_of_singleton in Hm as ->. eauto.
      * intros m Hm. by apply elem_of_nil in Hm.
      * exists m. split; [by right|done].
    + exfalso. apply Hspec.
      * intros m Hm. apply list_elem_of_singleton in Hm as ->. eauto.
      * intros m Hm. by apply elem_of_nil in Hm.
    + apply Hspec.
      * intros m Hm. apply list_elem_of_singleton in Hm as ->. eauto.
      * intros m Hm. by apply elem_of_nil in Hm.
Qed.

End selection_props.

Lemma sample_key_lt_order :
  (∀ k, sample_key_lt k k = false) ∧
  (∀ a b c, sample_key_lt a b = true → sample_key_lt b c = true →
            sample_key_lt a c = true) ∧
  (∀ a b c, sample_key_lt a b = true →
            sample_key_lt a c = true ∨ sample_key_lt c b = true).
Proof.
  unfold sample_key_lt. split; [|split].
  - intros [a b]. simpl. apply Z.ltb_irrefl.
  - intros [a b] [c d] [e f]. simpl. rewrite !Z.ltb_lt. intros H1 H2.
    assert (0 < Z.pos b) by lia. assert (0 < Z.pos d) by lia.
    assert (0 < Z.pos f) by lia. nia.
  - intros [a b] [c d] [e f]. simpl. rewrite !Z.ltb_lt. intros H1.
    assert (0 < Z.pos b) by lia. assert (0 < Z.pos d) by lia.
    assert (0 < Z.pos f) by lia.
    destruct (Z.lt_ge_cases (a * Z.pos f) (e * Z.pos b)); [by left|].
    right. nia.
Qed.

(** Of [two_nodes] the contributor, loaded 0 of 2, is chosen before
    [backup], loaded 3 of 10. *)
Lemma get_available_node_least_loaded_witness :
  (node_id <$> Vault.dict_values two_nodes) = ["backup"; "contributor-c1"] ∧
  get_available_node sample_truediv sample_key_lt two_nodes (Some "llama3")
    = Chosen (mkFederationNode "contributor-c1" CONTRIBUTOR "" "" HEALTHY (Some 5)
                0 ["llama3"] 2 0 0 0) ∧
  (∀ n, n ∈ candidates two_nodes (Some "llama3") →
        status n = HEALTHY ∧ current_load n < max_concurrent n).
Proof.
  split; [reflexivity|]. split; [reflexivity|]. intros n Hn.
  destruct sample_key_lt_order as (H1 & H2 & H3).
  destruct (proj1 (get_available_node_least_loaded sample_truediv sample_key_lt
                     H1 H2 H3 two_nodes (Some "llama3")) n Hn)
    as (_ & Hs & Hl & _).
  split; [exact Hs|exact Hl].
Defined.

End FederationProps.

(** ** Peers of a mesh node: forwarding, tool calls and the tool list *)

Module PeersProps.
Import Json Peers.

(** [_handle_broadcast] forwards nothing when the hop count it received
    is 0 or less.  Otherwise every frame it writes carries the received
    hop count less one, the origin and the message unchanged, and goes
    to a connected peer that is not the origin.  The number it answers
    is the number of connected peers other than the origin: it counts
    the peers it tried, also those the write to which failed. *)
Theorem broadcast_forwarding (st : NodeState) (params : BroadcastParams)
    (peer : option Peer) (io : nat → bool) :
  let out := _handle_broadcast st params peer io in
  let origin :=
    default (match peer with
             | Some p => peer_id p
             | None => node_id st
             end) (b_origin params) in
  let ttl := default 3 (b_ttl params) in
  (ttl ≤ 0 → out = (0%nat, [])) ∧
  (0 < ttl →
     fst out
       = length (List.filter
                   (λ p, is_connected st p && negb (String.eqb (peer_id p) origin))
                   (Vault.dict_values (peers st))) ∧
     (length (snd out) ≤ fst out)%nat ∧
     (∀ f, f ∈ snd out →
        f_ttl f = ttl - 1 ∧ f_origin f = origin ∧
        f_message f = default (JDict []) (b_message params) ∧
        f_to f ≠ origin ∧
        ∃ p, p ∈ Vault.dict_values (peers st) ∧ peer_id p = f_to f ∧
             is_connected st p = true)).
Proof.
  intros out origin ttl. subst out. unfold _handle_broadcast.
  fold origin. fold ttl. split.
  - intros Hle. by destruct (Z.leb_spec ttl 0); [|lia].
  - intros Hpos. destruct (Z.leb_spec ttl 0); [lia|]. simpl.
    split; [done|]. split.
    + rewrite length_map. apply filter_length_le.
    + intros f Hf. apply list_elem_of_fmap in Hf as (p & -> & Hp). simpl.
      apply list_elem_of_In, filter_In in Hp as [Hp _].
      apply filter_In in Hp as [Hin Hp].
      apply andb_true_iff in Hp as [Hc Hne].
      split; [done|]. split; [done|]. split; [done|]. split.
      * by apply negb_true_iff, String.eqb_neq in Hne.
      * exists p. split; [by apply list_elem_of_In|done].
Qed.

(** *** Tool calls *)

Lemma find_first {A : Type} (f : A → bool) (l : list A) :
  match find f l with
  | Some p => ∃ l1 l2, l = l1 ++ p :: l2 ∧ f p = true ∧ ∀ q, q ∈ l1 → f q = false
  | None => ∀ q, q ∈ l → f q = false
  end.
Proof.
  induction l as [|a l IH]; simpl.
  - intros q Hq. by apply elem_of_nil in Hq.
  - destruct (f a) eqn:Ha.
    + exists [], l. split; [done|]. split; [done|].
      intros q Hq. by apply elem_of_nil in Hq.
    + destruct (find f l) as [p|].
      * destruct IH as (l1 & l2 & -> & Hp & Hl1).
        exists (a :: l1), l2. split; [done|]. split; [done|].
        intros q [->|Hq]%elem_of_cons; [done|by apply Hl1].
      * intros q [->|Hq]%elem_of_cons; [done|by apply IH].
Qed.

(** A call of a tool that the node itself lists is never forwarded: it
    is answered with the "local execution not implemented" error, also
    when a connected peer provides the tool.  Any other call goes to the
    first peer of the table that is connected and lists the tool, and is
    answered with the "no provider" error, which names the tool, when
    there is no such peer. *)
Theorem tool_call_routing (st : NodeState) (name : option string) :
  let tool_name := default "" name in
  match _handle_tool_call st name with
  | LocalNotImplemented => tool_name ∈ self_tools st
  | CallPeer pid =>
      (tool_name ∉ self_tools st) ∧
      ∃ l1 p l2,
        Vault.dict_values (peers st) = l1 ++ p :: l2 ∧ peer_id p = pid ∧
        is_connected st p = true ∧ tool_name ∈ tools p ∧
        ∀ q, q ∈ l1 → ¬ (is_connected st q = true ∧ tool_name ∈ tools q)
  | NoProviderFor t =>
      t = tool_name ∧ (tool_name ∉ self_tools st) ∧
      ∀ q, q ∈ Vault.dict_values (peers st) →
           ¬ (is_connected st q = true ∧ tool_name ∈ tools q)
  end.
Proof.
  intros tool_name. unfold _handle_tool_call. fold tool_name.
  case_bool_decide as Hown; [done|].
  pose proof (find_first
                (λ p, is_connected st p && bool_decide (tool_name ∈ tools p))
                (Vault.dict_values (peers st))) as Hfind.
  destruct (find _ _) as [p|].
  - destruct Hfind as (l1 & l2 & Hl & Hp & Hl1).
    apply andb_true_iff in Hp as [Hc Ht]. apply bool_decide_eq_true in Ht.
    split; [done|]. exists l1, p, l2. repeat split; try done.
    intros q Hq [Hqc Hqt]. specialize (Hl1 q Hq). simpl in Hl1.
    by rewrite Hqc, bool_decide_eq_true_2 in Hl1.
  - split; [done|]. split; [done|].
    intros q Hq [Hqc Hqt]. specialize (Hfind q Hq). simpl in Hfind.
    by rewrite Hqc, bool_decide_eq_true_2 in Hfind.
Qed.

(** *** The tool list *)

Lemma add_tool_provider_lookup pid m t T :
  default [] (add_tool_provider pid m t !! T)
  = if decide (t = T) then default [] (m !! T) ++ [pid] else default [] (m !! T).
Proof.
  unfold add_tool_provider. case_decide as Heq.
  - subst. by rewrite lookup_insert_eq.
  - by rewrite lookup_insert_ne.
Qed.

Lemma add_tool_providers_elem pid ts (m : gmap string (list string)) T q :
  q ∈ default [] (fold_left (add_tool_provider pid) ts m !! T) ↔
  q ∈ default [] (m !! T) ∨ (q = pid ∧ T ∈ ts).
Proof.
  revert m. induction ts as [|t ts IH]; intros m; simpl.
  - split; [by left|]. intros [?|[_ H]]; [done|]. by apply elem_of_nil in H.
  - rewrite IH, add_tool_provider_lookup. case_decide as Heq.
    + subst. rewrite elem_of_app, list_elem_of_singleton. split.
      * intros [[?| ->]|[-> ?]]; [by left| |].
        -- right. split; [done|by left].
        -- right. split; [done|by right].
      * intros [?|[-> [?|?]%elem_of_cons]].
        -- left. by left.
        -- left. by right.
        -- right. done.
    + split.
      * intros [?|[-> ?]]; [by left|]. right. split; [done|by right].
      * intros [?|[-> [?|?]%elem_of_cons]]; [by left|congruence|by right].
Qed.

Lemma own_tools_elem me ts (m : gmap string (list string)) T q :
  q ∈ default []
        (fold_left (λ (m' : gmap string (list string)) t, <[t := [me]]> m') ts m
           !! T) ↔
  (T ∈ ts ∧ q = me) ∨ ((T ∉ ts) ∧ q ∈ default [] (m !! T)).
Proof.
  revert m. induction ts as [|t ts IH]; intros m; simpl.
  - split; [intros H; right; split; [apply not_elem_of_nil|done]|].
    intros [[H _]|[_ H]]; [by apply elem_of_nil in H|done].
  - rewrite IH. destruct (decide (t = T)) as [->|Hne].
    + rewrite lookup_insert_eq. simpl. rewrite list_elem_of_singleton. split.
      * intros [[? ?]|[? ?]]; left; (split; [|done]); [by right|by left].
      * intros [[? ->]|[Hn _]].
        -- destruct (decide (T ∈ ts)); [left; done|right; done].
        -- exfalso. apply Hn. by left.
    + rewrite lookup_insert_ne by done. split.
      * intros [[? ?]|[Hn ?]]; [left; split; [by right|done]|].
        right. split; [|done]. by intros [?|?]%elem_of_cons.
      * intros [[[?|?]%elem_of_cons ?]|[Hn ?]]; [congruence|by left|].
        right. split; [|done]. intros ?. apply Hn. by right.
Qed.

Lemma peer_tools_elem st ps (m : gmap string (list string)) T q :
  q ∈ default []
        (fold_left
           (λ m p, if is_connected st p
                   then fold_left (add_tool_provider (peer_id p)) (tools p) m
                   else m) ps m !! T) ↔
  q ∈ default [] (m !! T) ∨
  ∃ p, p ∈ ps ∧ is_connected st p = true ∧ peer_id p = q ∧ T ∈ tools p.
Proof.
  revert m. induction ps as [|p ps IH]; intros m; simpl.
  - split; [by left|]. intros [?|(p & Hp & _)]; [done|]. by apply elem_of_nil in Hp.
  - rewrite IH. destruct (is_connected st p) eqn:Hc.
    + rewrite add_tool_providers_elem. split.
      * intros [[?|[-> ?]]|(p' & Hp' & ?)]; [by left| |].
        -- right. exists p. split; [by left|done].
        -- right. exists p'. split; [by right|done].
      * intros [?|(p' & [->|Hp']%elem_of_cons & Hc' & <- & HT)].
        -- left. by left.
        -- left. right. done.
        -- right. exists p'. done.
    + split.
      * intros [?|(p' & Hp' & ?)]; [by left|]. right. exists p'.
        split; [by right|done].
      * intros [?|(p' & [->|Hp']%elem_of_cons & Hc' & <- & HT)]; [by left| |].
        -- congruence.
        -- right. exists p'. done.
Qed.

(** The tool list of the mesh: a node is named under a tool exactly when
    it is this node and lists the tool, or it is a connected peer that
    lists the tool.  Peers that are not connected are left out. *)
Theorem tools_list_membership (st : NodeState) (T q : string) :
  q ∈ default [] (_handle_tools_list st !! T) ↔
  (q = node_id st ∧ T ∈ self_tools st) ∨
  (∃ p, p ∈ Vault.dict_values (peers st) ∧ is_connected st p = true ∧
        peer_id p = q ∧ T ∈ tools p).
Proof.
  unfold _handle_tools_list. rewrite peer_tools_elem, own_tools_elem.
  rewrite lookup_empty. simpl. split.
  - intros [[[? ?]|[_ H]]|?]; [by left| |by right]. by apply elem_of_nil in H.
  - intros [[? ?]|?]; [left; by left|by right].
Qed.

(** The node [me] with its three peers: a call of its own tool [echo] is
    not executed; [render] goes to [a], the first connected peer that
    lists it; a broadcast that came from [a] is tried on [c] alone, and
    counted, although the write fails; the peer list leaves out [b],
    whose transport is closed. *)
Example three_peers_scenario :
  _handle_tool_call three_peers (Some "echo") = LocalNotImplemented ∧
  _handle_tool_call three_peers (Some "render") = CallPeer "a" ∧
  _handle_tool_call three_peers (Some "paint") = NoProviderFor "paint" ∧
  _handle_broadcast three_peers (mkBroadcastParams None (Some "a") (Some 2)) None
    (λ _, false) = (1%nat, []) ∧
  _handle_broadcast three_peers (mkBroadcastParams None (Some "a") (Some 2)) None
    (λ _, true) = (1%nat, [mkFrame "c" (JDict []) "a" 1]) ∧
  snd (_handle_peer_list three_peers) = 2%nat ∧
  send_to_peer three_peers "b" (λ _, true) = false ∧
  _handle_tools_list three_peers !! "render" = Some ["a"; "c"].
Proof. by vm_compute. Qed.

End PeersProps.

(** ** Gossip: what the answer counts *)

Module GossipCoverage.
Import Json Gossip.

Lemma learn_effect st p now :
  node_id (fst (learn st p now)) = node_id st ∧
  peers (fst (learn st p now)) = peers st ∧
  (if snd (learn st p now)
   then ∃ pid info, g_peer_id p = Some pid ∧ pid ≠ "" ∧ pid ≠ node_id st ∧
                    (pid ∉ peers st) ∧
                    _known_peers (fst (learn st p now))
                      = <[pid := info]> (_known_peers st)
   else fst (learn st p now) = st).
Proof.
  unfold learn. destruct (g_peer_id p) as [pid|]; [|done].
  destruct (str_truthy pid) eqn:Ht; simpl; [|done].
  destruct (String.eqb_spec pid (node_id st)) as [|Hme]; simpl; [done|].
  case_bool_decide as Hp; simpl; [done|].
  split; [done|]. split; [done|]. eexists _, _.
  split; [done|]. split; [by apply str_truthy_spec|]. done.
Qed.

Lemma handle_gossip_from_counts st added msg :
  let out := _handle_gossip_from st added msg in
  node_id (fst out) = node_id st ∧ peers (fst out) = peers st ∧
  (added ≤ fst (snd out) ≤ added + length msg)%nat ∧
  snd (snd out) = size (_known_peers (fst out)) ∧
  (size (_known_peers st) ≤ size (_known_peers (fst out))
   ≤ size (_known_peers st) + (fst (snd out) - added))%nat ∧
  dom (_known_peers st) ⊆ dom (_known_peers (fst out)) ∧
  (∀ pid, pid ∈ dom (_known_peers (fst out)) →
          pid ∈ dom (_known_peers st) ∨
          (pid ≠ "" ∧ pid ≠ node_id st ∧ pid ∉ peers st)).
Proof.
  revert st added. induction msg as [|[p now] rest IH]; intros st added.
  - simpl. split; [done|]. split; [done|]. split; [lia|]. split; [done|].
    split; [lia|]. split; [done|]. intros pid Hpid. by left.
  - cbn [_handle_gossip_from].
    destruct (learn_effect st p now) as (Hid & Hps & Hl).
    destruct (learn st p now) as [st' learnt]. simpl in Hid, Hps, Hl.
    specialize (IH st' (if learnt then S added else added)).
    cbv zeta in IH |- *.
    destruct IH as (I1 & I2 & I3 & I4 & I5 & I6 & I7).
    rewrite I1, I2, Hid, Hps. split; [done|]. split; [done|].
    destruct learnt.
    + destruct Hl as (pid & info & Hpid & Hne & Hme & Hnp & Hk).
      assert (size (_known_peers st) ≤ size (_known_peers st')
              ≤ size (_known_peers st) + 1)%nat as Hsize.
      { rewrite Hk. destruct (_known_peers st !! pid) as [old|] eqn:Hold.
        - rewrite map_size_insert_Some by eauto. lia.
        - rewrite map_size_insert_None by done. lia. }
      split; [cbn [length]; lia|]. split; [done|].
      split; [lia|]. split.
      * etrans; [|exact I6]. rewrite Hk, dom_insert. apply union_subseteq_r.
      * intros q Hq.
        destruct (I7 q Hq) as [Hq'|Hq']; [|right; by rewrite Hid, Hps in Hq'].
        rewrite Hk, dom_insert in Hq'.
        apply elem_of_union in Hq' as [->%elem_of_singleton|?]; [by right|by left].
    + subst st'. split; [cbn [length]; lia|]. split; [done|].
      split; [lia|]. split; [done|]. exact I7.
Qed.

(** The answer to a gossip message: [added] is at most the number of
    records in the message, [total_known] is the number of peers known
    afterwards, which is at least the number known before and at most
    that number plus [added].  Gossip forgets no peer, leaves the node's
    id and its connected peers alone, and every id it newly knows is
    non-empty, not the node's own and not the id of a connected peer. *)
Theorem gossip_answer_counts (st : NodeState) (msg : list (GossipRecord * string)) :
  let out := _handle_gossip st msg in
  let added := fst (snd out) in
  let total_known := snd (snd out) in
  (added ≤ length msg)%nat ∧
  total_known = size (_known_peers (fst out)) ∧
  (size (_known_peers st) ≤ total_known ≤ size (_known_peers st) + added)%nat ∧
  node_id (fst out) = node_id st ∧ peers (fst out) = peers st ∧
  dom (_known_peers st) ⊆ dom (_known_peers (fst out)) ∧
  (∀ pid, pid ∈ dom (_known_peers (fst out)) →
          pid ∈ dom (_known_peers st) ∨
          (pid ≠ "" ∧ pid ≠ node_id st ∧ pid ∉ peers st)).
Proof.
  intros out added total_known. subst added total_known out.
  unfold _handle_gossip.
  destruct (handle_gossip_from_counts st 0%nat msg)
    as (H1 & H2 & H3 & H4 & H5 & H6 & H7).
  rewrite H4. split; [lia|]. split; [done|]. split; [lia|]. done.
Qed.

End GossipCoverage.
